(** * CommandQueue: a double-buffered single-consumer command queue

    A shallow embedding of [CommandQueue.hpp] and the properties of its
    arena layout, growth policy, dispatch stubs and buffer exchange
    protocol.

    Conventions of the embedding.
    - A [uint32_t] is a [Z] in [0, 2^32); every arithmetic operation of the
      source on such a value is followed by [wrap32].
    - Memory is byte addressed.  A byte is a [Z] in [0, 256); a heap block
      is a [list Z].  A character pointer into a block is the offset from the start
      of the block.  A load or store outside the block is undefined
      behaviour in the source and yields [None] here.
    - Scalars are stored in little-endian order (the source uses the
      native order of the machine; nothing below depends on the choice
      beyond decode after encode being the identity).
    - The size of a pointer is a parameter [ptr_size] of the development.
    - A value of a template parameter type [T] is its object
      representation, a list of [sizeof(T)] bytes. *)

From Stdlib Require Import ZArith Lia List Bool Sorted.
From stdpp Require Import base tactics option list.
Import ListNotations.

Local Open Scope Z_scope.

(** ** Bytes and scalars *)

Definition len {A} (l : list A) : Z := Z.of_nat (length l).

Definition wrap32 (x : Z) : Z := x mod 2 ^ 32.

Fixpoint le_encode (w : nat) (x : Z) : list Z :=
  match w with
  | O => []
  | S w' => (x mod 256) :: le_encode w' (x / 256)
  end.

Fixpoint le_decode (bs : list Z) : Z :=
  match bs with
  | [] => 0
  | b :: bs' => b + 256 * le_decode bs'
  end.

(** ** Loads and stores in a heap block *)

Definition load (mem : list Z) (off n : Z) : option (list Z) :=
  if (0 <=? off) && (0 <=? n) && (off + n <=? len mem)
  then Some (take (Z.to_nat n) (drop (Z.to_nat off) mem))
  else None.

Definition store (mem : list Z) (off : Z) (bs : list Z) : option (list Z) :=
  if (0 <=? off) && (off + len bs <=? len mem)
  then Some (take (Z.to_nat off) mem ++ bs ++ drop (Z.to_nat (off + len bs)) mem)
  else None.

(** [malloc] and [realloc] return blocks whose fresh bytes are
    indeterminate in the source; the model fills them with zero and no
    property below reads a byte that was not written first. *)
Definition malloc (n : Z) : list Z := replicate (Z.to_nat n) 0.

Definition realloc (mem : list Z) (n : Z) : list Z :=
  take (Z.to_nat n) mem ++ replicate (Z.to_nat n - length mem)%nat 0.

(** ** The arena: [queue_buffer_t] *)

Record queue_buffer_t : Type := mk_buffer {
  commands : list Z;
  size : Z;
  used : Z
}.

(** The [do size *= 2; while (used > size)] loop of [allocCommand].
    [fuel] bounds the number of iterations; [None] means the bound was
    reached with the loop condition still true. *)
Fixpoint grow_size (fuel : nat) (used_ size_ : Z) : option Z :=
  match fuel with
  | O => None
  | S fuel' =>
      let size' := wrap32 (size_ * 2) in
      if size' <? used_ then grow_size fuel' used_ size' else Some size'
  end.

(** The size of a data pointer: the value of every [sizeof] of a pointer
    type in the source (pointer to [PFNCommandHandler], pointer to [TCB]). *)
Class platform : Type := mk_platform { ptr_size : nat }.

Section Model.

Context {pf : platform}.

Definition psz : Z := Z.of_nat ptr_size.

(** Pointer size plus [sizeof(uint32_t)]: the two header slots of a record. *)
Definition header_size : Z := psz + 4.

Definition load_ptr (mem : list Z) (off : Z) : option Z :=
  le_decode <$> load mem off psz.

Definition load_u32 (mem : list Z) (off : Z) : option Z :=
  le_decode <$> load mem off 4.

Definition store_ptr (mem : list Z) (off : Z) (p : Z) : option (list Z) :=
  store mem off (le_encode ptr_size p).

Definition store_u32 (mem : list Z) (off : Z) (x : Z) : option (list Z) :=
  store mem off (le_encode 4 x).

(** [allocCommand(buffer, function, size)]: returns the updated buffer and
    the pointer to the data section of the new record.  The doubling loop
    runs with 32 units of fuel: after 32 doublings a 32-bit capacity is 0
    and stays 0, see [grow_size_fuel]. *)
Definition allocCommand (buffer : queue_buffer_t) (function : Z) (size_ : Z)
  : option (queue_buffer_t * Z) :=
  let base := used buffer in
  let reserved := wrap32 (psz + 4 + size_) in
  let used' := wrap32 (used buffer + reserved) in
  grown ← (if size buffer <? used'
           then (fun sz => (realloc (commands buffer) sz, sz))
                  <$> grow_size 32 used' (size buffer)
           else Some (commands buffer, size buffer));
  let command := base in
  mem1 ← store_ptr grown.1 command function;
  mem2 ← store_u32 mem1 (command + psz) reserved;
  Some (mk_buffer mem2 grown.2 used', command + psz + 4).

(** A sequence of reservations on one arena, each given by the handler and
    the size of the data section. *)
Fixpoint reserve_all (requests : list (Z * Z)) (buffer : queue_buffer_t)
  : option queue_buffer_t :=
  match requests with
  | [] => Some buffer
  | request :: rest =>
      '(buffer', _) ← allocCommand buffer request.1 request.2;
      reserve_all rest buffer'
  end.

(** The bytes the sequence asks for, headers included. *)
Definition reserved_total (requests : list (Z * Z)) : Z :=
  foldr (fun request acc => psz + 4 + request.2 + acc) 0 requests.


(** ** The world outside the arenas

    Handlers act on the rest of the process.  The model keeps what the
    properties below observe: the bytes written through pointers (return
    destinations, the [done] flag of [join]), the calls made to user
    callables, and the notifications of [cvJoin]. *)

Inductive event : Type :=
  | Called (function : list Z) (args : list (list Z))
  | RawCalled (handler data : Z).

Record World : Type := mk_world {
  heap : Z -> Z;
  calls : list event;
  cvJoin_signals : nat
}.

Definition heap_store (h : Z -> Z) (addr : Z) (bs : list Z) : Z -> Z :=
  fun a =>
    if (addr <=? a) && (a <? addr + len bs)
    then nth (Z.to_nat (a - addr)) bs 0
    else h a.

Definition heap_load (h : Z -> Z) (addr : Z) (n : nat) : list Z :=
  map (fun i => h (addr + Z.of_nat i)) (seq 0 n).

(** What the [returns] stubs need of the C++ types: the type of the
    value that the callable returns and the type that the destination
    points to.  [Other] stands for every type that is neither [bool] nor
    an integer type; of such types the model knows the copy between equal
    types only. *)
Inductive ctype : Type :=
  | Bool
  | Integer (signed : bool) (size : nat)
  | Other (tag : Z) (size : nat).

#[global] Instance ctype_eq_dec : EqDecision ctype.
Proof. solve_decision. Defined.

Definition sizeof (t : ctype) : nat :=
  match t with
  | Bool => 1%nat
  | Integer _ n | Other _ n => n
  end.

(** The number that the object representation [bs] of a [bool] or of an
    integer stands for (two's complement for the signed types). *)
Definition value_of (t : ctype) (bs : list Z) : Z :=
  match t with
  | Integer true n =>
      if le_decode bs <? 256 ^ Z.of_nat n / 2
      then le_decode bs
      else le_decode bs - 256 ^ Z.of_nat n
  | _ => le_decode bs
  end.

(** The implicit conversion of the assignment [*dest = value], from the
    type of the value to the type of [*dest]: a copy between equal types,
    the comparison with zero into [bool], the reduction modulo 2^N into an
    integer type of N bits.  The result has the size of the destination
    type.  [None] for a value that has not the size of its type and for
    the conversions that the model does not cover. *)
Definition convert (from to : ctype) (bs : list Z) : option (list Z) :=
  if negb (len bs =? Z.of_nat (sizeof from)) then None
  else if decide (from = to) then Some bs
  else
    match from, to with
    | (Bool | Integer _ _), Bool =>
        Some [if value_of from bs =? 0 then 0 else 1]
    | (Bool | Integer _ _), Integer _ m =>
        Some (le_encode m (value_of from bs))
    | _, _ => None
    end.

(** What lives at a code address: an instance of one of the stub
    templates (with the [sizeof] of its type parameters and, for the
    [returns] stubs, the type [Tf] of the value of the callable and the
    type [Td] that the destination points to), or a handler written by
    the user that takes the raw data pointer. *)
Inductive function_t : Type :=
  | ExecuteStub (TCB : Z) (Ts : list Z)
  | ReturnStub (TCB R : Z) (Tf Td : ctype) (Ts : list Z)
  | RawHandler.

(** The program image: its code addresses, the values that user callables
    return, and the addresses the queue itself refers to. *)
Class image : Type := mk_image {
  code : Z -> option function_t;
  result : list Z -> list (list Z) -> list Z;
  join_cb_addr : Z;
  join_stub_addr : Z;
  this_addr : Z
}.

Context {im : image}.

(** [join_cb(commandQ, done)]: sets [*done = true] and notifies [cvJoin]. *)
Definition join_cb (args : list (list Z)) (w : World) : World :=
  match args with
  | [commandQ; done] =>
      mk_world (heap_store (heap w) (le_decode done) [1]) (calls w)
               (S (cvJoin_signals w))
  | _ => w
  end.

(** A call [function(v1, ..., vN)] through a callable object.  The callable
    whose representation is the address of [join_cb] runs [join_cb]; any
    other callable is user code: the call is recorded and its value is
    given by the image. *)
Definition call (function : list Z) (args : list (list Z)) (w : World)
  : World * list Z :=
  if decide (function = le_encode ptr_size join_cb_addr)
  then (join_cb args w, [])
  else (mk_world (heap w) (calls w ++ [Called function args]) (cvJoin_signals w),
        result function args).

(** The value of that call, which does not depend on the world. *)
Definition returned (function : list Z) (args : list (list Z)) : list Z :=
  if decide (function = le_encode ptr_size join_cb_addr)
  then []
  else result function args.

(** ** The [execute] stubs

    The type parameters stand for their [sizeof]. *)

Definition executeStubV0 (TCB : Z) (mem : list Z) (data : Z) (w : World)
  : option World :=
  function ← load mem data TCB;
  Some (call function [] w).1.

Definition executeStubV1 (TCB T1 : Z) (mem : list Z) (data : Z) (w : World)
  : option World :=
  function ← load mem data TCB;
  v1 ← load mem (data + psz) T1;
  Some (call function [v1] w).1.

Definition executeStubV2 (TCB T1 T2 : Z) (mem : list Z) (data : Z) (w : World)
  : option World :=
  function ← load mem data TCB;
  v1 ← load mem (data + psz) T1;
  v2 ← load mem (data + psz + T1) T2;
  Some (call function [v1; v2] w).1.

Definition executeStubV3 (TCB T1 T2 T3 : Z) (mem : list Z) (data : Z) (w : World)
  : option World :=
  function ← load mem data TCB;
  v1 ← load mem (data + psz) T1;
  v2 ← load mem (data + psz + T1) T2;
  v3 ← load mem (data + psz + T1 + T2) T3;
  Some (call function [v1; v2; v3] w).1.

Definition executeStubV4 (TCB T1 T2 T3 T4 : Z) (mem : list Z) (data : Z)
  (w : World) : option World :=
  function ← load mem data TCB;
  v1 ← load mem (data + psz) T1;
  v2 ← load mem (data + psz + T1) T2;
  v3 ← load mem (data + psz + T1 + T2) T3;
  v4 ← load mem (data + psz + T1 + T2 + T3) T4;
  Some (call function [v1; v2; v3; v4] w).1.

Definition executeStubV5 (TCB T1 T2 T3 T4 T5 : Z) (mem : list Z) (data : Z)
  (w : World) : option World :=
  function ← load mem data TCB;
  v1 ← load mem (data + psz) T1;
  v2 ← load mem (data + psz + T1) T2;
  v3 ← load mem (data + psz + T1 + T2) T3;
  v4 ← load mem (data + psz + T1 + T2 + T3) T4;
  v5 ← load mem (data + psz + T1 + T2 + T3 + T4) T5;
  Some (call function [v1; v2; v3; v4; v5] w).1.

Definition executeStubV6 (TCB T1 T2 T3 T4 T5 T6 : Z) (mem : list Z) (data : Z)
  (w : World) : option World :=
  function ← load mem data TCB;
  v1 ← load mem (data + psz) T1;
  v2 ← load mem (data + psz + T1) T2;
  v3 ← load mem (data + psz + T1 + T2) T3;
  v4 ← load mem (data + psz + T1 + T2 + T3) T4;
  v5 ← load mem (data + psz + T1 + T2 + T3 + T4) T5;
  v6 ← load mem (data + psz + T1 + T2 + T3 + T4 + T5) T6;
  Some (call function [v1; v2; v3; v4; v5; v6] w).1.

(** The stub instance selected by the number of parameter types. *)
Definition executeStub (TCB : Z) (Ts : list Z) (mem : list Z) (data : Z)
  (w : World) : option World :=
  match Ts with
  | [] => executeStubV0 TCB mem data w
  | [T1] => executeStubV1 TCB T1 mem data w
  | [T1; T2] => executeStubV2 TCB T1 T2 mem data w
  | [T1; T2; T3] => executeStubV3 TCB T1 T2 T3 mem data w
  | [T1; T2; T3; T4] => executeStubV4 TCB T1 T2 T3 T4 mem data w
  | [T1; T2; T3; T4; T5] => executeStubV5 TCB T1 T2 T3 T4 T5 mem data w
  | [T1; T2; T3; T4; T5; T6] => executeStubV6 TCB T1 T2 T3 T4 T5 T6 mem data w
  | _ => None
  end.


(** ** The [returns] stubs

    [R] is the type of the return destination, a pointer; the stub assigns
    the value of the call through it: the value, of type [Tf], is
    converted to the type [Td] that [R] points to, and the bytes of the
    converted value, [sizeof] of [Td] of them, are written at the
    destination. *)

Definition return_to (Tf Td : ctype) (ret : list Z) (cr : World * list Z)
  : option World :=
  v ← convert Tf Td cr.2;
  Some (mk_world (heap_store (heap cr.1) (le_decode ret) v) (calls cr.1)
                 (cvJoin_signals cr.1)).

Definition returnStubV0 (TCB R : Z) (Tf Td : ctype) (mem : list Z)
  (data : Z) (w : World) : option World :=
  function ← load mem data TCB;
  ret ← load mem (data + psz) R;
  return_to Tf Td ret (call function [] w).

Definition returnStubV1 (TCB R T1 : Z) (Tf Td : ctype) (mem : list Z)
  (data : Z) (w : World) : option World :=
  function ← load mem data TCB;
  v1 ← load mem (data + psz + R) T1;
  ret ← load mem (data + psz) R;
  return_to Tf Td ret (call function [v1] w).

Definition returnStubV2 (TCB R T1 T2 : Z) (Tf Td : ctype) (mem : list Z)
  (data : Z) (w : World) : option World :=
  function ← load mem data TCB;
  v1 ← load mem (data + psz + R) T1;
  v2 ← load mem (data + psz + R + T1) T2;
  ret ← load mem (data + psz) R;
  return_to Tf Td ret (call function [v1; v2] w).

Definition returnStubV3 (TCB R T1 T2 T3 : Z) (Tf Td : ctype) (mem : list Z)
  (data : Z) (w : World) : option World :=
  function ← load mem data TCB;
  v1 ← load mem (data + psz + R) T1;
  v2 ← load mem (data + psz + R + T1) T2;
  v3 ← load mem (data + psz + R + T1 + T2) T3;
  ret ← load mem (data + psz) R;
  return_to Tf Td ret (call function [v1; v2; v3] w).

Definition returnStubV4 (TCB R T1 T2 T3 T4 : Z) (Tf Td : ctype) (mem : list Z)
  (data : Z) (w : World) : option World :=
  function ← load mem data TCB;
  v1 ← load mem (data + psz + R) T1;
  v2 ← load mem (data + psz + R + T1) T2;
  v3 ← load mem (data + psz + R + T1 + T2) T3;
  v4 ← load mem (data + psz + R + T1 + T2 + T3) T4;
  ret ← load mem (data + psz) R;
  return_to Tf Td ret (call function [v1; v2; v3; v4] w).

Definition returnStubV5 (TCB R T1 T2 T3 T4 T5 : Z) (Tf Td : ctype) (mem : list Z)
  (data : Z) (w : World) : option World :=
  function ← load mem data TCB;
  v1 ← load mem (data + psz + R) T1;
  v2 ← load mem (data + psz + R + T1) T2;
  v3 ← load mem (data + psz + R + T1 + T2) T3;
  v4 ← load mem (data + psz + R + T1 + T2 + T3) T4;
  v5 ← load mem (data + psz + R + T1 + T2 + T3 + T4) T5;
  ret ← load mem (data + psz) R;
  return_to Tf Td ret (call function [v1; v2; v3; v4; v5] w).

Definition returnStubV6 (TCB R T1 T2 T3 T4 T5 T6 : Z) (Tf Td : ctype) (mem : list Z)
  (data : Z) (w : World) : option World :=
  function ← load mem data TCB;
  v1 ← load mem (data + psz + R) T1;
  v2 ← load mem (data + psz + R + T1) T2;
  v3 ← load mem (data + psz + R + T1 + T2) T3;
  v4 ← load mem (data + psz + R + T1 + T2 + T3) T4;
  v5 ← load mem (data + psz + R + T1 + T2 + T3 + T4) T5;
  v6 ← load mem (data + psz + R + T1 + T2 + T3 + T4 + T5) T6;
  ret ← load mem (data + psz) R;
  return_to Tf Td ret (call function [v1; v2; v3; v4; v5; v6] w).

(** The stub instance selected by the number of parameter types. *)
Definition returnStub (TCB R : Z) (Tf Td : ctype) (Ts : list Z)
  (mem : list Z) (data : Z) (w : World) : option World :=
  match Ts with
  | [] => returnStubV0 TCB R Tf Td mem data w
  | [T1] => returnStubV1 TCB R T1 Tf Td mem data w
  | [T1; T2] => returnStubV2 TCB R T1 T2 Tf Td mem data w
  | [T1; T2; T3] => returnStubV3 TCB R T1 T2 T3 Tf Td mem data w
  | [T1; T2; T3; T4] => returnStubV4 TCB R T1 T2 T3 T4 Tf Td mem data w
  | [T1; T2; T3; T4; T5] => returnStubV5 TCB R T1 T2 T3 T4 T5 Tf Td mem data w
  | [T1; T2; T3; T4; T5; T6] =>
      returnStubV6 TCB R T1 T2 T3 T4 T5 T6 Tf Td mem data w
  | _ => None
  end.

(** ** Dispatch through a handler pointer

    What the call [handler(data)] of the worker does, by the code found at
    the address.  A user handler receives the raw pointer; the model
    records the call. *)
Definition invoke (handler data : Z) (mem : list Z) (w : World) : option World :=
  match code handler with
  | Some (ExecuteStub TCB Ts) => executeStub TCB Ts mem data w
  | Some (ReturnStub TCB R Tf Td Ts) => returnStub TCB R Tf Td Ts mem data w
  | Some RawHandler =>
      Some (mk_world (heap w) (calls w ++ [RawCalled handler data])
                     (cvJoin_signals w))
  | None => None
  end.

(** ** The producer operations

    Each operation of the source is [acquireBuffer], a body that appends
    one record to the acquired buffer, and [releaseBuffer].  The
    definitions below are the bodies, as functions of the acquired buffer;
    [None] is undefined behaviour or a doubling loop that does not end.
    The first argument of the typed forms is the address of the stub
    instance the source names in its call of [allocCommand]. *)

Definition with_commands (buffer : queue_buffer_t) (mem : list Z) : queue_buffer_t :=
  mk_buffer mem (size buffer) (used buffer).

Definition execute_V0 (stub : Z) (function : list Z)
  (buffer : queue_buffer_t) : option queue_buffer_t :=
  '(buffer', data) ← allocCommand buffer stub (psz + psz);
  m0 ← store (commands buffer') data function;
  Some (with_commands buffer' m0).

Definition execute_V1 (stub : Z) (function v1 : list Z)
  (buffer : queue_buffer_t) : option queue_buffer_t :=
  '(buffer', data) ← allocCommand buffer stub (psz + psz + len v1);
  m0 ← store (commands buffer') data function;
  m1 ← store m0 (data + psz) v1;
  Some (with_commands buffer' m1).

Definition execute_V2 (stub : Z) (function v1 v2 : list Z)
  (buffer : queue_buffer_t) : option queue_buffer_t :=
  '(buffer', data) ← allocCommand buffer stub (psz + psz + len v1 + len v2);
  m0 ← store (commands buffer') data function;
  m1 ← store m0 (data + psz) v1;
  m2 ← store m1 (data + psz + len v1) v2;
  Some (with_commands buffer' m2).

Definition execute_V3 (stub : Z) (function v1 v2 v3 : list Z)
  (buffer : queue_buffer_t) : option queue_buffer_t :=
  '(buffer', data) ← allocCommand buffer stub (psz + psz + len v1 + len v2 + len v3);
  m0 ← store (commands buffer') data function;
  m1 ← store m0 (data + psz) v1;
  m2 ← store m1 (data + psz + len v1) v2;
  m3 ← store m2 (data + psz + len v1 + len v2) v3;
  Some (with_commands buffer' m3).

Definition execute_V4 (stub : Z) (function v1 v2 v3 v4 : list Z)
  (buffer : queue_buffer_t) : option queue_buffer_t :=
  '(buffer', data) ← allocCommand buffer stub (psz + psz + len v1 + len v2 + len v3 + len v4);
  m0 ← store (commands buffer') data function;
  m1 ← store m0 (data + psz) v1;
  m2 ← store m1 (data + psz + len v1) v2;
  m3 ← store m2 (data + psz + len v1 + len v2) v3;
  m4 ← store m3 (data + psz + len v1 + len v2 + len v3) v4;
  Some (with_commands buffer' m4).

Definition execute_V5 (stub : Z) (function v1 v2 v3 v4 v5 : list Z)
  (buffer : queue_buffer_t) : option queue_buffer_t :=
  '(buffer', data) ← allocCommand buffer stub (psz + psz + len v1 + len v2 + len v3 + len v4 + len v5);
  m0 ← store (commands buffer') data function;
  m1 ← store m0 (data + psz) v1;
  m2 ← store m1 (data + psz + len v1) v2;
  m3 ← store m2 (data + psz + len v1 + len v2) v3;
  m4 ← store m3 (data + psz + len v1 + len v2 + len v3) v4;
  m5 ← store m4 (data + psz + len v1 + len v2 + len v3 + len v4) v5;
  Some (with_commands buffer' m5).

Definition execute_V6 (stub : Z) (function v1 v2 v3 v4 v5 v6 : list Z)
  (buffer : queue_buffer_t) : option queue_buffer_t :=
  '(buffer', data) ← allocCommand buffer stub (psz + psz + len v1 + len v2 + len v3 + len v4 + len v5 + len v6);
  m0 ← store (commands buffer') data function;
  m1 ← store m0 (data + psz) v1;
  m2 ← store m1 (data + psz + len v1) v2;
  m3 ← store m2 (data + psz + len v1 + len v2) v3;
  m4 ← store m3 (data + psz + len v1 + len v2 + len v3) v4;
  m5 ← store m4 (data + psz + len v1 + len v2 + len v3 + len v4) v5;
  m6 ← store m5 (data + psz + len v1 + len v2 + len v3 + len v4 + len v5) v6;
  Some (with_commands buffer' m6).

Definition returns_V0 (stub : Z) (function ret : list Z)
  (buffer : queue_buffer_t) : option queue_buffer_t :=
  '(buffer', data) ← allocCommand buffer stub (psz + psz + len ret);
  m0 ← store (commands buffer') data function;
  mr ← store m0 (data + psz) ret;
  Some (with_commands buffer' mr).

Definition returns_V1 (stub : Z) (function ret v1 : list Z)
  (buffer : queue_buffer_t) : option queue_buffer_t :=
  '(buffer', data) ← allocCommand buffer stub (psz + psz + len ret + len v1);
  m0 ← store (commands buffer') data function;
  mr ← store m0 (data + psz) ret;
  m1 ← store mr (data + psz + len ret) v1;
  Some (with_commands buffer' m1).

Definition returns_V2 (stub : Z) (function ret v1 v2 : list Z)
  (buffer : queue_buffer_t) : option queue_buffer_t :=
  '(buffer', data) ← allocCommand buffer stub (psz + psz + len ret + len v1 + len v2);
  m0 ← store (commands buffer') data function;
  mr ← store m0 (data + psz) ret;
  m1 ← store mr (data + psz + len ret) v1;
  m2 ← store m1 (data + psz + len ret + len v1) v2;
  Some (with_commands buffer' m2).

Definition returns_V3 (stub : Z) (function ret v1 v2 v3 : list Z)
  (buffer : queue_buffer_t) : option queue_buffer_t :=
  '(buffer', data) ← allocCommand buffer stub (psz + psz + len ret + len v1 + len v2 + len v3);
  m0 ← store (commands buffer') data function;
  mr ← store m0 (data + psz) ret;
  m1 ← store mr (data + psz + len ret) v1;
  m2 ← store m1 (data + psz + len ret + len v1) v2;
  m3 ← store m2 (data + psz + len ret + len v1 + len v2) v3;
  Some (with_commands buffer' m3).

Definition returns_V4 (stub : Z) (function ret v1 v2 v3 v4 : list Z)
  (buffer : queue_buffer_t) : option queue_buffer_t :=
  '(buffer', data) ← allocCommand buffer stub (psz + psz + len ret + len v1 + len v2 + len v3 + len v4);
  m0 ← store (commands buffer') data function;
  mr ← store m0 (data + psz) ret;
  m1 ← store mr (data + psz + len ret) v1;
  m2 ← store m1 (data + psz + len ret + len v1) v2;
  m3 ← store m2 (data + psz + len ret + len v1 + len v2) v3;
  m4 ← store m3 (data + psz + len ret + len v1 + len v2 + len v3) v4;
  Some (with_commands buffer' m4).

Definition returns_V5 (stub : Z) (function ret v1 v2 v3 v4 v5 : list Z)
  (buffer : queue_buffer_t) : option queue_buffer_t :=
  '(buffer', data) ← allocCommand buffer stub (psz + psz + len ret + len v1 + len v2 + len v3 + len v4 + len v5);
  m0 ← store (commands buffer') data function;
  mr ← store m0 (data + psz) ret;
  m1 ← store mr (data + psz + len ret) v1;
  m2 ← store m1 (data + psz + len ret + len v1) v2;
  m3 ← store m2 (data + psz + len ret + len v1 + len v2) v3;
  m4 ← store m3 (data + psz + len ret + len v1 + len v2 + len v3) v4;
  m5 ← store m4 (data + psz + len ret + len v1 + len v2 + len v3 + len v4) v5;
  Some (with_commands buffer' m5).

Definition returns_V6 (stub : Z) (function ret v1 v2 v3 v4 v5 v6 : list Z)
  (buffer : queue_buffer_t) : option queue_buffer_t :=
  '(buffer', data) ← allocCommand buffer stub (psz + psz + len ret + len v1 + len v2 + len v3 + len v4 + len v5 + len v6);
  m0 ← store (commands buffer') data function;
  mr ← store m0 (data + psz) ret;
  m1 ← store mr (data + psz + len ret) v1;
  m2 ← store m1 (data + psz + len ret + len v1) v2;
  m3 ← store m2 (data + psz + len ret + len v1 + len v2) v3;
  m4 ← store m3 (data + psz + len ret + len v1 + len v2 + len v3) v4;
  m5 ← store m4 (data + psz + len ret + len v1 + len v2 + len v3 + len v4) v5;
  m6 ← store m5 (data + psz + len ret + len v1 + len v2 + len v3 + len v4 + len v5) v6;
  Some (with_commands buffer' m6).

Definition rawExecute_V0 (function : Z) (buffer : queue_buffer_t)
  : option queue_buffer_t :=
  '(buffer', data) ← allocCommand buffer function 0;
  Some buffer'.

Definition rawExecute_V1 (function : Z) (v1 : list Z)
  (buffer : queue_buffer_t) : option queue_buffer_t :=
  '(buffer', data) ← allocCommand buffer function (len v1);
  m1 ← store (commands buffer') (data) v1;
  Some (with_commands buffer' m1).

Definition rawExecute_V2 (function : Z) (v1 v2 : list Z)
  (buffer : queue_buffer_t) : option queue_buffer_t :=
  '(buffer', data) ← allocCommand buffer function (len v1 + len v2);
  m1 ← store (commands buffer') (data) v1;
  m2 ← store m1 (data + len v1) v2;
  Some (with_commands buffer' m2).

Definition rawExecute_V3 (function : Z) (v1 v2 v3 : list Z)
  (buffer : queue_buffer_t) : option queue_buffer_t :=
  '(buffer', data) ← allocCommand buffer function (len v1 + len v2 + len v3);
  m1 ← store (commands buffer') (data) v1;
  m2 ← store m1 (data + len v1) v2;
  m3 ← store m2 (data + len v1 + len v2) v3;
  Some (with_commands buffer' m3).

Definition rawExecute_V4 (function : Z) (v1 v2 v3 v4 : list Z)
  (buffer : queue_buffer_t) : option queue_buffer_t :=
  '(buffer', data) ← allocCommand buffer function (len v1 + len v2 + len v3 + len v4);
  m1 ← store (commands buffer') (data) v1;
  m2 ← store m1 (data + len v1) v2;
  m3 ← store m2 (data + len v1 + len v2) v3;
  m4 ← store m3 (data + len v1 + len v2 + len v3) v4;
  Some (with_commands buffer' m4).

Definition rawExecute_V5 (function : Z) (v1 v2 v3 v4 v5 : list Z)
  (buffer : queue_buffer_t) : option queue_buffer_t :=
  '(buffer', data) ← allocCommand buffer function (len v1 + len v2 + len v3 + len v4 + len v5);
  m1 ← store (commands buffer') (data) v1;
  m2 ← store m1 (data + len v1) v2;
  m3 ← store m2 (data + len v1 + len v2) v3;
  m4 ← store m3 (data + len v1 + len v2 + len v3) v4;
  m5 ← store m4 (data + len v1 + len v2 + len v3 + len v4) v5;
  Some (with_commands buffer' m5).

Definition rawExecute_V6 (function : Z) (v1 v2 v3 v4 v5 v6 : list Z)
  (buffer : queue_buffer_t) : option queue_buffer_t :=
  '(buffer', data) ← allocCommand buffer function (len v1 + len v2 + len v3 + len v4 + len v5 + len v6);
  m1 ← store (commands buffer') (data) v1;
  m2 ← store m1 (data + len v1) v2;
  m3 ← store m2 (data + len v1 + len v2) v3;
  m4 ← store m3 (data + len v1 + len v2 + len v3) v4;
  m5 ← store m4 (data + len v1 + len v2 + len v3 + len v4) v5;
  m6 ← store m5 (data + len v1 + len v2 + len v3 + len v4 + len v5) v6;
  Some (with_commands buffer' m6).

(** [executeWithCopy(function, data, size)]: [memcpy] of [size] bytes of the
    source block [src] into the data section. *)
Definition executeWithCopy (function : Z) (src : list Z) (size_ : Z)
  (buffer : queue_buffer_t) : option queue_buffer_t :=
  '(buffer', data) ← allocCommand buffer function size_;
  bytes ← load src 0 size_;
  m ← store (commands buffer') data bytes;
  Some (with_commands buffer' m).

(** The overload of [execute] and of [returns] selected by the number of
    arguments; the source has none for more than six. *)

Definition execute (stub : Z) (function : list Z) (args : list (list Z))
  (buffer : queue_buffer_t) : option queue_buffer_t :=
  match args with
  | [] => execute_V0 stub function buffer
  | [v1] => execute_V1 stub function v1 buffer
  | [v1; v2] => execute_V2 stub function v1 v2 buffer
  | [v1; v2; v3] => execute_V3 stub function v1 v2 v3 buffer
  | [v1; v2; v3; v4] => execute_V4 stub function v1 v2 v3 v4 buffer
  | [v1; v2; v3; v4; v5] => execute_V5 stub function v1 v2 v3 v4 v5 buffer
  | [v1; v2; v3; v4; v5; v6] => execute_V6 stub function v1 v2 v3 v4 v5 v6 buffer
  | _ => None
  end.

Definition returns (stub : Z) (function ret : list Z) (args : list (list Z))
  (buffer : queue_buffer_t) : option queue_buffer_t :=
  match args with
  | [] => returns_V0 stub function ret buffer
  | [v1] => returns_V1 stub function ret v1 buffer
  | [v1; v2] => returns_V2 stub function ret v1 v2 buffer
  | [v1; v2; v3] => returns_V3 stub function ret v1 v2 v3 buffer
  | [v1; v2; v3; v4] => returns_V4 stub function ret v1 v2 v3 v4 buffer
  | [v1; v2; v3; v4; v5] => returns_V5 stub function ret v1 v2 v3 v4 v5 buffer
  | [v1; v2; v3; v4; v5; v6] => returns_V6 stub function ret v1 v2 v3 v4 v5 v6 buffer
  | _ => None
  end.


(** *** The layout of the data section of the typed operations

    The typed operations store the callable at the start of the data
    section and the values end to end from the offset of one pointer; the
    stubs load them back from the same offsets. *)

Fixpoint store_args (mem : list Z) (off : Z) (vs : list (list Z))
  : option (list Z) :=
  match vs with
  | [] => Some mem
  | v :: rest => m ← store mem off v; store_args m (off + len v) rest
  end.

Fixpoint load_args (mem : list Z) (off : Z) (Ts : list Z)
  : option (list (list Z)) :=
  match Ts with
  | [] => Some []
  | T :: rest =>
      v ← load mem off T; vs ← load_args mem (off + T) rest; Some (v :: vs)
  end.

Definition enqueue_packed (stub : Z) (function : list Z) (vs : list (list Z))
  (buffer : queue_buffer_t) : option queue_buffer_t :=
  '(buffer', data) ←
    allocCommand buffer stub (fold_left (fun acc v => acc + len v) vs (psz + psz));
  m0 ← store (commands buffer') data function;
  m ← store_args m0 (data + psz) vs;
  Some (with_commands buffer' m).

(** ** The worker's walk over an arena

    One iteration of the [do ... while] of [thread]: call the handler
    stored at [base_addr] with the address of the data section, then
    advance by the length slot.  The result is the world after the call,
    the handler that was called and the new [base_addr]. *)
Definition walk_iter (mem : list Z) (base_addr : Z) (w : World)
  : option (World * Z * Z) :=
  handler ← load_ptr mem base_addr;
  w' ← invoke handler (base_addr + psz + 4) mem w;
  n ← load_u32 mem (base_addr + psz);
  Some (w', handler, base_addr + n).

(** The loop.  Each iteration is recorded as the cursor, the handler called
    and the data pointer it was given.  [None] when the fuel runs out, a
    handler does not return, or a load leaves the block. *)
Fixpoint walk_loop (fuel : nat) (mem : list Z) (end_ base_addr : Z) (w : World)
  : option (World * list (Z * Z * Z)) :=
  match fuel with
  | O => None
  | S fuel' =>
      '(w', handler, next) ← walk_iter mem base_addr w;
      let it := (base_addr, handler, base_addr + psz + 4) in
      if next <? end_
      then '(w'', its) ← walk_loop fuel' mem end_ next w'; Some (w'', it :: its)
      else Some (w', [it])
  end.

(** The block guarded by [if (buffer->used)]: the loop from offset 0 to
    [used], then [buffer->used = 0]. *)
Definition walk (fuel : nat) (buffer : queue_buffer_t) (w : World)
  : option (queue_buffer_t * World * list (Z * Z * Z)) :=
  '(w', its) ← walk_loop fuel (commands buffer) (0 + used buffer) 0 w;
  Some (mk_buffer (commands buffer) (size buffer) 0, w', its).

(** *** Records in an arena

    The layout [allocCommand] writes: the handler slot, the length slot
    with the length of the whole record, and the data section.  A record is
    given by its handler and the bytes of its data section. *)

Definition encode_record (r : Z * list Z) : list Z :=
  le_encode ptr_size r.1 ++ le_encode 4 (psz + 4 + len r.2) ++ r.2.

Definition encode_records (rs : list (Z * list Z)) : list Z :=
  concat (map encode_record rs).

(** The handler is a pointer value and the length fits its 32-bit slot. *)
Definition record_ok (r : Z * list Z) : Prop :=
  0 <= r.1 < 256 ^ psz /\ psz + 4 + len r.2 < 2 ^ 32.

(** The offsets at which the records start, from [base]. *)
Fixpoint record_offsets (base : Z) (rs : list (Z * list Z)) : list Z :=
  match rs with
  | [] => []
  | r :: rest => base :: record_offsets (base + (psz + 4 + len r.2)) rest
  end.

(** One iteration per record: its offset, its handler, and the address of
    its data section. *)
Fixpoint record_iterations (base : Z) (rs : list (Z * list Z))
  : list (Z * Z * Z) :=
  match rs with
  | [] => []
  | r :: rest =>
      (base, r.1, base + psz + 4)
        :: record_iterations (base + (psz + 4 + len r.2)) rest
  end.

(** The calls of a list of iterations, in order. *)
Fixpoint invoke_all (its : list (Z * Z * Z)) (mem : list Z) (w : World)
  : option World :=
  match its with
  | [] => Some w
  | it :: rest => w' ← invoke it.1.2 it.2 mem w; invoke_all rest mem w'
  end.

(** The handler of the record finds what it reads in the data section:
    an [execute] stub the callable and the argument values; a [returns]
    stub the destination pointer as well, and the value of the callable
    converts to the type of the destination.  A handler written by the
    user takes any data section; an address without code is no handler. *)
Definition record_fits (r : Z * list Z) : Prop :=
  match code r.1 with
  | Some (ExecuteStub TCB Ts) =>
      (length Ts <= 6)%nat /\
      is_Some (load r.2 0 TCB) /\ is_Some (load_args r.2 psz Ts)
  | Some (ReturnStub TCB R Tf Td Ts) =>
      (length Ts <= 6)%nat /\
      exists function vs,
        load r.2 0 TCB = Some function /\
        load_args r.2 (psz + R) Ts = Some vs /\
        is_Some (load r.2 psz R) /\
        is_Some (convert Tf Td (returned function vs))
  | Some RawHandler => True
  | None => False
  end.

(** The calls that the world records when the handler of a record at
    [base] is called: the call of the user callable by a stub (none for
    [join_cb]), the call of a handler written by the user with the address
    of the data section. *)
Definition user_call (function : list Z) (args : list (list Z)) : list event :=
  if decide (function = le_encode ptr_size join_cb_addr)
  then []
  else [Called function args].

Definition record_calls (base : Z) (r : Z * list Z) : list event :=
  match code r.1 with
  | Some (ExecuteStub TCB Ts) =>
      match load r.2 0 TCB, load_args r.2 psz Ts with
      | Some function, Some vs => user_call function vs
      | _, _ => []
      end
  | Some (ReturnStub TCB R _ _ Ts) =>
      match load r.2 0 TCB, load_args r.2 (psz + R) Ts with
      | Some function, Some vs => user_call function vs
      | _, _ => []
      end
  | Some RawHandler => [RawCalled r.1 (base + psz + 4)]
  | None => []
  end.

Fixpoint records_calls (base : Z) (rs : list (Z * list Z)) : list event :=
  match rs with
  | [] => []
  | r :: rest =>
      record_calls base r ++ records_calls (base + (psz + 4 + len r.2)) rest
  end.

(** ** The queue and its threads

    The two arenas are [buffer[0]] and [buffer[1]]; a pointer to one of
    them is a [buf_id], and [None] is [nullptr]. *)

Inductive buf_id : Type := B0 | B1.

(** An operation a producer thread calls: an enqueue, given by its body,
    or [join]. *)
Inductive op : Type :=
  | Enqueue (body : queue_buffer_t -> option queue_buffer_t)
  | Join.

(** Where a producer thread stands.  [joining] tells whether the enqueue in
    progress is the one [join] makes. *)
Inductive producer_pc : Type :=
  | P_idle
  | P_acquire (body : queue_buffer_t -> option queue_buffer_t) (joining : bool)
  | P_fill (b : buf_id) (body : queue_buffer_t -> option queue_buffer_t)
           (joining : bool)
  | P_release (b : buf_id) (joining : bool)
  | P_store (b : buf_id) (joining : bool)
  | P_notify (joining : bool)
  | P_wait.

Record producer : Type := mk_producer {
  ppc : producer_pc;
  program : list op;
  done_addr : Z;
  completed : nat
}.

(** Where the worker thread stands in [thread]. *)
Inductive worker_pc : Type :=
  | W_start
  | W_swap (held : option buf_id)
  | W_poll
  | W_test (b : buf_id)
  | W_walk (b : buf_id) (base_addr end_ : Z)
  | W_wait (b : buf_id)
  | W_exit (b : buf_id).

Inductive destructor_pc : Type := D_alive | D_notify | D_join.

Record State : Type := mk_state {
  buffer0 : queue_buffer_t;
  buffer1 : queue_buffer_t;
  primary : option buf_id;
  secondary : option buf_id;
  shutdown : bool;
  cvDequeue_signals : nat;
  worker : worker_pc;
  producers : list producer;
  destructor : destructor_pc;
  world : World
}.

Definition set_buffer0 (v : queue_buffer_t) (s : State) : State :=
  mk_state v (buffer1 s) (primary s) (secondary s) (shutdown s) (cvDequeue_signals s) (worker s) (producers s) (destructor s) (world s).

Definition set_buffer1 (v : queue_buffer_t) (s : State) : State :=
  mk_state (buffer0 s) v (primary s) (secondary s) (shutdown s) (cvDequeue_signals s) (worker s) (producers s) (destructor s) (world s).

Definition set_primary (v : option buf_id) (s : State) : State :=
  mk_state (buffer0 s) (buffer1 s) v (secondary s) (shutdown s) (cvDequeue_signals s) (worker s) (producers s) (destructor s) (world s).

Definition set_secondary (v : option buf_id) (s : State) : State :=
  mk_state (buffer0 s) (buffer1 s) (primary s) v (shutdown s) (cvDequeue_signals s) (worker s) (producers s) (destructor s) (world s).

Definition set_shutdown (v : bool) (s : State) : State :=
  mk_state (buffer0 s) (buffer1 s) (primary s) (secondary s) v (cvDequeue_signals s) (worker s) (producers s) (destructor s) (world s).

Definition set_cvDequeue_signals (v : nat) (s : State) : State :=
  mk_state (buffer0 s) (buffer1 s) (primary s) (secondary s) (shutdown s) v (worker s) (producers s) (destructor s) (world s).

Definition set_worker (v : worker_pc) (s : State) : State :=
  mk_state (buffer0 s) (buffer1 s) (primary s) (secondary s) (shutdown s) (cvDequeue_signals s) v (producers s) (destructor s) (world s).

Definition set_producers (v : list producer) (s : State) : State :=
  mk_state (buffer0 s) (buffer1 s) (primary s) (secondary s) (shutdown s) (cvDequeue_signals s) (worker s) v (destructor s) (world s).

Definition set_destructor (v : destructor_pc) (s : State) : State :=
  mk_state (buffer0 s) (buffer1 s) (primary s) (secondary s) (shutdown s) (cvDequeue_signals s) (worker s) (producers s) v (world s).

Definition set_world (v : World) (s : State) : State :=
  mk_state (buffer0 s) (buffer1 s) (primary s) (secondary s) (shutdown s) (cvDequeue_signals s) (worker s) (producers s) (destructor s) v.

Definition get_buffer (b : buf_id) (s : State) : queue_buffer_t :=
  match b with B0 => buffer0 s | B1 => buffer1 s end.

Definition set_buffer (b : buf_id) (v : queue_buffer_t) (s : State) : State :=
  match b with B0 => set_buffer0 v s | B1 => set_buffer1 v s end.

Definition with_pc (p : producer) (pc : producer_pc) : producer :=
  mk_producer pc (program p) (done_addr p) (completed p).

Definition set_producer (i : nat) (p : producer) (s : State) : State :=
  set_producers (<[i := p]> (producers s)) s.

(** *** The atomic operations on the two slots and the condition variable *)

Definition exchange_primary (v : option buf_id) (s : State)
  : State * option buf_id :=
  (set_primary v s, primary s).

Definition exchange_secondary (v : option buf_id) (s : State)
  : State * option buf_id :=
  (set_secondary v s, secondary s).

(** [primary.compare_exchange_strong(exp, buffer)] with [exp == nullptr]. *)
Definition compare_exchange_primary (desired : buf_id) (s : State)
  : State * bool :=
  match primary s with
  | None => (set_primary (Some desired) s, true)
  | Some _ => (s, false)
  end.

Definition store_secondary (b : buf_id) (s : State) : State :=
  set_secondary (Some b) s.

(** [cvDequeue.notify_one()]: the worker, when it is blocked in
    [cvDequeue.wait], resumes at the top of its loop. *)
Definition notify_one (s : State) : State :=
  let s' := set_cvDequeue_signals (S (cvDequeue_signals s)) s in
  match worker s with
  | W_wait b => set_worker (W_swap (Some b)) s'
  | _ => s'
  end.

(** [releaseBuffer(buffer)], run without interruption. *)
Definition releaseBuffer (buffer : buf_id) (s : State) : State :=
  let '(s1, ok) := compare_exchange_primary buffer s in
  let s2 := if ok then s1 else store_secondary buffer s1 in
  notify_one s2.

(** One attempt of the loop of [acquireBuffer]. *)
Definition acquireBuffer_try (s : State) : State * option buf_id :=
  exchange_primary None s.


(** *** The steps of the threads *)

(** The enqueue that [join] makes: [execute(join_cb, this, &done)]. *)
Definition join_body (done : Z) : queue_buffer_t -> option queue_buffer_t :=
  execute_V2 join_stub_addr
             (le_encode ptr_size join_cb_addr)
             (le_encode ptr_size this_addr)
             (le_encode ptr_size done).

Definition set_done (addr : Z) (v : Z) (w : World) : World :=
  mk_world (heap_store (heap w) addr [v]) (calls w) (cvJoin_signals w).

Definition finish (p : producer) : producer :=
  mk_producer P_idle (program p) (done_addr p) (S (completed p)).

(** One atomic step of producer thread [i], whose record is [p]. *)
Definition producer_step (i : nat) (p : producer) (s : State) : option State :=
  match ppc p with
  | P_idle =>
      match program p with
      | [] => None
      | Enqueue body :: rest =>
          Some (set_producer i
                  (mk_producer (P_acquire body false) rest (done_addr p)
                               (completed p)) s)
      | Join :: rest =>
          Some (set_producer i
                  (mk_producer (P_acquire (join_body (done_addr p)) true) rest
                               (done_addr p) (completed p))
                  (set_world (set_done (done_addr p) 0 (world s)) s))
      end
  | P_acquire body joining =>
      let '(s', result) := acquireBuffer_try s in
      match result with
      | Some b => Some (set_producer i (with_pc p (P_fill b body joining)) s')
      | None => Some s'
      end
  | P_fill b body joining =>
      buffer' ← body (get_buffer b s);
      Some (set_producer i (with_pc p (P_release b joining))
              (set_buffer b buffer' s))
  | P_release b joining =>
      let '(s', ok) := compare_exchange_primary b s in
      Some (set_producer i
              (with_pc p (if ok then P_notify joining else P_store b joining)) s')
  | P_store b joining =>
      Some (set_producer i (with_pc p (P_notify joining)) (store_secondary b s))
  | P_notify joining =>
      Some (set_producer i (if joining then with_pc p P_wait else finish p)
              (notify_one s))
  | P_wait =>
      if heap (world s) (done_addr p) =? 0 then None
      else Some (set_producer i (finish p) s)
  end.

(** One atomic step of the worker thread. *)
Definition worker_step (s : State) : option State :=
  match worker s with
  | W_start =>
      let '(s', buffer) := exchange_secondary None s in
      Some (set_worker (W_swap buffer) s')
  | W_swap held =>
      let '(s', buffer) := exchange_primary held s in
      Some (set_worker (match buffer with
                        | Some b => W_test b
                        | None => W_poll
                        end) s')
  | W_poll =>
      let '(s', buffer) := exchange_secondary None s in
      Some (set_worker (match buffer with
                        | Some b => W_test b
                        | None => W_poll
                        end) s')
  | W_test b =>
      if negb (used (get_buffer b s) =? 0)
      then Some (set_worker (W_walk b 0 (0 + used (get_buffer b s))) s)
      else if shutdown s then Some (set_worker (W_exit b) s)
      else Some (set_worker (W_wait b) s)
  | W_walk b base_addr end_ =>
      '(w', _, next) ← walk_iter (commands (get_buffer b s)) base_addr (world s);
      if next <? end_
      then Some (set_worker (W_walk b next end_) (set_world w' s))
      else
        let buffer := get_buffer b s in
        Some (set_worker (W_swap (Some b))
                (set_buffer b (mk_buffer (commands buffer) (size buffer) 0)
                   (set_world w' s)))
  | W_wait _ => None
  | W_exit _ => None
  end.

(** A wake-up of [cvDequeue.wait] that no notification caused. *)
Definition spurious_step (s : State) : option State :=
  match worker s with
  | W_wait b => Some (set_worker (W_swap (Some b)) s)
  | _ => None
  end.

(** The destructor: [shutdown = true], then [cvDequeue.notify_one()], then
    the join of the worker thread. *)
Definition destructor_step (s : State) : option State :=
  match destructor s with
  | D_alive => Some (set_destructor D_notify (set_shutdown true s))
  | D_notify => Some (set_destructor D_join (notify_one s))
  | D_join => None
  end.

Inductive action : Type :=
  | Producer (i : nat)
  | Worker
  | Spurious
  | Destructor.

Definition step (a : action) (s : State) : option State :=
  match a with
  | Producer i => p ← producers s !! i; producer_step i p s
  | Worker => worker_step s
  | Spurious => spurious_step s
  | Destructor => destructor_step s
  end.

Fixpoint run (schedule : list action) (s : State) : option State :=
  match schedule with
  | [] => Some s
  | a :: rest => s' ← step a s; run rest s'
  end.

(** [init(size)] with the member initialisers of the class: the arenas are
    allocated, [primary] points to [buffer[0]], [secondary] to [buffer[1]],
    and the worker thread is created.  [threads] gives each producer
    thread its program and the address of the [done] variable of its
    [join]. *)
Definition init (size_ : Z) (threads : list (list op * Z)) (w : World) : State :=
  mk_state (mk_buffer (malloc size_) size_ 0) (mk_buffer (malloc size_) size_ 0)
           (Some B0) (Some B1) false 0 W_start
           (map (fun t => mk_producer P_idle t.1 t.2 0) threads)
           D_alive w.

Definition reachable (s : State) : Prop :=
  exists size_ threads w schedule, run schedule (init size_ threads w) = Some s.

(** *** Who holds an arena *)

Definition producer_held (p : producer) : option buf_id :=
  match ppc p with
  | P_fill b _ _ | P_release b _ | P_store b _ => Some b
  | _ => None
  end.

Definition worker_held (pc : worker_pc) : option buf_id :=
  match pc with
  | W_start | W_poll => None
  | W_swap held => held
  | W_test b | W_walk b _ _ | W_wait b | W_exit b => Some b
  end.

(** The places an arena pointer can be: the two slots, the local variable
    of the worker, and the local variable of each producer. *)
Definition holders (s : State) : list (option buf_id) :=
  primary s :: secondary s :: worker_held (worker s)
    :: map producer_held (producers s).

#[global] Instance buf_id_eq_dec : EqDecision buf_id.
Proof. solve_decision. Defined.

Definition occurrences (b : buf_id) (l : list (option buf_id)) : nat :=
  length (filter (fun x => x = Some b) l).

Definition conserved (s : State) : Prop :=
  occurrences B0 (holders s) = 1%nat /\ occurrences B1 (holders s) = 1%nat.

(** What one place contributes to the occurrences of [b]. *)
Definition occ (b : buf_id) (x : option buf_id) : nat :=
  if decide (x = Some b) then 1%nat else 0%nat.

Definition count (b : buf_id) (s : State) : nat :=
  (occ b (primary s) + occ b (secondary s) + occ b (worker_held (worker s))
   + occurrences b (map producer_held (producers s)))%nat.

(** A producer between the failed exchange on [primary] and its store into
    [secondary]. *)
Definition pending (p : producer) : bool :=
  match ppc p with
  | P_store _ _ => true
  | _ => false
  end.

(** While a producer is about to store into [secondary], that slot is
    empty and no other producer is in the same position. *)
Definition pending_ok (s : State) : Prop :=
  forall i p,
    producers s !! i = Some p -> pending p = true ->
    secondary s = None /\
    forall i' p', producers s !! i' = Some p' -> pending p' = true -> i' = i.

Definition exchange_inv (s : State) : Prop := conserved s /\ pending_ok s.


(** ** Further operations and predicates *)

(** The overload of [rawExecute] selected by the number of arguments. *)
Definition rawExecute (function : Z) (args : list (list Z))
  (buffer : queue_buffer_t) : option queue_buffer_t :=
  match args with
  | [] => rawExecute_V0 function buffer
  | [v1] => rawExecute_V1 function v1 buffer
  | [v1; v2] => rawExecute_V2 function v1 v2 buffer
  | [v1; v2; v3] => rawExecute_V3 function v1 v2 v3 buffer
  | [v1; v2; v3; v4] => rawExecute_V4 function v1 v2 v3 v4 buffer
  | [v1; v2; v3; v4; v5] => rawExecute_V5 function v1 v2 v3 v4 v5 buffer
  | [v1; v2; v3; v4; v5; v6] => rawExecute_V6 function v1 v2 v3 v4 v5 v6 buffer
  | _ => None
  end.

(** The body shared by the raw operations: the values end to end from the
    start of the data section. *)
Definition enqueue_raw (function : Z) (vs : list (list Z))
  (buffer : queue_buffer_t) : option queue_buffer_t :=
  '(buffer', data) ← allocCommand buffer function (len (concat vs));
  m ← store_args (commands buffer') data vs;
  Some (with_commands buffer' m).

(** The block of an arena has [size] bytes and [used] lies within it. *)
Definition arena_ok (buffer : queue_buffer_t) : Prop :=
  len (commands buffer) = size buffer /\ 0 <= used buffer <= size buffer.

(** The operations of the producer interface, by their bodies. *)
Inductive producer_op : Type :=
  | Op_execute (stub : Z) (function : list Z) (args : list (list Z))
  | Op_returns (stub : Z) (function ret : list Z) (args : list (list Z))
  | Op_rawExecute (function : Z) (args : list (list Z))
  | Op_executeWithCopy (function : Z) (src : list Z) (size_ : Z).

Definition op_body (o : producer_op) : queue_buffer_t -> option queue_buffer_t :=
  match o with
  | Op_execute stub function args => execute stub function args
  | Op_returns stub function ret args => returns stub function ret args
  | Op_rawExecute function args => rawExecute function args
  | Op_executeWithCopy function src size_ => executeWithCopy function src size_
  end.

(** The handler of the record an operation appends, the size of the data
    section it asks for, and what the call of the record by the worker
    does when the data section is at [data]. *)
Definition op_handler (o : producer_op) : Z :=
  match o with
  | Op_execute stub _ _ | Op_returns stub _ _ _ => stub
  | Op_rawExecute function _ | Op_executeWithCopy function _ _ => function
  end.

Definition op_size (o : producer_op) : Z :=
  match o with
  | Op_execute _ _ args => psz + psz + len (concat args)
  | Op_returns _ _ ret args => psz + psz + len ret + len (concat args)
  | Op_rawExecute _ args => len (concat args)
  | Op_executeWithCopy _ _ size_ => size_
  end.

Definition op_effect (o : producer_op) (data : Z) (w : World) : World :=
  match o with
  | Op_execute _ function args => (call function args w).1
  | Op_returns stub function ret args =>
      match code stub with
      | Some (ReturnStub _ _ Tf Td _) =>
          default w (return_to Tf Td ret (call function args w))
      | _ => w
      end
  | Op_rawExecute function _ | Op_executeWithCopy function _ _ =>
      mk_world (heap w) (calls w ++ [RawCalled function data])
               (cvJoin_signals w)
  end.

(** The handler is a code address of the right kind, the callable of a
    typed operation is no larger than a pointer, and the value of the
    callable of a [returns] converts to the type of the destination. *)
Definition op_ok (o : producer_op) : Prop :=
  match o with
  | Op_execute stub function args =>
      len function <= psz /\ 0 <= stub < 256 ^ psz /\
      code stub = Some (ExecuteStub (len function) (map len args))
  | Op_returns stub function ret args =>
      len function <= psz /\ 0 <= stub < 256 ^ psz /\
      exists Tf Td,
        code stub
        = Some (ReturnStub (len function) (len ret) Tf Td (map len args)) /\
        is_Some (convert Tf Td (returned function args))
  | Op_rawExecute function _ | Op_executeWithCopy function _ _ =>
      0 <= function < 256 ^ psz /\ code function = Some RawHandler
  end.

(** A sequence of operations on one arena, as one producer makes them when
    it gets the same arena each time. *)
Fixpoint enqueue_all (ops : list producer_op) (buffer : queue_buffer_t)
  : option queue_buffer_t :=
  match ops with
  | [] => Some buffer
  | o :: rest => buffer' ← op_body o buffer; enqueue_all rest buffer'
  end.

(** The bytes the records of the operations take. *)
Definition ops_total (ops : list producer_op) : Z :=
  foldr (fun o acc => psz + 4 + op_size o + acc) 0 ops.

(** The calls of the records of the operations, in the order of the
    operations, the first record being at [base]. *)
Fixpoint effects (ops : list producer_op) (base : Z) (w : World) : World :=
  match ops with
  | [] => w
  | o :: rest =>
      effects rest (base + (psz + 4 + op_size o))
        (op_effect o (base + psz + 4) w)
  end.

(** What the worker holds at each point of [thread]: an empty arena where
    it hands one over, sleeps or exits, and a non-empty one where it
    walks. *)
Definition worker_ok (s : State) : Prop :=
  match worker s with
  | W_start => exists b, secondary s = Some b /\ used (get_buffer b s) = 0
  | W_swap held => exists b, held = Some b /\ used (get_buffer b s) = 0
  | W_wait b => used (get_buffer b s) = 0
  | W_exit b => used (get_buffer b s) = 0 /\ shutdown s = true
  | W_walk b _ end_ =>
      end_ = used (get_buffer b s) /\ used (get_buffer b s) <> 0
  | W_test _ | W_poll => True
  end.


(** ** Programs over the producer interface

    An enqueue of a program is one of the operations of the interface;
    [join] makes its own. *)
Definition body_ok (body : queue_buffer_t -> option queue_buffer_t) : Prop :=
  exists o, body = op_body o.

Definition op_wf (o : op) : Prop :=
  match o with
  | Enqueue body => body_ok body
  | Join => True
  end.

Definition producer_wf (p : producer) : Prop :=
  Forall op_wf (program p) /\
  match ppc p with
  | P_acquire body _ | P_fill _ body _ => body_ok body
  | _ => True
  end.

Definition arenas_ok (s : State) : Prop :=
  arena_ok (buffer0 s) /\ arena_ok (buffer1 s) /\
  forall i p, producers s !! i = Some p -> producer_wf p.

(** ** A queue fed by one thread

    The arena holds the records of the operations [L], enqueued one after
    the other since the arena was empty. *)
Definition holds (buffer : queue_buffer_t) (L : list producer_op) : Prop :=
  Forall op_ok L /\ ops_total L < 2 ^ 32 /\
  exists buffer0,
    arena_ok buffer0 /\ used buffer0 = 0 /\ enqueue_all L buffer0 = Some buffer.

(** The world after the worker has drained the batches one after the
    other, each from the start of an arena. *)
Definition executed (batches : list (list producer_op)) (w : World) : World :=
  fold_left (fun w batch => effects batch 0 w) batches w.

(** The program of a thread that makes the operations [ops]. *)
Definition program_of (ops : list producer_op) : list op :=
  map (fun o => Enqueue (op_body o)) ops.

Definition update (L : buf_id -> list producer_op) (b : buf_id)
  (v : list producer_op) : buf_id -> list producer_op :=
  fun b' => if decide (b' = b) then v else L b'.

Definition slot_ops (L : buf_id -> list producer_op) (slot : option buf_id)
  : list producer_op :=
  match slot with
  | Some b => L b
  | None => []
  end.

(** The operations in the arena of the worker that it has yet to call,
    when [D] are those it has called in this walk. *)
Definition worker_ops (L : buf_id -> list producer_op) (D : list producer_op)
  (pc : worker_pc) : list producer_op :=
  match pc with
  | W_test b => L b
  | W_walk b _ _ => drop (length D) (L b)
  | _ => []
  end.

(** The record that [join] enqueues for a thread whose [done] flag is at
    [done], as an operation of the interface. *)
Definition join_op (done : Z) : producer_op :=
  Op_execute join_stub_addr (le_encode ptr_size join_cb_addr)
    [le_encode ptr_size this_addr; le_encode ptr_size done].

(** An item of the program of a thread: an enqueue operation, or [None]
    for a call of [join]; the call it stands for, and the record it
    appends. *)
Definition item_program (it : option producer_op) : op :=
  match it with
  | Some o => Enqueue (op_body o)
  | None => Join
  end.

Definition item_op (done : Z) (it : option producer_op) : producer_op :=
  match it with
  | Some o => o
  | None => join_op done
  end.

Definition records (done : Z) (items : list (option producer_op))
  : list producer_op :=
  map (item_op done) items.

(** The call of the record of [o] does not write the [done] flag. *)
Definition quiet (done : Z) (o : producer_op) : Prop :=
  forall data w, heap (op_effect o data w) done = heap w done.

Definition quiet_item (done : Z) (it : option producer_op) : Prop :=
  match it with
  | Some o => quiet done o
  | None => True
  end.

(** The thread is inside [join]; the thread is inside an operation. *)
Definition joining (pc : producer_pc) : bool :=
  match pc with
  | P_idle => false
  | P_acquire _ j | P_fill _ _ j | P_release _ j | P_store _ j | P_notify j => j
  | P_wait => true
  end.

Definition busy (pc : producer_pc) : nat :=
  match pc with
  | P_idle => 0%nat
  | _ => 1%nat
  end.

(** The operations made and not yet called, in the order in which the
    worker will come to them: those in its arena, in [secondary], in
    [primary], in the arena of the producer, and the one being made. *)
Definition pending_ops (L : buf_id -> list producer_op) (D F : list producer_op)
  (s : State) (p : producer) : list producer_op :=
  worker_ops L D (worker s) ++ slot_ops L (secondary s)
    ++ slot_ops L (primary s) ++ slot_ops L (producer_held p) ++ F.

(** The walk in progress has called [D], the first operations of the
    arena, and stands at the record of the next one. *)
Definition walk_ok (L : buf_id -> list producer_op) (D : list producer_op)
  (pc : worker_pc) : Prop :=
  match pc with
  | W_walk b base_addr _ =>
      base_addr = ops_total D /\ exists o R, L b = D ++ o :: R
  | _ => D = []
  end.

(** While the thread is inside [join] and the record of that [join] has
    not been called, the record is the last one pending, no record before
    it writes the [done] flag, and the flag is false. *)
Definition fence_ok (done : Z) (j : bool) (pend : list producer_op) (w : World)
  : Prop :=
  if j
  then pend = [] \/
       exists P0, pend = P0 ++ [join_op done] /\ Forall (quiet done) P0 /\
                  heap w done = 0
  else Forall (quiet done) pend.

(** The state of a queue with one producer thread, whose program is
    [items] and whose [done] flag is at [done]: [L] gives the operations
    whose records each arena holds, [batches] the arenas the worker has
    drained, [D] the operations it has called in the walk in progress, [F]
    the operation the producer is making, and [rest] the items it has yet
    to start.  The records lie in the order in which they were made: first
    those called, then those pending. *)
Definition fifo_inv (items : list (option producer_op)) (done : Z) (w0 : World)
  (s : State) (L : buf_id -> list producer_op)
  (batches : list (list producer_op)) (D F : list producer_op)
  (rest : list (option producer_op)) (p : producer) : Prop :=
  producers s = [p] /\
  (program p = map item_program rest /\ done_addr p = done) /\
  match ppc p with
  | P_acquire body _ | P_fill _ body _ => exists o, body = op_body o /\ F = [o]
  | _ => F = []
  end /\
  (forall b, holds (get_buffer b s) (L b)) /\
  (calls (world s) = calls (effects D 0 (executed batches w0)) /\
   (Forall is_Some items -> world s = effects D 0 (executed batches w0))) /\
  walk_ok L D (worker s) /\
  records done items
  = concat batches ++ D ++ pending_ops L D F s p ++ records done rest /\
  (forall b X, producer_held p = Some b -> primary s = Some X -> L X = []) /\
  (exists made,
     items = made ++ rest /\
     length made = (completed p + busy (ppc p))%nat /\
     (busy (ppc p) = 1%nat ->
      exists made0 it,
        made = made0 ++ [it] /\ (joining (ppc p) = true <-> it = None))) /\
  (Forall (quiet_item done) items ->
   fence_ok done (joining (ppc p)) (pending_ops L D F s p) (world s) /\
   forall k, (k < completed p)%nat -> items !! k = Some None ->
             (k < length (concat batches ++ D))%nat).

Definition fifo_ok (items : list (option producer_op)) (done : Z) (w0 : World)
  (s : State) : Prop :=
  exists L batches D F rest p, fifo_inv items done w0 s L batches D F rest p.

End Model.

(** * A concrete platform and program image

    The LP64 platform (pointers of 8 bytes) and a small image, used to run
    the model on explicit inputs.  [4096] is the instance of
    [executeStubV1] for a function pointer and one [int], [4100] the one
    for a callable object of 16 bytes; [4200] is the instance of
    [returnStubV0] for such an object, [4300] the instance of
    [returnStubV2] for a function pointer and two [int], both for a
    callable that returns an [int] and a destination that points to an
    [int]; [8192] is the instance of [executeStubV2] that [join] enqueues;
    [12288] is [join_cb]; [24576] is a handler that takes the raw data
    pointer.  A user callable returns, as an [int], the sum of its
    arguments, plus, for a callable object, the number it carries after
    its first eight bytes. *)

Definition lp64 : platform := mk_platform 8.

Definition image0 : image :=
  mk_image
    (fun a =>
       if a =? 4096 then Some (ExecuteStub 8 [4])
       else if a =? 4100 then Some (ExecuteStub 16 [4])
       else if a =? 4200
       then Some (ReturnStub 16 8 (Integer true 4) (Integer true 4) [])
       else if a =? 4300
       then Some (ReturnStub 8 8 (Integer true 4) (Integer true 4) [4; 4])
       else if a =? 8192 then Some (ExecuteStub 8 [8; 8])
       else if a =? 24576 then Some RawHandler
       else None)
    (fun function args =>
       le_encode 4 (le_decode (drop 8 function)
                    + foldr (fun v acc => le_decode v + acc) 0 args))
    12288 8192 20480.

(** A second image: [4400] is the instance of [returnStubV0] for a
    function that returns a [long long] and a destination that points to
    an [int]; the function returns 2^32 + 5. *)
Definition image1 : image :=
  mk_image
    (fun a =>
       if a =? 4400
       then Some (ReturnStub 8 8 (Integer true 8) (Integer true 4) [])
       else None)
    (fun function args => le_encode 8 (2 ^ 32 + 5))
    12288 8192 20480.

Definition world0 : World := mk_world (fun _ => 0) [] 0.

(** An arena as [init] makes it for [CommandQueue(0)]. *)
Definition empty_arena : queue_buffer_t := mk_buffer (malloc 0) 0 0.

(** An arena as [init] makes it for the default constructor. *)
Definition default_arena : queue_buffer_t := mk_buffer (malloc 256) 256 0.

(** An arena that holds two records for the raw handler, the first with a
    data section of four bytes, the second with none. *)
Definition two_records : list (Z * list Z) := [(24576, [1; 2; 3; 4]); (24576, [])].

Definition filled_arena : queue_buffer_t :=
  mk_buffer (encode_records (pf := lp64) two_records ++ replicate 228 0) 256 28.

(** An arena that holds a record of [execute(f, 7)], a record for the raw
    handler and a record of [returns(f, dest, 3, 4)] with [dest = 1000]. *)
Definition mixed_records : list (Z * list Z) :=
  [(4096, le_encode 8 16384 ++ [7; 0; 0; 0]);
   (24576, [1; 2; 3; 4]);
   (4300, le_encode 8 16384 ++ le_encode 8 1000 ++ [3; 0; 0; 0] ++ [4; 0; 0; 0])].

Definition mixed_arena : queue_buffer_t :=
  mk_buffer (encode_records (pf := lp64) mixed_records ++ replicate 180 0) 256 76.

(** A callable object of 16 bytes that carries the number 5, and a
    function pointer. *)
Definition fat_callable : list Z := [1; 2; 3; 4; 5; 6; 7; 8; 5; 0; 0; 0; 0; 0; 0; 0].

Definition function_pointer : list Z := le_encode 8 16384.

(** Two producer threads on one queue.  [command n] is [execute(f, n)] for
    a user function [f] and the [int] [n]. *)
Definition command (n : Z) : op :=
  Enqueue (execute_V1 (pf := lp64) 4096 function_pointer (le_encode 4 n)).

(** Thread 0 enqueues 1 and then 3; thread 1 enqueues 2. *)
Definition two_producers : State :=
  init 256 [([command 1; command 3], 1000); ([command 2], 2000)] world0.

(** Thread 1 holds the first arena, with command 1 inside, while the
    worker puts its empty arena into [primary]; thread 0 takes that arena
    for command 3; thread 1 returns its arena to [primary] first, so
    thread 0 stores its arena into [secondary], where the worker looks
    first. *)
Definition overtaking_schedule : list action :=
  [Worker; Worker; Worker;
   Producer 0; Producer 0; Producer 0; Producer 0; Producer 0;
   Producer 1; Producer 1;
   Worker;
   Producer 0; Producer 0; Producer 0;
   Producer 1; Producer 1; Producer 1;
   Producer 0; Producer 0; Producer 0;
   Worker; Worker; Worker;
   Worker; Worker; Worker; Worker].

(** Thread 0 enqueues 1 and then calls [join]; thread 1 enqueues 2. *)
Definition two_producers_join : State :=
  init 256 [([command 1; Join], 1000); ([command 2], 2000)] world0.

(** The same interleaving, stopped when [join] has returned in thread 0. *)
Definition early_join_schedule : list action :=
  [Worker; Worker; Worker;
   Producer 0; Producer 0; Producer 0; Producer 0; Producer 0;
   Producer 1; Producer 1;
   Worker;
   Producer 0; Producer 0; Producer 0;
   Producer 1; Producer 1; Producer 1;
   Producer 0; Producer 0; Producer 0;
   Worker; Worker; Worker;
   Producer 0].

(** A producer that has taken the arena of [primary]. *)
Definition after_acquire : State :=
  (acquireBuffer_try (init 256 [] world0)).1.

(** A sequence of two operations of the producer interface: [execute(f, 1)]
    for a user function [f], and [rawExecute] of the raw handler with two
    values of two bytes and one byte. *)
Definition two_operations : list producer_op :=
  [Op_execute 4096 function_pointer [le_encode 4 1];
   Op_rawExecute 24576 [[1; 2]; [3]]].

(** The first steps of the two producers: the worker sleeps with one
    arena in hand; thread 0 has taken the other one from [primary], has
    filled it and is about to release it. *)
Definition first_steps : list action :=
  [Worker; Worker; Worker; Producer 0; Producer 0; Producer 0].

(** One producer thread that makes [two_operations] on a queue of the
    default capacity, and a run in which the worker goes to sleep, the
    thread makes both operations, and the worker drains the arena. *)
Definition one_producer : State :=
  init 256 [(program_of (pf := lp64) two_operations, 1000)] world0.

Definition drain_schedule : list action :=
  [Worker; Worker; Worker;
   Producer 0; Producer 0; Producer 0; Producer 0; Producer 0;
   Producer 0; Producer 0; Producer 0; Producer 0; Producer 0;
   Worker; Worker; Worker; Worker].

(** One producer thread that makes [execute(f, 1)] and then calls [join],
    and a run in which [join] has returned. *)
Definition join_items : list (option producer_op) :=
  [Some (Op_execute 4096 function_pointer [le_encode 4 1]); None].

Definition one_producer_join : State :=
  init 256 [(map (item_program (pf := lp64)) join_items, 1000)] world0.

Definition join_schedule : list action :=
  [Worker; Worker; Worker;
   Producer 0; Producer 0; Producer 0; Producer 0; Producer 0;
   Producer 0; Producer 0; Producer 0; Producer 0; Producer 0;
   Worker; Worker; Worker; Worker;
   Producer 0].

(** * Properties *)

Section Properties.

Context {pf : platform} {im : image}.

(** ** Lengths, scalars *)

Lemma len_nil {A} : len (@nil A) = 0.
Proof. reflexivity. Qed.

Lemma len_app {A} (l k : list A) : len (l ++ k) = len l + len k.
Proof. unfold len. rewrite length_app. lia. Qed.

Lemma len_nonneg {A} (l : list A) : 0 <= len l.
Proof. unfold len. lia. Qed.

Lemma le_encode_length w x : length (le_encode w x) = w.
Proof. revert x. induction w as [|w IH]; intros x; simpl; [done|]. by rewrite IH. Qed.

Lemma len_le_encode w x : len (le_encode w x) = Z.of_nat w.
Proof. unfold len. by rewrite le_encode_length. Qed.

Lemma le_decode_encode w x :
  0 <= x < 256 ^ Z.of_nat w -> le_decode (le_encode w x) = x.
Proof.
  revert x. induction w as [|w IH]; intros x Hx.
  - simpl in *. lia.
  - cbn [le_encode le_decode].
    rewrite Nat2Z.inj_succ, Z.pow_succ_r in Hx by lia.
    rewrite IH.
    + pose proof (Z.div_mod x 256). lia.
    + split; [apply Z.div_pos; lia|].
      apply Z.div_lt_upper_bound; lia.
Qed.

Lemma wrap32_small x : 0 <= x < 2 ^ 32 -> wrap32 x = x.
Proof. intros. unfold wrap32. by apply Z.mod_small. Qed.

Lemma wrap32_range x : 0 <= wrap32 x < 2 ^ 32.
Proof. unfold wrap32. apply Z.mod_pos_bound. lia. Qed.

(** ** Loads and stores *)

Lemma load_app pre bs post :
  load (pre ++ bs ++ post) (len pre) (len bs) = Some bs.
Proof.
  unfold load.
  pose proof (len_nonneg pre). pose proof (len_nonneg bs).
  pose proof (len_nonneg post).
  replace (0 <=? len pre) with true by (symmetry; apply Z.leb_le; lia).
  replace (0 <=? len bs) with true by (symmetry; apply Z.leb_le; lia).
  replace (len pre + len bs <=? len (pre ++ bs ++ post)) with true
    by (symmetry; apply Z.leb_le; rewrite !len_app; lia).
  simpl. f_equal. unfold len. rewrite !Nat2Z.id.
  by rewrite drop_app_length, take_app_length.
Qed.

Lemma load_app' mem pre bs post off n :
  mem = pre ++ bs ++ post -> off = len pre -> n = len bs ->
  load mem off n = Some bs.
Proof. intros -> -> ->. apply load_app. Qed.

Lemma store_app pre old bs post :
  len old = len bs ->
  store (pre ++ old ++ post) (len pre) bs = Some (pre ++ bs ++ post).
Proof.
  intros Hl. unfold store.
  pose proof (len_nonneg pre). pose proof (len_nonneg bs).
  pose proof (len_nonneg post).
  replace (0 <=? len pre) with true by (symmetry; apply Z.leb_le; lia).
  replace (len pre + len bs <=? len (pre ++ old ++ post)) with true
    by (symmetry; apply Z.leb_le; rewrite !len_app; lia).
  simpl. f_equal. unfold len in *.
  rewrite Nat2Z.id, take_app_length. f_equal. f_equal.
  replace (Z.to_nat (Z.of_nat (length pre) + Z.of_nat (length bs)))
    with (length pre + length old)%nat by lia.
  rewrite drop_app_add. by rewrite drop_app_length.
Qed.

Lemma store_Some mem off bs mem' :
  store mem off bs = Some mem' ->
  exists pre old post,
    mem = pre ++ old ++ post /\ mem' = pre ++ bs ++ post /\
    len pre = off /\ len old = len bs.
Proof.
  unfold store. intros H.
  destruct (0 <=? off) eqn:H1; [|done].
  destruct (off + len bs <=? len mem) eqn:H2; [|done].
  simpl in H. injection H as <-.
  apply Z.leb_le in H1, H2. pose proof (len_nonneg bs) as Hb.
  exists (take (Z.to_nat off) mem),
    (take (length bs) (drop (Z.to_nat off) mem)),
    (drop (Z.to_nat (off + len bs)) mem).
  unfold len in *.
  split; [|split; [done|split]].
  - rewrite <- (take_drop (Z.to_nat off) mem) at 1. f_equal.
    rewrite <- (take_drop (length bs) (drop (Z.to_nat off) mem)) at 1.
    f_equal. rewrite drop_drop. f_equal. lia.
  - rewrite length_take. lia.
  - rewrite length_take, length_drop. lia.
Qed.

Lemma store_len mem off bs mem' :
  store mem off bs = Some mem' -> len mem' = len mem.
Proof.
  intros (pre & old & post & -> & -> & _ & Hl)%store_Some.
  rewrite !len_app. lia.
Qed.

Lemma load_store_same mem off bs mem' :
  store mem off bs = Some mem' -> load mem' off (len bs) = Some bs.
Proof.
  intros (pre & old & post & -> & -> & <- & Hl)%store_Some. apply load_app.
Qed.

Lemma load_store_other mem off bs mem' a n :
  store mem off bs = Some mem' ->
  a + n <= off \/ off + len bs <= a ->
  load mem' a n = load mem a n.
Proof.
  intros Hst Hd. pose proof (store_len _ _ _ _ Hst) as Hlen.
  apply store_Some in Hst as (pre & old & post & -> & -> & <- & Hl).
  unfold load. rewrite Hlen.
  destruct ((0 <=? a) && (0 <=? n) && (a + n <=? len (pre ++ old ++ post)))
    eqn:Hb; [|done].
  apply andb_prop in Hb as [[Ha Hn]%andb_prop Hb].
  apply Z.leb_le in Ha, Hn, Hb. f_equal.
  unfold len in *. destruct Hd as [Hd|Hd].
  - rewrite !drop_app_le by lia.
    rewrite !take_app_le; [done| |]; rewrite length_drop; lia.
  - rewrite !(drop_app_ge pre) by lia.
    rewrite !(drop_app_ge _ post); [|lia..].
    do 3 f_equal. lia.
Qed.

(** ** The doubling loop *)

Lemma grow_size_no_wrap fuel used_ size_ :
  1 <= size_ -> size_ < used_ -> used_ <= 2 ^ 31 ->
  used_ <= size_ * 2 ^ Z.of_nat fuel ->
  exists k, (1 <= k <= fuel)%nat /\
    grow_size fuel used_ size_ = Some (size_ * 2 ^ Z.of_nat k) /\
    used_ <= size_ * 2 ^ Z.of_nat k /\ size_ * 2 ^ Z.of_nat (k - 1) < used_.
Proof.
  revert size_. induction fuel as [|fuel IH]; intros size_ H1 Hlt Hu Hf.
  - simpl in Hf. lia.
  - cbn [grow_size]. rewrite wrap32_small by lia.
    destruct (size_ * 2 <? used_) eqn:Hc.
    + apply Z.ltb_lt in Hc.
      destruct (IH (size_ * 2)) as (k & Hk & Hg & Hle & Hmin); [lia..| |].
      { rewrite Nat2Z.inj_succ, Z.pow_succ_r in Hf by lia. lia. }
      exists (S k). split; [lia|].
      rewrite Hg, Nat2Z.inj_succ, Z.pow_succ_r by lia.
      split; [f_equal; lia|]. split; [lia|].
      replace (S k - 1)%nat with (S (k - 1)) by lia.
      rewrite Nat2Z.inj_succ, Z.pow_succ_r by lia. lia.
    + apply Z.ltb_ge in Hc. exists 1%nat. simpl.
      split; [lia|]. split; [f_equal; lia|]. lia.
Qed.

Lemma grow_size_zero fuel used_ : 0 < used_ -> grow_size fuel used_ 0 = None.
Proof.
  intros Hu. induction fuel as [|fuel IH]; [done|].
  cbn [grow_size]. change (wrap32 (0 * 2)) with 0.
  replace (0 <? used_) with true by (symmetry; apply Z.ltb_lt; lia). done.
Qed.

Lemma grow_size_None fuel used_ size_ :
  grow_size (S fuel) used_ size_ = None ->
  wrap32 (size_ * 2 ^ Z.of_nat (S fuel)) < used_.
Proof.
  revert size_. induction fuel as [|fuel IH]; intros size_ H.
  - simpl in H. destruct (wrap32 (size_ * 2) <? used_) eqn:Hc; [|done].
    apply Z.ltb_lt in Hc. by replace (2 ^ Z.of_nat 1) with 2 by done.
  - cbn [grow_size] in H.
    destruct (wrap32 (size_ * 2) <? used_) eqn:Hc; [|done].
    apply IH in H.
    replace (wrap32 (size_ * 2 ^ Z.of_nat (S (S fuel))))
      with (wrap32 (wrap32 (size_ * 2) * 2 ^ Z.of_nat (S fuel))); [done|].
    unfold wrap32. rewrite Z.mul_mod_idemp_l by lia. f_equal.
    rewrite (Nat2Z.inj_succ (S fuel)), Z.pow_succ_r by lia. lia.
Qed.

Lemma grow_size_split n m used_ size_ :
  grow_size (n + m) used_ size_ =
  match grow_size n used_ size_ with
  | Some r => Some r
  | None => grow_size m used_ (wrap32 (size_ * 2 ^ Z.of_nat n))
  end.
Proof.
  revert size_. induction n as [|n IH]; intros size_.
  - simpl. rewrite Z.mul_1_r.
    destruct m as [|m]; [done|]. cbn [grow_size]. unfold wrap32.
    by rewrite Z.mul_mod_idemp_l by lia.
  - cbn [Nat.add grow_size].
    destruct (wrap32 (size_ * 2) <? used_); [|done].
    rewrite IH. destruct (grow_size n used_ (wrap32 (size_ * 2))); [done|].
    f_equal. unfold wrap32. rewrite Z.mul_mod_idemp_l by lia. f_equal.
    rewrite Nat2Z.inj_succ, Z.pow_succ_r by lia. lia.
Qed.

(** Thirty-two units of fuel decide the loop: a loop that has not ended
    after 32 doublings has reached capacity 0 and never ends. *)
Lemma grow_size_fuel fuel used_ size_ :
  (32 <= fuel)%nat -> grow_size fuel used_ size_ = grow_size 32 used_ size_.
Proof.
  intros Hle. replace fuel with (32 + (fuel - 32))%nat by lia.
  rewrite grow_size_split.
  destruct (grow_size 32 used_ size_) eqn:Hg; [done|].
  apply grow_size_None in Hg.
  replace (wrap32 (size_ * 2 ^ Z.of_nat 32)) with 0 in *.
  - by apply grow_size_zero.
  - unfold wrap32. symmetry. by apply Z.mod_mul.
Qed.

Lemma grow_size_Some fuel used_ size_ r :
  grow_size fuel used_ size_ = Some r -> used_ <= r.
Proof.
  revert size_. induction fuel as [|fuel IH]; intros size_ H; [done|].
  cbn [grow_size] in H.
  destruct (wrap32 (size_ * 2) <? used_) eqn:Hc; [by eapply IH|].
  injection H as <-. by apply Z.ltb_ge.
Qed.

(** ** Reservation *)

Lemma len_realloc mem n : 0 <= n -> len (realloc mem n) = n.
Proof.
  intros Hn. unfold realloc, len.
  rewrite length_app, length_take, length_replicate. lia.
Qed.

Lemma take_realloc mem n k :
  (k <= length mem)%nat -> len mem <= n ->
  take k (realloc mem n) = take k mem.
Proof.
  intros Hk Hn. unfold realloc, len in *.
  rewrite take_app_le by (rewrite length_take; lia).
  rewrite take_take. f_equal. lia.
Qed.

Lemma mem_split (mem : list Z) a n :
  0 <= a -> 0 <= n -> a + n <= len mem ->
  exists old post,
    mem = take (Z.to_nat a) mem ++ old ++ post /\ len old = n.
Proof.
  intros Ha Hn Hle.
  exists (take (Z.to_nat n) (drop (Z.to_nat a) mem)),
    (drop (Z.to_nat n) (drop (Z.to_nat a) mem)).
  rewrite !take_drop. split; [done|].
  unfold len in *. rewrite length_take, length_drop. lia.
Qed.

(** Two stores that follow each other in memory. *)
Lemma store_header mem base function reserved :
  0 <= base -> base + psz + 4 <= len mem ->
  exists post : list Z,
    (mem1 ← store_ptr mem base function; store_u32 mem1 (base + psz) reserved)
    = Some (take (Z.to_nat base) mem ++ le_encode ptr_size function
              ++ le_encode 4 reserved ++ post)
    /\ len post = len mem - base - psz - 4.
Proof.
  intros Hb Hle. unfold psz in *.
  destruct (mem_split mem base (Z.of_nat ptr_size + 4)) as (old & post & Hm & Hold);
    [lia..|].
  set (pre := take (Z.to_nat base) mem) in *.
  assert (Hpre : len pre = base).
  { unfold pre, len in *. rewrite length_take. lia. }
  destruct (mem_split old 0 (Z.of_nat ptr_size)) as (o2 & o3 & Ho & Ho2); [lia..|].
  simpl in Ho. exists post. split.
  - unfold store_ptr, store_u32. rewrite Hm, Ho, <- Hpre.
    assert (len o3 = 4) by (rewrite Ho, len_app in Hold; lia).
    rewrite <- (app_assoc o2 o3 post).
    rewrite store_app by (by rewrite len_le_encode).
    cbn [mbind option_bind].
    rewrite (app_assoc pre (le_encode ptr_size function)).
    replace (len pre + Z.of_nat ptr_size)
      with (len (pre ++ le_encode ptr_size function))
      by (rewrite len_app, len_le_encode; lia).
    rewrite store_app by (by rewrite len_le_encode).
    by rewrite <- app_assoc.
  - apply (f_equal len) in Hm. rewrite !len_app in Hm. lia.
Qed.

Lemma allocCommand_spec buffer function size_ :
  len (commands buffer) = size buffer ->
  0 <= used buffer <= size buffer ->
  1 <= size buffer ->
  0 <= size_ ->
  used buffer + (psz + 4 + size_) <= 2 ^ 31 ->
  exists (k : nat) (post : list Z),
    allocCommand buffer function size_ =
      Some (mk_buffer
              (take (Z.to_nat (used buffer)) (commands buffer)
                 ++ le_encode ptr_size function
                 ++ le_encode 4 (psz + 4 + size_) ++ post)
              (size buffer * 2 ^ Z.of_nat k)
              (used buffer + (psz + 4 + size_)),
            used buffer + psz + 4)
    /\ len post = size buffer * 2 ^ Z.of_nat k - used buffer - psz - 4
    /\ used buffer + (psz + 4 + size_) <= size buffer * 2 ^ Z.of_nat k
    /\ (k = 0%nat \/
        size buffer * 2 ^ Z.of_nat (k - 1) < used buffer + (psz + 4 + size_)).
Proof.
  intros Hlen Hused Hsize Hn Hsum.
  assert (Hp : 0 <= psz) by (unfold psz; lia).
  unfold allocCommand.
  rewrite (wrap32_small (psz + 4 + size_)) by lia.
  rewrite wrap32_small by lia.
  destruct (size buffer <? used buffer + (psz + 4 + size_)) eqn:Hc.
  - apply Z.ltb_lt in Hc.
    destruct (grow_size_no_wrap 32 (used buffer + (psz + 4 + size_)) (size buffer))
      as (k & Hk & Hg & Hle & Hmin); [lia..| |].
    { change (2 ^ Z.of_nat 32) with 4294967296. lia. }
    rewrite Hg. cbn [fmap option_fmap option_map mbind option_bind fst snd].
    assert (Hge : size buffer <= size buffer * 2 ^ Z.of_nat k).
    { assert (1 <= 2 ^ Z.of_nat k) by (apply Z.pow_le_mono_r with (b := 0); lia). nia. }
    destruct (store_header (realloc (commands buffer) (size buffer * 2 ^ Z.of_nat k))
                (used buffer) function (psz + 4 + size_)) as (post & Hst & Hpost);
      [lia|rewrite len_realloc; lia|].
    exists k, post.
    rewrite len_realloc in Hpost by lia.
    rewrite take_realloc in Hst by (unfold len in *; lia).
    destruct (store_ptr _ _ _) as [mem1|]; [|done].
    cbn [mbind option_bind] in *. rewrite Hst.
    cbn [mbind option_bind]. auto with lia.
  - apply Z.ltb_ge in Hc.
    cbn [fmap option_fmap option_map mbind option_bind fst snd].
    destruct (store_header (commands buffer) (used buffer) function
                (psz + 4 + size_)) as (post & Hst & Hpost); [lia..|].
    exists 0%nat, post. change (2 ^ Z.of_nat 0) with 1. rewrite Z.mul_1_r.
    destruct (store_ptr _ _ _) as [mem1|]; [|done].
    cbn [mbind option_bind] in *. rewrite Hst.
    cbn [mbind option_bind]. split; [done|]. split; [lia|]. auto with lia.
Qed.

Lemma allocCommand_size buffer function size_ buffer' data :
  allocCommand buffer function size_ = Some (buffer', data) ->
  size buffer <= size buffer'.
Proof.
  unfold allocCommand. intros H.
  destruct (size buffer <? _) eqn:Hc.
  - destruct (grow_size 32 _ _) as [sz|] eqn:Hg; [|done].
    apply grow_size_Some in Hg. apply Z.ltb_lt in Hc.
    cbn [fmap option_fmap option_map mbind option_bind fst snd] in H.
    destruct (store_ptr _ _ _); [|done]. cbn [mbind option_bind] in H.
    destruct (store_u32 _ _ _); [|done]. cbn [mbind option_bind] in H.
    injection H as <- _. simpl. lia.
  - cbn [fmap option_fmap option_map mbind option_bind fst snd] in H.
    destruct (store_ptr _ _ _); [|done]. cbn [mbind option_bind] in H.
    destruct (store_u32 _ _ _); [|done]. cbn [mbind option_bind] in H.
    injection H as <- _. simpl. lia.
Qed.

(** The length slot that a reservation writes. *)
Lemma allocCommand_length_slot buffer function size_ buffer' data :
  0 <= size_ -> psz + 4 + size_ < 2 ^ 32 ->
  allocCommand buffer function size_ = Some (buffer', data) ->
  load_u32 (commands buffer') (used buffer + psz) = Some (psz + 4 + size_).
Proof.
  intros Hn Hfit. unfold allocCommand.
  assert (Hp : 0 <= psz) by (unfold psz; lia).
  rewrite (wrap32_small (psz + 4 + size_)) by lia.
  intros H.
  destruct (if size buffer <? _ then _ else _) as [grown|]; [|done].
  cbn [mbind option_bind] in H.
  destruct (store_ptr _ _ _) as [mem1|]; [|done]. cbn [mbind option_bind] in H.
  destruct (store_u32 _ _ _) as [mem2|] eqn:Hst; [|done].
  cbn [mbind option_bind] in H. injection H as <- _. cbn [commands].
  unfold store_u32 in Hst. apply load_store_same in Hst.
  rewrite len_le_encode in Hst. unfold load_u32.
  change (Z.of_nat 4) with 4 in Hst. rewrite Hst.
  cbn [fmap option_fmap option_map]. rewrite le_decode_encode; [done|].
  change (256 ^ Z.of_nat 4) with (2 ^ 32). lia.
Qed.

Lemma walk_buffer fuel buffer w buffer' w' its :
  walk fuel buffer w = Some (buffer', w', its) ->
  size buffer' = size buffer /\ commands buffer' = commands buffer /\
  used buffer' = 0.
Proof.
  unfold walk. intros H.
  destruct (walk_loop _ _ _ _ _) as [[w1 its1]|]; [|done].
  cbn in H. by injection H as <- _ _.
Qed.

(** ** Growth of the capacity *)

(** C10 (growth-loop termination).  For a capacity of at least 1 and a new
    value of [used] of at most 2^31 that exceeds the capacity (the case in
    which [allocCommand] enters the loop), the doubling loop ends within 32
    iterations, more fuel does not change its result, and it leaves
    [used <= size].  The capacity must be positive: from capacity 0, which
    [init] accepts, the loop never ends, whatever the fuel. *)
Theorem doubling_loop_terminates (used_ size_ : Z) :
  1 <= size_ -> size_ < used_ -> used_ <= 2 ^ 31 ->
  (exists size',
     grow_size 32 used_ size_ = Some size' /\ used_ <= size' /\
     forall fuel, (32 <= fuel)%nat -> grow_size fuel used_ size_ = Some size')
  /\ (forall fuel, grow_size fuel used_ 0 = None)
  /\ (forall threads w,
        size (buffer0 (init 0 threads w)) = 0 /\
        size (buffer1 (init 0 threads w)) = 0).
Proof.
  intros H1 Hlt Hu. split; [|split].
  - destruct (grow_size_no_wrap 32 used_ size_) as (k & _ & Hg & Hle & _);
      [lia..| |].
    { change (2 ^ Z.of_nat 32) with 4294967296. lia. }
    eexists. split; [exact Hg|]. split; [done|].
    intros fuel Hf. by rewrite grow_size_fuel.
  - intros fuel. apply grow_size_zero. lia.
  - done.
Qed.

Lemma reserve_all_spec requests : forall buffer,
  len (commands buffer) = size buffer ->
  0 <= used buffer <= size buffer ->
  1 <= size buffer ->
  Forall (fun request => 0 <= request.2) requests ->
  used buffer + reserved_total requests <= 2 ^ 31 ->
  exists buffer' (k : nat),
    reserve_all requests buffer = Some buffer' /\
    used buffer' = used buffer + reserved_total requests /\
    size buffer' = size buffer * 2 ^ Z.of_nat k /\
    used buffer' <= size buffer' /\
    (k = 0%nat \/ size buffer * 2 ^ Z.of_nat (k - 1) < used buffer').
Proof.
  assert (Hp : 0 <= psz) by (unfold psz; lia).
  induction requests as [|[function size_] rest IH];
    intros buffer Hlen Hused Hsize Hpos Hsum.
  - exists buffer, 0%nat. cbn [reserve_all reserved_total foldr].
    change (2 ^ Z.of_nat 0) with 1. split; [done|]. lia.
  - apply Forall_cons in Hpos as [Hn Hpos]. cbn [fst snd] in Hn.
    cbn [reserved_total foldr fst snd] in Hsum.
    fold (reserved_total rest) in Hsum.
    assert (Hrest : 0 <= reserved_total rest).
    { clear -Hpos Hp. induction Hpos as [|r l Hr _ IHl]; cbn; [lia|].
      fold (reserved_total l). lia. }
    destruct (allocCommand_spec buffer function size_)
      as (k1 & post & Ha & Hpost & Hle1 & Hmin1); [lia..|].
    assert (H2k : 1 <= 2 ^ Z.of_nat k1)
      by (apply Z.pow_le_mono_r with (b := 0); lia).
    cbn [reserve_all fst snd]. rewrite Ha. cbn [mbind option_bind].
    match goal with |- context [reserve_all rest ?b] => set (buffer1 := b) end.
    destruct (IH buffer1) as (buffer' & k2 & Hr & Hu' & Hs' & Hle' & Hmin');
      subst buffer1; cbn [commands size used]; [| nia | nia | done | lia |].
    { rewrite !len_app, !len_le_encode. unfold len at 1.
      rewrite length_take. unfold len in Hlen. fold psz. lia. }
    cbn [commands size used] in *.
    exists buffer', (k1 + k2)%nat. split; [done|].
    cbn [reserved_total foldr fst snd]. fold (reserved_total rest).
    split; [lia|]. split.
    { rewrite Hs', Nat2Z.inj_add, Z.pow_add_r by lia. lia. }
    split; [done|].
    destruct Hmin' as [->|Hmin'].
    + rewrite Nat.add_0_r. destruct Hmin1 as [->|Hmin1]; [by left|].
      right. eapply Z.lt_le_trans; [exact Hmin1|lia].
    + right. destruct k2 as [|k2].
      { exfalso. cbn [Nat.sub] in Hmin'. rewrite Hs' in Hle'. lia. }
      replace (k1 + S k2 - 1)%nat with (k1 + (S k2 - 1))%nat by lia.
      rewrite Nat2Z.inj_add, Z.pow_add_r by lia. lia.
Qed.

(** C8 (buffer growth policy), amended.  From an arena of capacity at
    least 1, a sequence of reservations whose total stays within 2^31
    returns, each data size being added to [used] with its header; the
    capacity it leaves is the initial capacity times a power of two, is at
    least [used], and was doubled no more often than needed.  Whenever
    [allocCommand] returns the capacity has not decreased, and the walk,
    which resets [used], keeps the capacity. *)
Theorem reservation_growth (requests : list (Z * Z)) (buffer : queue_buffer_t) :
  len (commands buffer) = size buffer ->
  0 <= used buffer <= size buffer ->
  1 <= size buffer ->
  Forall (fun request => 0 <= request.2) requests ->
  used buffer + reserved_total requests <= 2 ^ 31 ->
  (exists buffer' (k : nat),
     reserve_all requests buffer = Some buffer' /\
     used buffer' = used buffer + reserved_total requests /\
     size buffer' = size buffer * 2 ^ Z.of_nat k /\
     used buffer' <= size buffer' /\
     (k = 0%nat \/ size buffer * 2 ^ Z.of_nat (k - 1) < used buffer'))
  /\ (forall b function size_ b' data,
        allocCommand b function size_ = Some (b', data) -> size b <= size b')
  /\ (forall fuel b w b' w' its,
        walk fuel b w = Some (b', w', its) -> size b' = size b).
Proof.
  intros Hlen Hused Hsize Hpos Hsum. split; [|split].
  - by apply reserve_all_spec.
  - intros b function size_ b' data. apply allocCommand_size.
  - intros fuel b w b' w' its H. by apply walk_buffer in H as [? _].
Qed.


(** ** The stubs *)

Ltac destruct_binds :=
  repeat match goal with
  | |- context [mbind _ ?x] =>
      lazymatch x with
      | Some _ => cbn [mbind option_bind]
      | None => cbn [mbind option_bind]
      | _ => destruct x as [?|]; cbn [mbind option_bind]
      end
  end.

Lemma executeStub_packed TCB Ts mem data w :
  (length Ts <= 6)%nat ->
  executeStub TCB Ts mem data w
  = (function ← load mem data TCB;
     vs ← load_args mem (data + psz) Ts;
     Some (call function vs w).1).
Proof.
  intros Hn.
  do 7 (destruct Ts as [|? Ts];
        [cbn [executeStub load_args];
         unfold executeStubV0, executeStubV1, executeStubV2, executeStubV3,
           executeStubV4, executeStubV5, executeStubV6;
         destruct_binds; done|]).
  cbn [length] in Hn. lia.
Qed.

Lemma returnStub_packed TCB R Tf Td Ts mem data w :
  (length Ts <= 6)%nat ->
  returnStub TCB R Tf Td Ts mem data w
  = (function ← load mem data TCB;
     vs ← load_args mem (data + psz + R) Ts;
     ret ← load mem (data + psz) R;
     return_to Tf Td ret (call function vs w)).
Proof.
  intros Hn.
  do 7 (destruct Ts as [|? Ts];
        [cbn [returnStub load_args];
         unfold returnStubV0, returnStubV1, returnStubV2, returnStubV3,
           returnStubV4, returnStubV5, returnStubV6;
         destruct_binds; done|]).
  cbn [length] in Hn. lia.
Qed.

Lemma call_returned function args w :
  (call function args w).2 = returned function args.
Proof. unfold call, returned. by destruct (decide _). Qed.



(** ** The walk *)

Lemma len_encode_record r : len (encode_record r) = psz + 4 + len r.2.
Proof.
  unfold encode_record. rewrite !len_app, !len_le_encode. unfold psz. lia.
Qed.

Lemma encode_records_cons r rs :
  encode_records (r :: rs) = encode_record r ++ encode_records rs.
Proof. reflexivity. Qed.

Lemma walk_iter_at pre handler length_ rest w w' :
  0 <= handler < 256 ^ psz -> 0 <= length_ < 2 ^ 32 ->
  let mem := pre ++ le_encode ptr_size handler ++ le_encode 4 length_ ++ rest in
  invoke handler (len pre + psz + 4) mem w = Some w' ->
  walk_iter mem (len pre) w = Some (w', handler, len pre + length_).
Proof.
  intros Hh Hl mem Hw. subst mem.
  unfold walk_iter, load_ptr, load_u32.
  rewrite (load_app' _ pre (le_encode ptr_size handler)
             (le_encode 4 length_ ++ rest) (len pre) psz);
    [|done|done|by rewrite len_le_encode].
  cbn [fmap option_fmap option_map mbind option_bind].
  rewrite le_decode_encode by done. rewrite Hw.
  cbn [mbind option_bind].
  rewrite (load_app' _ (pre ++ le_encode ptr_size handler)
             (le_encode 4 length_) rest (len pre + psz) 4);
    [|by rewrite <- app_assoc|by rewrite len_app, len_le_encode
     |by rewrite len_le_encode].
  cbn [fmap option_fmap option_map mbind option_bind].
  by rewrite le_decode_encode.
Qed.

Lemma load_split (mem : list Z) off n bs :
  load mem off n = Some bs ->
  exists pre post, mem = pre ++ bs ++ post /\ len pre = off /\ len bs = n.
Proof.
  unfold load. intros H.
  destruct ((0 <=? off) && (0 <=? n) && (off + n <=? len mem)) eqn:Hb; [|done].
  injection H as <-.
  apply andb_prop in Hb as [[H1 H2]%andb_prop H3].
  apply Z.leb_le in H1, H2, H3.
  exists (take (Z.to_nat off) mem),
    (drop (Z.to_nat n) (drop (Z.to_nat off) mem)).
  rewrite !take_drop. split; [done|]. unfold len in *.
  rewrite !length_take, length_drop. lia.
Qed.

Lemma load_shift (pre bs post : list Z) off n v :
  load bs off n = Some v ->
  load (pre ++ bs ++ post) (len pre + off) n = Some v.
Proof.
  intros H. apply load_split in H as (p1 & p2 & -> & <- & <-).
  apply (load_app' _ (pre ++ p1) v (p2 ++ post)).
  - by rewrite <- !app_assoc.
  - by rewrite len_app.
  - done.
Qed.

Lemma load_args_shift (pre bs post : list Z) Ts : forall off vs,
  load_args bs off Ts = Some vs ->
  load_args (pre ++ bs ++ post) (len pre + off) Ts = Some vs.
Proof.
  induction Ts as [|T Ts IH]; intros off vs H; [done|].
  cbn [load_args] in *.
  destruct (load bs off T) as [v|] eqn:Hv; [|done].
  cbn [mbind option_bind] in H.
  destruct (load_args bs (off + T) Ts) as [vs'|] eqn:Hvs; [|done].
  cbn [mbind option_bind] in H. injection H as <-.
  rewrite (load_shift _ _ _ _ _ _ Hv). cbn [mbind option_bind].
  replace (len pre + off + T) with (len pre + (off + T)) by lia.
  by rewrite (IH _ _ Hvs).
Qed.

Lemma calls_call function args w :
  calls (call function args w).1 = calls w ++ user_call function args.
Proof.
  unfold call, user_call.
  destruct (decide (function = le_encode ptr_size join_cb_addr)); [|done].
  cbn [fst]. rewrite app_nil_r. unfold join_cb.
  by destruct args as [|? [|? [|? ?]]].
Qed.

(** The call of the handler of a record that lies in a block returns,
    and the world records its calls. *)
Lemma invoke_record pre r post w :
  record_fits r ->
  exists w',
    invoke r.1 (len pre + psz + 4) (pre ++ encode_record r ++ post) w = Some w' /\
    calls w' = calls w ++ record_calls (len pre) r.
Proof.
  intros Hfit.
  assert (Hp : 0 <= psz) by (unfold psz; lia).
  set (head := pre ++ le_encode ptr_size r.1
                 ++ le_encode 4 (psz + 4 + len r.2)).
  assert (Hmem : pre ++ encode_record r ++ post = head ++ r.2 ++ post).
  { unfold head, encode_record. by rewrite <- !app_assoc. }
  assert (Hhead : len pre + psz + 4 = len head).
  { unfold head. rewrite !len_app, !len_le_encode. unfold psz. lia. }
  rewrite Hmem, Hhead.
  unfold record_fits in Hfit. unfold invoke, record_calls.
  destruct (code r.1) as [[TCB Ts|TCB R Tf Td Ts|]|]; [| | |done].
  - destruct Hfit as (Hn & [f Hf] & [vs Hvs]).
    rewrite executeStub_packed by done. rewrite Hf, Hvs.
    pose proof (load_shift head r.2 post _ _ _ Hf) as Hf'.
    rewrite Z.add_0_r in Hf'. rewrite Hf'. cbn [mbind option_bind].
    rewrite (load_args_shift head r.2 post _ _ _ Hvs). cbn [mbind option_bind].
    eexists. split; [done|]. apply calls_call.
  - destruct Hfit as (Hn & f & vs & Hf & Hvs & [ret Hret] & [v Hv]).
    rewrite returnStub_packed by done. rewrite Hf, Hvs.
    pose proof (load_shift head r.2 post _ _ _ Hf) as Hf'.
    rewrite Z.add_0_r in Hf'. rewrite Hf'. cbn [mbind option_bind].
    replace (len head + psz + R) with (len head + (psz + R)) by lia.
    rewrite (load_args_shift head r.2 post _ _ _ Hvs). cbn [mbind option_bind].
    rewrite (load_shift head r.2 post _ _ _ Hret). cbn [mbind option_bind].
    unfold return_to. rewrite call_returned, Hv. cbn [mbind option_bind].
    eexists. split; [done|]. cbn [calls]. apply calls_call.
  - eexists. split; [done|]. cbn [calls]. by rewrite <- Hhead.
Qed.

Lemma walk_iter_record pre r post w :
  record_ok r -> record_fits r ->
  exists w',
    invoke r.1 (len pre + psz + 4) (pre ++ encode_record r ++ post) w = Some w' /\
    calls w' = calls w ++ record_calls (len pre) r /\
    walk_iter (pre ++ encode_record r ++ post) (len pre) w
      = Some (w', r.1, len pre + (psz + 4 + len r.2)).
Proof.
  intros [Hh Hl] Hfit.
  assert (Hp : 0 <= psz) by (unfold psz; lia).
  pose proof (len_nonneg r.2) as Hr.
  destruct (invoke_record pre r post w Hfit) as (w' & Hw & Hc).
  exists w'. split; [done|]. split; [done|].
  unfold encode_record in *. rewrite <- !app_assoc in *.
  apply walk_iter_at; [done|lia|done].
Qed.

Lemma len_encode_records_pos r rs : 0 < len (encode_records (r :: rs)).
Proof.
  rewrite encode_records_cons, len_app, len_encode_record.
  pose proof (len_nonneg r.2). pose proof (len_nonneg (encode_records rs)).
  unfold psz. lia.
Qed.

Lemma walk_loop_records rs : forall pre post w,
  rs <> [] ->
  Forall record_ok rs -> Forall record_fits rs ->
  let mem := pre ++ encode_records rs ++ post in
  exists w',
    walk_loop (length rs) mem (len pre + len (encode_records rs)) (len pre) w
      = Some (w', record_iterations (len pre) rs) /\
    invoke_all (record_iterations (len pre) rs) mem w = Some w' /\
    calls w' = calls w ++ records_calls (len pre) rs /\
    forall fuel, (fuel < length rs)%nat ->
      walk_loop fuel mem (len pre + len (encode_records rs)) (len pre) w = None.
Proof.
  induction rs as [|r rest IH]; intros pre post w Hne Hok Hret mem; [done|].
  apply Forall_cons in Hok as [Hok Hoks].
  apply Forall_cons in Hret as [Hret Hrets].
  subst mem. rewrite encode_records_cons, <- app_assoc.
  destruct (walk_iter_record pre r (encode_records rest ++ post) w Hok Hret)
    as (w1 & Hinv & Hc1 & Hit).
  cbn [walk_loop length record_iterations invoke_all records_calls fst snd].
  rewrite Hit, Hinv. cbn [mbind option_bind].
  rewrite len_app, len_encode_record.
  destruct rest as [|r' rest'].
  - change (encode_records []) with (@nil Z). rewrite len_nil.
    replace (len pre + (psz + 4 + len r.2) <? len pre + (psz + 4 + len r.2 + 0))
      with false by (symmetry; apply Z.ltb_ge; lia).
    exists w1. split; [done|]. split; [done|].
    split; [cbn [records_calls]; by rewrite app_nil_r|].
    intros fuel Hf. by replace fuel with 0%nat by (simpl in Hf; lia).
  - pose proof (len_encode_records_pos r' rest') as Hpos.
    replace (len pre + (psz + 4 + len r.2)
             <? len pre + (psz + 4 + len r.2 + len (encode_records (r' :: rest'))))
      with true by (symmetry; apply Z.ltb_lt; lia).
    destruct (IH (pre ++ encode_record r) post w1)
      as (w' & Hw & Hall & Hc & Hfuel); [done..|].
    rewrite len_app, len_encode_record, <- !app_assoc in *.
    replace (len pre + (psz + 4 + len r.2 + len (encode_records (r' :: rest'))))
      with (len pre + (psz + 4 + len r.2) + len (encode_records (r' :: rest')))
      by lia.
    rewrite Hw. cbn [mbind option_bind]. exists w'.
    split; [done|]. split; [done|].
    split; [by rewrite Hc, Hc1, <- app_assoc|].
    intros [|fuel] Hf; [done|]. cbn [walk_loop].
    rewrite Hit. cbn [mbind option_bind].
    replace (len pre + (psz + 4 + len r.2)
             <? len pre + (psz + 4 + len r.2) + len (encode_records (r' :: rest')))
      with true by (symmetry; apply Z.ltb_lt; lia).
    rewrite Hfuel by (cbn [length] in *; lia). done.
Qed.

Lemma record_offsets_lower base rs :
  Forall (fun x => base <= x) (record_offsets base rs).
Proof.
  revert base. induction rs as [|r rest IH]; intros base; [constructor|].
  cbn [record_offsets]. constructor; [lia|].
  eapply Forall_impl; [apply IH|]. intros x Hx. cbn in Hx.
  pose proof (len_nonneg r.2). unfold psz in *. lia.
Qed.

Lemma record_offsets_sorted base rs :
  StronglySorted Z.lt
    (record_offsets base rs ++ [base + len (encode_records rs)]).
Proof.
  revert base. induction rs as [|r rest IH]; intros base.
  - cbn. repeat constructor.
  - cbn [record_offsets app]. rewrite encode_records_cons, len_app,
      len_encode_record.
    pose proof (len_nonneg r.2) as Hr.
    pose proof (len_nonneg (encode_records rest)) as Hrest.
    constructor.
    + replace (base + (psz + 4 + len r.2 + len (encode_records rest)))
        with (base + (psz + 4 + len r.2) + len (encode_records rest)) by lia.
      apply IH.
    + apply Forall_app. split.
      * eapply Forall_impl; [apply record_offsets_lower|].
        intros x Hx. cbn in Hx. unfold psz in *. lia.
      * constructor; [|constructor]. unfold psz in *. lia.
Qed.

Lemma record_iterations_offsets base rs :
  map (fun it => it.1.1) (record_iterations base rs) = record_offsets base rs.
Proof.
  revert base. induction rs as [|r rest IH]; intros base; [done|].
  cbn [record_iterations record_offsets map fst]. by rewrite IH.
Qed.

Lemma record_iterations_data base rs :
  map (fun it => it.2 - it.1.1) (record_iterations base rs)
  = map (fun _ => psz + 4) rs.
Proof.
  revert base. induction rs as [|r rest IH]; intros base; [done|].
  cbn [record_iterations map fst snd]. rewrite IH. f_equal. lia.
Qed.

Lemma record_iterations_length base rs :
  length (record_iterations base rs) = length rs.
Proof.
  revert base. induction rs as [|r rest IH]; intros base; [done|].
  cbn [record_iterations length]. by rewrite IH.
Qed.

(** C5 (worker arena walk).  On an arena with [used > 0] whose first [used]
    bytes are the records [rs], each with a handler that finds what it
    reads in the data section of its record (a stub of [execute] or of
    [returns], or a handler of the user), the walk starts at offset 0 and
    makes one iteration per record, in order: it calls the handler of the
    record, once, with the address of its data section (the record offset
    plus the pointer size plus 4) and advances by the length slot; the
    calls reach the world in the order of the records; it ends after the
    last record, sets [used] to 0 and leaves the capacity and the block as
    they were. *)
Theorem worker_walk (rs : list (Z * list Z)) (buffer : queue_buffer_t)
  (post : list Z) (w : World) :
  0 < used buffer ->
  commands buffer = encode_records rs ++ post ->
  used buffer = len (encode_records rs) ->
  Forall record_ok rs ->
  Forall record_fits rs ->
  exists w',
    walk (length rs) buffer w
      = Some (mk_buffer (commands buffer) (size buffer) 0, w',
              record_iterations 0 rs) /\
    invoke_all (record_iterations 0 rs) (commands buffer) w = Some w' /\
    calls w' = calls w ++ records_calls 0 rs /\
    map (fun it => it.1.1) (record_iterations 0 rs) = record_offsets 0 rs /\
    map (fun it => it.2 - it.1.1) (record_iterations 0 rs)
      = map (fun _ => psz + 4) rs.
Proof.
  intros Hpos Hmem Hused Hok Hret.
  assert (Hne : rs <> []).
  { intros ->. rewrite Hused in Hpos. by cbn in Hpos. }
  destruct (walk_loop_records rs [] post w Hne Hok Hret)
    as (w' & Hw & Hall & Hc & _).
  cbn [app] in Hw, Hall. rewrite len_nil in Hw, Hall, Hc.
  exists w'. unfold walk. rewrite Hmem, Hused, Hw.
  cbn [mbind option_bind]. split; [done|]. split; [done|]. split; [done|].
  split; [apply record_iterations_offsets|apply record_iterations_data].
Qed.

(** C9 (walk termination).  On an arena whose first [used] bytes are
    records, each with a length slot of at least the size of the two
    header slots and a handler that finds what it reads in the data
    section of its record, the walk ends: it returns with as many units
    of fuel as there are records and with no fewer, its cursors are the
    offsets of the records, and these, followed by [used], increase
    strictly.  And [allocCommand] writes such a length slot: on an arena
    of capacity at least 1 whose [used] stays within 2^31 it returns, and
    the length slot of the record it has appended holds the size of the
    two header slots plus the size of the data section. *)
Theorem walk_terminates (rs : list (Z * list Z)) (buffer : queue_buffer_t)
  (post : list Z) (w : World) :
  0 < used buffer ->
  commands buffer = encode_records rs ++ post ->
  used buffer = len (encode_records rs) ->
  Forall record_ok rs ->
  Forall record_fits rs ->
  exists buffer' w' its,
    walk (length rs) buffer w = Some (buffer', w', its) /\
    (forall fuel, (fuel < length rs)%nat -> walk fuel buffer w = None) /\
    length its = length rs /\
    StronglySorted Z.lt (map (fun it => it.1.1) its ++ [used buffer]) /\
    (forall b function size_,
       len (commands b) = size b ->
       0 <= used b <= size b ->
       1 <= size b ->
       0 <= size_ ->
       used b + (psz + 4 + size_) <= 2 ^ 31 ->
       exists b' data,
         allocCommand b function size_ = Some (b', data) /\
         load_u32 (commands b') (used b + psz) = Some (psz + 4 + size_) /\
         psz + 4 <= psz + 4 + size_).
Proof.
  intros Hpos Hmem Hused Hok Hret.
  assert (Hne : rs <> []).
  { intros ->. rewrite Hused in Hpos. by cbn in Hpos. }
  destruct (walk_loop_records rs [] post w Hne Hok Hret)
    as (w' & Hw & _ & _ & Hfuel).
  cbn [app] in Hw, Hfuel. rewrite len_nil in Hw, Hfuel.
  exists (mk_buffer (commands buffer) (size buffer) 0), w', (record_iterations 0 rs).
  unfold walk. rewrite Hmem, Hused, Hw. cbn [mbind option_bind].
  split; [done|]. split.
  { intros fuel Hf. by rewrite Hfuel. }
  split; [apply record_iterations_length|]. split.
  - rewrite record_iterations_offsets.
    pose proof (record_offsets_sorted 0 rs) as Hs. by rewrite Z.add_0_l in Hs.
  - intros b function size_ Hlen Hu Hsize Hs Hsum.
    destruct (allocCommand_spec b function size_ Hlen Hu Hsize Hs Hsum)
      as (k & tail & Ha & _).
    eexists _, _. split; [exact Ha|]. split; [|lia].
    apply (allocCommand_length_slot _ _ _ _ _ Hs) in Ha; [done|lia].
Qed.


(** ** The typed operations and their stubs *)

Lemma execute_packed stub function args buffer :
  (length args <= 6)%nat ->
  execute stub function args buffer = enqueue_packed stub function args buffer.
Proof.
  intros Hn. unfold enqueue_packed.
  do 7 (destruct args as [|? args];
        [cbn [execute fold_left];
         unfold execute_V0, execute_V1, execute_V2, execute_V3, execute_V4,
           execute_V5, execute_V6;
         destruct (allocCommand _ _ _) as [[buffer' data]|];
           cbn [mbind option_bind store_args]; [|done];
         destruct_binds; done|]).
  cbn [length] in Hn. lia.
Qed.

Lemma returns_packed stub function ret args buffer :
  (length args <= 6)%nat ->
  returns stub function ret args buffer
  = enqueue_packed stub function (ret :: args) buffer.
Proof.
  intros Hn. unfold enqueue_packed.
  do 7 (destruct args as [|? args];
        [cbn [returns fold_left];
         unfold returns_V0, returns_V1, returns_V2, returns_V3, returns_V4,
           returns_V5, returns_V6;
         destruct (allocCommand _ _ _) as [[buffer' data]|];
           cbn [mbind option_bind store_args]; [|done];
         destruct_binds; done|]).
  cbn [length] in Hn. lia.
Qed.

Lemma store_at pre post bs :
  len bs <= len post ->
  store (pre ++ post) (len pre) bs = Some (pre ++ bs ++ drop (length bs) post).
Proof.
  intros Hle. rewrite <- (take_drop (length bs) post) at 1.
  apply store_app. unfold len in *. rewrite length_take. lia.
Qed.

Lemma store_args_at vs : forall pre post,
  len (concat vs) <= len post ->
  store_args (pre ++ post) (len pre) vs
  = Some (pre ++ concat vs ++ drop (length (concat vs)) post).
Proof.
  induction vs as [|v rest IH]; intros pre post Hle.
  - by rewrite drop_0.
  - cbn [store_args concat] in *. rewrite len_app in Hle.
    pose proof (len_nonneg (concat rest)). pose proof (len_nonneg v).
    rewrite store_at by lia. cbn [mbind option_bind].
    rewrite (app_assoc pre v), <- len_app.
    rewrite IH.
    + rewrite drop_drop, length_app, <- !app_assoc. done.
    + unfold len in *. rewrite length_drop. lia.
Qed.

Lemma fold_left_len (vs : list (list Z)) a :
  fold_left (fun acc v => acc + len v) vs a = a + len (concat vs).
Proof.
  revert a. induction vs as [|v rest IH]; intros a; cbn [fold_left concat].
  - rewrite len_nil. lia.
  - rewrite IH, len_app. lia.
Qed.

(** The memory a typed operation leaves: the record header, the callable,
    a gap up to the offset of one pointer, the values end to end, and the
    rest of the block. *)
Lemma enqueue_packed_spec stub function vs buffer :
  len (commands buffer) = size buffer ->
  0 <= used buffer <= size buffer ->
  1 <= size buffer ->
  len function <= psz ->
  used buffer + (psz + 4 + (psz + psz + len (concat vs))) <= 2 ^ 31 ->
  exists (k : nat) (gap tail : list Z),
    enqueue_packed stub function vs buffer
    = Some (mk_buffer
              (take (Z.to_nat (used buffer)) (commands buffer)
                 ++ le_encode ptr_size stub
                 ++ le_encode 4 (psz + 4 + (psz + psz + len (concat vs)))
                 ++ (function ++ gap) ++ concat vs ++ tail)
              (size buffer * 2 ^ Z.of_nat k)
              (used buffer + (psz + 4 + (psz + psz + len (concat vs)))))
    /\ len (function ++ gap) = psz.
Proof.
  intros Hlen Hused Hsize Hf Hsum.
  assert (Hp : 0 <= psz) by (unfold psz; lia).
  pose proof (len_nonneg (concat vs)) as Hvs.
  pose proof (len_nonneg function) as Hfn.
  unfold enqueue_packed. rewrite fold_left_len.
  destruct (allocCommand_spec buffer stub (psz + psz + len (concat vs)))
    as (k & post & Ha & Hpost & Hle & _); [lia..|].
  rewrite Ha. cbn [mbind option_bind commands].
  set (pre := take (Z.to_nat (used buffer)) (commands buffer)) in *.
  assert (Hpre : len pre = used buffer).
  { unfold pre, len in *. rewrite length_take. lia. }
  set (h1 := le_encode ptr_size stub).
  set (h2 := le_encode 4 (psz + 4 + (psz + psz + len (concat vs)))).
  assert (Hdata : used buffer + psz + 4 = len (pre ++ h1 ++ h2)).
  { unfold h1, h2. rewrite !len_app, !len_le_encode. unfold psz. lia. }
  rewrite Hdata, !(app_assoc pre), !(app_assoc (pre ++ h1)).
  rewrite store_at by lia. cbn [mbind option_bind].
  set (gap := take (Z.to_nat (psz - len function)) (drop (length function) post)).
  set (post2 := drop (Z.to_nat psz) post).
  assert (Hsplit : drop (length function) post = gap ++ post2).
  { unfold gap, post2.
    rewrite <- (take_drop (Z.to_nat (psz - len function))
                  (drop (length function) post)) at 1.
    f_equal. rewrite drop_drop. f_equal. unfold len in *. lia. }
  assert (Hgap : len (function ++ gap) = psz).
  { unfold gap. rewrite len_app. unfold len in *.
    rewrite length_take, length_drop. lia. }
  rewrite Hsplit.
  rewrite (app_assoc function gap post2),
    (app_assoc ((pre ++ h1) ++ h2) (function ++ gap) post2).
  replace (len ((pre ++ h1) ++ h2) + psz)
    with (len (((pre ++ h1) ++ h2) ++ function ++ gap))
    by (rewrite (len_app _ (function ++ gap)); lia).
  rewrite store_args_at.
  - cbn [mbind option_bind]. exists k, gap, (drop (length (concat vs)) post2).
    split; [|done]. unfold with_commands. cbn [size used].
    by rewrite <- !app_assoc.
  - unfold post2, len in *. rewrite length_drop. lia.
Qed.


(** What a reservation that returns leaves at the offset of the record. *)
Lemma allocCommand_header buffer function size_ buffer' data :
  allocCommand buffer function size_ = Some (buffer', data) ->
  data = used buffer + psz + 4 /\
  load (commands buffer') (used buffer) psz = Some (le_encode ptr_size function) /\
  load (commands buffer') (used buffer + psz) 4
  = Some (le_encode 4 (wrap32 (psz + 4 + size_))).
Proof.
  unfold allocCommand. intros H.
  destruct (if size buffer <? _ then _ else _) as [grown|]; [|done].
  cbn [mbind option_bind] in H.
  destruct (store_ptr _ _ _) as [mem1|] eqn:H1; [|done].
  cbn [mbind option_bind] in H.
  destruct (store_u32 _ _ _) as [mem2|] eqn:H2; [|done].
  cbn [mbind option_bind] in H. injection H as <- <-. cbn [commands].
  unfold store_ptr, store_u32 in *. split; [done|]. split.
  - rewrite (load_store_other _ _ _ _ _ _ H2) by lia.
    apply load_store_same in H1. by rewrite len_le_encode in H1.
  - apply load_store_same in H2. by rewrite len_le_encode in H2.
Qed.

Lemma store_args_other vs : forall mem off mem' a n,
  store_args mem off vs = Some mem' -> a + n <= off ->
  load mem' a n = load mem a n.
Proof.
  induction vs as [|v rest IH]; intros mem off mem' a n H Hle;
    cbn [store_args] in H.
  - by injection H as <-.
  - destruct (store mem off v) as [m1|] eqn:H1; [|done].
    cbn [mbind option_bind] in H. pose proof (len_nonneg v).
    rewrite (IH _ _ _ _ _ H) by lia.
    apply (load_store_other _ _ _ _ _ _ H1). lia.
Qed.

Lemma store_args_load vs : forall mem off mem',
  store_args mem off vs = Some mem' ->
  load_args mem' off (map len vs) = Some vs.
Proof.
  induction vs as [|v rest IH]; intros mem off mem' H; [done|].
  cbn [store_args] in H.
  destruct (store mem off v) as [m1|] eqn:H1; [|done].
  cbn [mbind option_bind] in H. cbn [load_args map].
  rewrite (store_args_other _ _ _ _ _ _ H) by lia.
  rewrite (load_store_same _ _ _ _ H1). cbn [mbind option_bind].
  by rewrite (IH _ _ _ H).
Qed.

(** What a typed operation that returns leaves in the arena: the record
    header, the callable at the start of the data section, and the values
    from the offset of one pointer. *)
Lemma enqueue_packed_loads stub function vs buffer buffer' :
  len function <= psz ->
  enqueue_packed stub function vs buffer = Some buffer' ->
  let size_ := psz + psz + len (concat vs) in
  let data := used buffer + psz + 4 in
  load (commands buffer') (used buffer) psz = Some (le_encode ptr_size stub) /\
  load (commands buffer') (used buffer + psz) 4
  = Some (le_encode 4 (wrap32 (psz + 4 + size_))) /\
  load (commands buffer') data (len function) = Some function /\
  load_args (commands buffer') (data + psz) (map len vs) = Some vs.
Proof.
  intros Hf H size_ data. unfold enqueue_packed in H.
  rewrite fold_left_len in H.
  destruct (allocCommand _ _ _) as [[b1 data1]|] eqn:Ha; [|done].
  cbn [mbind option_bind] in H.
  destruct (store (commands b1) data1 function) as [m0|] eqn:H0; [|done].
  cbn [mbind option_bind] in H.
  destruct (store_args m0 (data1 + psz) vs) as [m|] eqn:Hm; [|done].
  cbn [mbind option_bind] in H. injection H as <-. cbn [commands].
  apply allocCommand_header in Ha as (-> & Hh1 & Hh2).
  assert (Hp : 0 <= psz) by (unfold psz; lia).
  pose proof (len_nonneg function).
  fold data in H0, Hm. subst size_.
  repeat split.
  - rewrite (store_args_other _ _ _ _ _ _ Hm) by (unfold data; lia).
    rewrite (load_store_other _ _ _ _ _ _ H0) by (unfold data; lia). done.
  - rewrite (store_args_other _ _ _ _ _ _ Hm) by (unfold data; lia).
    rewrite (load_store_other _ _ _ _ _ _ H0) by (unfold data; lia). done.
  - rewrite (store_args_other _ _ _ _ _ _ Hm) by lia.
    apply (load_store_same _ _ _ _ H0).
  - apply (store_args_load _ _ _ _ Hm).
Qed.

Lemma walk_iter_loads mem base handler length_ w w' :
  0 <= handler < 256 ^ psz -> 0 <= length_ < 2 ^ 32 ->
  load mem base psz = Some (le_encode ptr_size handler) ->
  load mem (base + psz) 4 = Some (le_encode 4 length_) ->
  invoke handler (base + psz + 4) mem w = Some w' ->
  walk_iter mem base w = Some (w', handler, base + length_).
Proof.
  intros Hh Hl H1 H2 Hw. unfold walk_iter, load_ptr, load_u32.
  rewrite H1. cbn [fmap option_fmap option_map mbind option_bind].
  rewrite le_decode_encode by done. rewrite Hw. cbn [mbind option_bind].
  rewrite H2. cbn [fmap option_fmap option_map mbind option_bind].
  by rewrite le_decode_encode.
Qed.

Lemma execute_Some_length stub function args buffer buffer' :
  execute stub function args buffer = Some buffer' -> (length args <= 6)%nat.
Proof.
  do 7 (destruct args as [|? args]; [cbn [length]; lia|]). done.
Qed.

Lemma returns_Some_length stub function ret args buffer buffer' :
  returns stub function ret args buffer = Some buffer' -> (length args <= 6)%nat.
Proof.
  do 7 (destruct args as [|? args]; [cbn [length]; lia|]). done.
Qed.

(** C6 (typed-enqueue round trip), amended.  For a callable whose object
    is no larger than a pointer: whenever [execute] returns, the execution
    by the worker of the record it has appended calls the callable with
    the argument values, in order, and advances by the length of the
    record; and [execute] does return for up to six arguments on an arena
    of capacity at least 1 whose [used] stays within 2^31. *)
Theorem typed_enqueue_round_trip (stub : Z) (function : list Z)
  (args : list (list Z)) (buffer : queue_buffer_t) (w : World) :
  len function <= psz ->
  0 <= stub < 256 ^ psz ->
  code stub = Some (ExecuteStub (len function) (map len args)) ->
  let reserved := psz + 4 + (psz + psz + len (concat args)) in
  (forall buffer',
     execute stub function args buffer = Some buffer' ->
     walk_iter (commands buffer') (used buffer) w
     = Some ((call function args w).1, stub, used buffer + wrap32 reserved))
  /\ (len (commands buffer) = size buffer ->
      0 <= used buffer <= size buffer ->
      1 <= size buffer ->
      (length args <= 6)%nat ->
      used buffer + reserved <= 2 ^ 31 ->
      exists buffer',
        execute stub function args buffer = Some buffer' /\
        used buffer' = used buffer + reserved).
Proof.
  intros Hf Hstub Hcode reserved. split.
  - intros buffer' He.
    pose proof (execute_Some_length _ _ _ _ _ He) as Hn.
    rewrite execute_packed in He by done.
    destruct (enqueue_packed_loads _ _ _ _ _ Hf He) as (H1 & H2 & H3 & H4).
    apply walk_iter_loads; [done|apply wrap32_range|done|done|].
    unfold invoke. rewrite Hcode.
    rewrite executeStub_packed by (by rewrite length_map).
    by rewrite H3, H4.
  - intros Hlen Hused Hsize Hn Hsum.
    destruct (enqueue_packed_spec stub function args buffer)
      as (k & gap & tail & He & _); [done..|].
    rewrite execute_packed, He by done. by eexists.
Qed.



(** ** The exchange of the arenas *)

Lemma occurrences_cons b x l :
  occurrences b (x :: l) = (occ b x + occurrences b l)%nat.
Proof.
  unfold occurrences, occ. rewrite filter_cons.
  destruct (decide (x = Some b)); done.
Qed.

Lemma conserved_count s :
  conserved s <-> count B0 s = 1%nat /\ count B1 s = 1%nat.
Proof.
  unfold conserved, holders, count. rewrite !occurrences_cons.
  split; intros [? ?]; split; lia.
Qed.

Lemma occ_None b : occ b None = 0%nat.
Proof. done. Qed.

Lemma occ_total x :
  (occ B0 x + occ B1 x)%nat = match x with Some _ => 1%nat | None => 0%nat end.
Proof. destruct x as [[]|]; done. Qed.

Lemma held_insert b (ps : list producer) i p p' :
  ps !! i = Some p ->
  (occurrences b (map producer_held (<[i := p']> ps)) + occ b (producer_held p))%nat
  = (occurrences b (map producer_held ps) + occ b (producer_held p'))%nat.
Proof.
  revert i. induction ps as [|q ps IH]; intros i Hl; [done|].
  destruct i as [|i]; cbn in Hl.
  - injection Hl as ->. change (<[0%nat := p']> (p :: ps)) with (p' :: ps).
    rewrite !map_cons, !occurrences_cons. lia.
  - change (<[S i := p']> (q :: ps)) with (q :: <[i := p']> ps).
    rewrite !map_cons, !occurrences_cons. specialize (IH i Hl). lia.
Qed.

Lemma held_lookup b (ps : list producer) i p :
  ps !! i = Some p ->
  (occ b (producer_held p) <= occurrences b (map producer_held ps))%nat.
Proof.
  revert i. induction ps as [|q ps IH]; intros i Hl; [done|].
  destruct i as [|i]; cbn in Hl; rewrite map_cons, occurrences_cons.
  - injection Hl as ->. lia.
  - specialize (IH i Hl). lia.
Qed.

Lemma pending_held p : pending p = true -> is_Some (producer_held p).
Proof. unfold pending, producer_held. destruct (ppc p); eauto; done. Qed.

(** A step that changes the record of one producer, which does not end
    about to store into [secondary]. *)
Lemma inv_producer_update s s' i p p' :
  exchange_inv s ->
  producers s !! i = Some p ->
  producers s' = <[i := p']> (producers s) ->
  worker_held (worker s') = worker_held (worker s) ->
  (forall b,
     (occ b (primary s') + occ b (secondary s') + occ b (producer_held p'))%nat
     = (occ b (primary s) + occ b (secondary s) + occ b (producer_held p))%nat) ->
  pending p' = false ->
  pending p = true \/ secondary s' = secondary s ->
  exchange_inv s'.
Proof.
  intros [Hc Hp] Hl Hps Hw Hocc Hpend Hsec. split.
  - apply conserved_count in Hc as [H0 H1]. apply conserved_count.
    unfold count in *. rewrite Hps, Hw.
    pose proof (held_insert B0 _ _ _ p' Hl). pose proof (held_insert B1 _ _ _ p' Hl).
    pose proof (Hocc B0). pose proof (Hocc B1). lia.
  - intros j q Hj Hq. rewrite Hps in Hj.
    apply list_lookup_insert_Some in Hj as [(-> & <- & _)|[Hne Hj]];
      [congruence|].
    destruct (Hp j q Hj Hq) as [Hs Huniq].
    destruct Hsec as [Hpp|Hsec].
    { exfalso. apply Hne. by apply (Huniq i p). }
    split; [congruence|].
    intros j' q' Hj' Hq'. rewrite Hps in Hj'.
    apply list_lookup_insert_Some in Hj' as [(-> & <- & _)|[Hne' Hj']];
      [congruence|].
    by apply (Huniq j' q').
Qed.

(** A step that leaves the records of the producers as they are. *)
Lemma inv_slots_update s s' :
  exchange_inv s ->
  producers s' = producers s ->
  (forall b,
     (occ b (primary s') + occ b (secondary s') + occ b (worker_held (worker s')))%nat
     = (occ b (primary s) + occ b (secondary s)
        + occ b (worker_held (worker s)))%nat) ->
  secondary s' = secondary s \/ secondary s' = None ->
  exchange_inv s'.
Proof.
  intros [Hc Hp] Hps Hocc Hsec. split.
  - apply conserved_count in Hc as [H0 H1]. apply conserved_count.
    unfold count in *. rewrite Hps.
    pose proof (Hocc B0). pose proof (Hocc B1). lia.
  - intros j q Hj Hq. rewrite Hps in Hj.
    destruct (Hp j q Hj Hq) as [Hs Huniq].
    split; [destruct Hsec; congruence|].
    intros j' q' Hj' Hq'. rewrite Hps in Hj'. by apply (Huniq j' q').
Qed.

(** The exchange on [primary] fails only when no other producer holds an
    arena and [secondary] is empty. *)
Lemma inv_release_failed s s' i p p' b c :
  exchange_inv s ->
  producers s !! i = Some p ->
  producer_held p = Some b ->
  primary s = Some c ->
  producers s' = <[i := p']> (producers s) ->
  producer_held p' = Some b ->
  primary s' = primary s -> secondary s' = secondary s ->
  worker_held (worker s') = worker_held (worker s) ->
  exchange_inv s'.
Proof.
  intros [Hc Hp] Hl Hheld Hprim Hps Hheld' Hprim' Hsec' Hw.
  apply conserved_count in Hc as [H0 H1]. unfold count in *.
  pose proof (occ_total (primary s)) as Tp.
  pose proof (occ_total (secondary s)) as Ts.
  pose proof (occ_total (producer_held p)) as Th.
  pose proof (held_lookup B0 _ _ _ Hl) as L0.
  pose proof (held_lookup B1 _ _ _ Hl) as L1.
  rewrite Hprim in H0, H1, Tp. rewrite Hheld in L0, L1, Th.
  assert (Hsec : secondary s = None).
  { destruct (secondary s); [lia|done]. }
  split.
  - apply conserved_count. unfold count. rewrite Hps, Hw, Hprim', Hsec', Hprim.
    pose proof (held_insert B0 _ _ _ p' Hl) as I0.
    pose proof (held_insert B1 _ _ _ p' Hl) as I1.
    rewrite Hheld, Hheld' in I0, I1. lia.
  - assert (Huniq : forall j q,
              producers s' !! j = Some q -> pending q = true -> j = i).
    { intros j q Hj Hq. rewrite Hps in Hj.
      apply list_lookup_insert_Some in Hj as [(-> & _)|[Hne Hj]]; [done|].
      exfalso. apply pending_held in Hq as [b' Hb'].
      pose proof (held_insert B0 _ _ _ (with_pc p P_idle) Hl) as I0.
      pose proof (held_insert B1 _ _ _ (with_pc p P_idle) Hl) as I1.
      assert (Hj' : <[i := with_pc p P_idle]> (producers s) !! j = Some q)
        by (by rewrite list_lookup_insert_ne).
      pose proof (held_lookup B0 _ _ _ Hj') as J0.
      pose proof (held_lookup B1 _ _ _ Hj') as J1.
      pose proof (occ_total (producer_held q)) as Tq.
      rewrite Hb' in Tq, J0, J1. rewrite Hheld in I0, I1.
      change (producer_held (with_pc p P_idle)) with (@None buf_id) in *.
      rewrite occ_None in *. lia. }
    intros j q Hj Hq. split; [congruence|].
    intros j' q' Hj' Hq'.
    rewrite (Huniq j q Hj Hq). by apply (Huniq j' q').
Qed.

Lemma producer_step_inv i p s s' :
  exchange_inv s -> producers s !! i = Some p ->
  producer_step i p s = Some s' -> exchange_inv s'.
Proof.
  intros Hinv Hl Hs. unfold producer_step in Hs.
  assert (Hheld : producer_held p
                  = match ppc p with
                    | P_fill b _ _ | P_release b _ | P_store b _ => Some b
                    | _ => None
                    end) by done.
  assert (Hpend : pending p = match ppc p with P_store _ _ => true | _ => false end)
    by done.
  destruct (ppc p) as [|body j|b body j|b j|b j|j|] eqn:Hpc.
  - destruct (program p) as [|[body|] rest]; [done| |]; injection Hs as <-.
    + eapply (inv_producer_update s _ i p); [done|done|done|done| |done|by right].
      intros b. cbn. by rewrite Hheld.
    + eapply (inv_producer_update s _ i p); [done|done|done|done| |done|by right].
      intros b. cbn. by rewrite Hheld.
  - unfold acquireBuffer_try, exchange_primary in Hs.
    destruct (primary s) as [b|] eqn:Hprim; injection Hs as <-.
    + eapply (inv_producer_update s _ i p); [done|done|done|done| |done|by right].
      intros b0. cbn. rewrite Hheld, Hprim, !occ_None. lia.
    + apply (inv_slots_update s); [done|done| |by left].
      intros b0. cbn. by rewrite Hprim.
  - destruct (body (get_buffer b s)) as [buffer'|]; [|done].
    cbn [mbind option_bind] in Hs. injection Hs as <-.
    destruct b;
      (eapply (inv_producer_update s _ i p); [done|done|done|done| |done|by right];
       intros b0; cbn; by rewrite Hheld).
  - unfold compare_exchange_primary in Hs.
    destruct (primary s) as [c|] eqn:Hprim; injection Hs as <-.
    + eapply (inv_release_failed s _ i p _ b c); done.
    + eapply (inv_producer_update s _ i p); [done|done|done|done| |done|by right].
      intros b0. cbn. rewrite Hheld, Hprim, !occ_None. lia.
  - injection Hs as <-.
    destruct (proj2 Hinv i p Hl) as [Hsec _]; [by rewrite Hpend|].
    eapply (inv_producer_update s _ i p); [done|done|done|done| |done|left].
    + intros b0. cbn. rewrite Hheld, Hsec, !occ_None. lia.
    + by rewrite Hpend.
  - injection Hs as <-. unfold notify_one.
    destruct (worker s) eqn:Hw; destruct j;
      (eapply (inv_producer_update s _ i p);
       [done|done|done|cbn; by rewrite ?Hw| |done|by right];
       intros b0; cbn; by rewrite Hheld).
  - destruct (heap (world s) (done_addr p) =? 0); [done|]. injection Hs as <-.
    eapply (inv_producer_update s _ i p); [done|done|done|done| |done|by right].
    intros b0. cbn. by rewrite Hheld.
Qed.

Lemma worker_step_inv s s' :
  exchange_inv s -> worker_step s = Some s' -> exchange_inv s'.
Proof.
  intros Hinv Hs. unfold worker_step in Hs.
  destruct (worker s) as [|held| |b|b base_addr end_|b|b] eqn:Hw; [..|done|done].
  - cbn in Hs. injection Hs as <-.
    apply (inv_slots_update s); [done|done| |by right].
    intros b. cbn. rewrite Hw. cbn. lia.
  - cbn in Hs. injection Hs as <-.
    apply (inv_slots_update s); [done|done| |by left].
    intros b. cbn. rewrite Hw. destruct (primary s); cbn; lia.
  - cbn in Hs. injection Hs as <-.
    apply (inv_slots_update s); [done|done| |by right].
    intros b. cbn. rewrite Hw. destruct (secondary s); cbn; lia.
  - destruct (negb _); [|destruct (shutdown s)]; injection Hs as <-;
      (apply (inv_slots_update s); [done|done| |by left]);
      intros b0; cbn; by rewrite Hw.
  - destruct (walk_iter _ _ _) as [[[w' h] next]|]; [|done].
    cbn [mbind option_bind] in Hs.
    destruct (next <? end_); injection Hs as <-.
    + apply (inv_slots_update s); [done|done| |by left].
      intros b0. cbn. by rewrite Hw.
    + destruct b;
        (apply (inv_slots_update s); [done|done| |by left];
         intros b0; cbn; by rewrite Hw).
Qed.

Lemma spurious_step_inv s s' :
  exchange_inv s -> spurious_step s = Some s' -> exchange_inv s'.
Proof.
  intros Hinv Hs. unfold spurious_step in Hs.
  destruct (worker s) eqn:Hw; try done. injection Hs as <-.
  apply (inv_slots_update s); [done|done| |by left].
  intros b0. cbn. by rewrite Hw.
Qed.

Lemma destructor_step_inv s s' :
  exchange_inv s -> destructor_step s = Some s' -> exchange_inv s'.
Proof.
  intros Hinv Hs. unfold destructor_step in Hs.
  destruct (destructor s); [| |done]; injection Hs as <-.
  - apply (inv_slots_update s); [done|done|done|by left].
  - unfold notify_one.
    destruct (worker s) eqn:Hw;
      (apply (inv_slots_update s); [done|done| |by left];
       intros b0; cbn; by rewrite ?Hw).
Qed.

Lemma step_inv a s s' : exchange_inv s -> step a s = Some s' -> exchange_inv s'.
Proof.
  intros Hinv Hs. destruct a as [i| | |]; cbn [step] in Hs.
  - destruct (producers s !! i) as [p|] eqn:Hl; [|done].
    by apply (producer_step_inv i p s).
  - by apply (worker_step_inv s).
  - by apply (spurious_step_inv s).
  - by apply (destructor_step_inv s).
Qed.

Lemma run_inv schedule : forall s s',
  exchange_inv s -> run schedule s = Some s' -> exchange_inv s'.
Proof.
  induction schedule as [|a rest IH]; intros s s' Hinv Hr; cbn [run] in Hr.
  - by injection Hr as <-.
  - destruct (step a s) as [s1|] eqn:Hs; [|done].
    cbn [mbind option_bind] in Hr.
    eapply IH; [|done]. by apply (step_inv a s).
Qed.

Lemma init_inv size_ threads w : exchange_inv (init size_ threads w).
Proof.
  assert (Hmap : forall (ts : list (list op * Z)),
            map producer_held (map (fun t => mk_producer P_idle t.1 t.2 0) ts)
            = map (fun _ => None) ts).
  { intros ts. rewrite map_map. done. }
  assert (Hnone : forall b (ts : list (list op * Z)),
            occurrences b (map (fun _ => None) ts) = 0%nat).
  { intros b ts. induction ts as [|t ts IH]; [done|].
    by rewrite map_cons, occurrences_cons, IH. }
  split.
  - apply conserved_count. unfold count, init.
    cbn [primary secondary worker producers worker_held].
    rewrite Hmap, !Hnone. by vm_compute.
  - intros i p Hl Hp. exfalso. unfold init in Hl. cbn in Hl.
    apply list_lookup_fmap_Some_1 in Hl as (t & -> & _). done.
Qed.

(** C2 (arena conservation).  In every state that the steps of the
    producers, the worker and the destructor reach from [init], each of
    the two arenas is in exactly one place among [primary], [secondary],
    the variable of the worker and the variables of the producers. *)
Theorem arena_conservation (s : State) : reachable s -> conserved s.
Proof.
  intros (size_ & threads & w & schedule & Hr).
  by apply (run_inv schedule _ _ (init_inv size_ threads w)) in Hr as [? _].
Qed.

Lemma lookup_set_producer i q s :
  (i < length (producers s))%nat -> producers (set_producer i q s) !! i = Some q.
Proof. intros Hi. cbn. by apply list_lookup_insert_eq. Qed.

Lemma step_release i p b joining s :
  producers s !! i = Some p -> ppc p = P_release b joining ->
  step (Producer i) s
  = Some (match primary s with
          | Some _ => set_producer i (with_pc p (P_store b joining)) s
          | None =>
              set_producer i (with_pc p (P_notify joining))
                (set_primary (Some b) s)
          end).
Proof.
  intros Hl Hpc. cbn [step]. rewrite Hl. cbn [mbind option_bind].
  unfold producer_step. rewrite Hpc. unfold compare_exchange_primary.
  by destruct (primary s).
Qed.

Lemma step_store i p b joining s :
  producers s !! i = Some p -> ppc p = P_store b joining ->
  step (Producer i) s
  = Some (set_producer i (with_pc p (P_notify joining)) (store_secondary b s)).
Proof.
  intros Hl Hpc. cbn [step]. rewrite Hl. cbn [mbind option_bind].
  unfold producer_step. by rewrite Hpc.
Qed.

Lemma step_notify i p joining s :
  producers s !! i = Some p -> ppc p = P_notify joining ->
  step (Producer i) s
  = Some (set_producer i (if joining then with_pc p P_wait else finish p)
            (notify_one s)).
Proof.
  intros Hl Hpc. cbn [step]. rewrite Hl. cbn [mbind option_bind].
  unfold producer_step. by rewrite Hpc.
Qed.

(** The steps of a producer thread in [releaseBuffer], taken without
    interruption, act on the slots, the condition variable and the worker
    as [releaseBuffer] does. *)
Lemma release_steps i p b joining s :
  producers s !! i = Some p -> ppc p = P_release b joining ->
  exists s',
    run (match primary s with
         | Some _ => [Producer i; Producer i; Producer i]
         | None => [Producer i; Producer i]
         end) s = Some s' /\
    primary s' = primary (releaseBuffer b s) /\
    secondary s' = secondary (releaseBuffer b s) /\
    cvDequeue_signals s' = cvDequeue_signals (releaseBuffer b s) /\
    worker s' = worker (releaseBuffer b s).
Proof.
  intros Hl Hpc. pose proof (lookup_lt_Some _ _ _ Hl) as Hi.
  unfold releaseBuffer, compare_exchange_primary.
  pose proof (step_release i p b joining s Hl Hpc) as H1.
  destruct (primary s) as [c|] eqn:Hprim.
  - cbn [run]. rewrite H1. cbn [mbind option_bind].
    rewrite (step_store i (with_pc p (P_store b joining)) b joining)
      by (by try apply lookup_set_producer).
    cbn [mbind option_bind].
    rewrite (step_notify i (with_pc p (P_notify joining)) joining);
      [|apply lookup_set_producer; cbn; by rewrite length_insert|done].
    cbn [mbind option_bind]. eexists. split; [done|].
    unfold notify_one, store_secondary.
    destruct (worker s) eqn:Hw; destruct joining; cbn; by rewrite ?Hw.
  - cbn [run]. rewrite H1. cbn [mbind option_bind].
    rewrite (step_notify i (with_pc p (P_notify joining)) joining)
      by (by try apply lookup_set_producer).
    cbn [mbind option_bind]. eexists. split; [done|].
    unfold notify_one.
    destruct (worker s) eqn:Hw; destruct joining; cbn; by rewrite ?Hw.
Qed.

(** C1 (producer release protocol), amended.  [releaseBuffer] puts the
    arena into [primary] when that slot is empty and leaves [secondary] as
    it is; otherwise it leaves [primary] as it is and stores the arena
    into [secondary]; in both cases it then notifies [cvDequeue] once. *)
Theorem release_protocol (buffer : buf_id) (s : State) :
  (primary s = None ->
   primary (releaseBuffer buffer s) = Some buffer /\
   secondary (releaseBuffer buffer s) = secondary s) /\
  (forall other, primary s = Some other ->
   primary (releaseBuffer buffer s) = Some other /\
   secondary (releaseBuffer buffer s) = Some buffer) /\
  cvDequeue_signals (releaseBuffer buffer s) = S (cvDequeue_signals s).
Proof.
  unfold releaseBuffer, compare_exchange_primary, store_secondary, notify_one.
  destruct (primary s) as [other|] eqn:Hp; cbn;
    (split; [|split]); try done;
    try (intros other' [= <-]); destruct (worker s); cbn; by rewrite ?Hp.
Qed.

(** ** The producer operations on an arena *)

Lemma grow_size_more fuel fuel' used_ size_ r :
  grow_size fuel used_ size_ = Some r -> (fuel <= fuel')%nat ->
  grow_size fuel' used_ size_ = Some r.
Proof.
  revert fuel' size_. induction fuel as [|fuel IH]; intros fuel' size_ H Hle.
  - done.
  - destruct fuel' as [|fuel']; [lia|]. cbn [grow_size] in *.
    destruct (wrap32 (size_ * 2) <? used_); [|done].
    apply IH; [done|lia].
Qed.

(** The doubling loop ends within 32 iterations or not at all. *)
Theorem doubling_loop_decided (used_ size_ : Z) :
  (exists size', forall fuel, (32 <= fuel)%nat ->
     grow_size fuel used_ size_ = Some size')
  \/ (forall fuel, grow_size fuel used_ size_ = None).
Proof.
  destruct (grow_size 32 used_ size_) as [size'|] eqn:H32.
  - left. exists size'. intros fuel Hf. by rewrite grow_size_fuel.
  - right. intros fuel. destruct (decide (32 <= fuel)%nat) as [Hf|Hf].
    + by rewrite grow_size_fuel.
    + destruct (grow_size fuel used_ size_) as [r|] eqn:Hg; [|done].
      rewrite (grow_size_more fuel 32 used_ size_ r Hg) in H32 by lia. done.
Qed.

Lemma store_take (mem : list Z) off bs mem' k :
  store mem off bs = Some mem' -> (Z.of_nat k <= off) ->
  take k mem' = take k mem.
Proof.
  intros (pre & old & post & -> & -> & Hpre & _)%store_Some Hk.
  unfold len in Hpre. by rewrite !take_app_le by lia.
Qed.

Lemma store_args_take vs : forall (mem : list Z) off mem' k,
  store_args mem off vs = Some mem' -> (Z.of_nat k <= off) ->
  take k mem' = take k mem.
Proof.
  induction vs as [|v rest IH]; intros mem off mem' k H Hk;
    cbn [store_args] in H.
  - by injection H as <-.
  - destruct (store mem off v) as [m1|] eqn:H1; [|done].
    cbn [mbind option_bind] in H. pose proof (len_nonneg v).
    rewrite (IH _ _ _ _ H) by lia. by apply (store_take _ _ _ _ _ H1).
Qed.

Lemma store_args_len vs : forall (mem : list Z) off mem',
  store_args mem off vs = Some mem' -> len mem' = len mem.
Proof.
  induction vs as [|v rest IH]; intros mem off mem' H; cbn [store_args] in H.
  - by injection H as <-.
  - destruct (store mem off v) as [m1|] eqn:H1; [|done].
    cbn [mbind option_bind] in H.
    rewrite (IH _ _ _ H). by apply (store_len _ _ _ _ H1).
Qed.

(** A reservation that returns keeps the arena well formed and the bytes
    below [used] as they were, also when it moves the block. *)
Lemma allocCommand_ok buffer function size_ buffer' data :
  arena_ok buffer ->
  allocCommand buffer function size_ = Some (buffer', data) ->
  arena_ok buffer' /\
  take (Z.to_nat (used buffer)) (commands buffer')
  = take (Z.to_nat (used buffer)) (commands buffer) /\
  size buffer <= size buffer' /\
  data = used buffer + psz + 4.
Proof.
  intros [Hlen Hused] H.
  pose proof (allocCommand_size _ _ _ _ _ H) as Hsize.
  pose proof (allocCommand_header _ _ _ _ _ H) as (Hdata & _ & _).
  assert (Hp : 0 <= psz) by (unfold psz; lia).
  unfold allocCommand in H. cbv zeta in H.
  set (used' := wrap32 (used buffer + wrap32 (psz + 4 + size_))) in *.
  pose proof (wrap32_range (used buffer + wrap32 (psz + 4 + size_))) as Hu'.
  fold used' in Hu'.
  assert (Hgrown : exists mem0 size0,
            (if size buffer <? used'
             then (fun sz => (realloc (commands buffer) sz, sz))
                    <$> grow_size 32 used' (size buffer)
             else Some (commands buffer, size buffer)) = Some (mem0, size0)
            /\ len mem0 = size0 /\ used' <= size0
            /\ take (Z.to_nat (used buffer)) mem0
               = take (Z.to_nat (used buffer)) (commands buffer)).
  { destruct (size buffer <? used') eqn:Hc.
    - apply Z.ltb_lt in Hc.
      destruct (grow_size 32 used' (size buffer)) as [sz|] eqn:Hg; [|done].
      pose proof (grow_size_Some _ _ _ _ Hg).
      exists (realloc (commands buffer) sz), sz. split; [done|].
      split; [apply len_realloc; lia|]. split; [done|].
      apply take_realloc; unfold len in *; lia.
    - apply Z.ltb_ge in Hc. by exists (commands buffer), (size buffer). }
  destruct Hgrown as (mem0 & size0 & Hg0 & Hl0 & Hle0 & Ht0).
  rewrite Hg0 in H. cbn [mbind option_bind fst snd] in H.
  destruct (store_ptr mem0 (used buffer) function) as [mem1|] eqn:H1; [|done].
  cbn [mbind option_bind] in H.
  destruct (store_u32 mem1 (used buffer + psz) _) as [mem2|] eqn:H2; [|done].
  cbn [mbind option_bind] in H. injection H as <- _.
  unfold store_ptr, store_u32 in *.
  split; [|split; [|by split]].
  - split; cbn [commands size used]; [|lia].
    by rewrite (store_len _ _ _ _ H2), (store_len _ _ _ _ H1).
  - cbn [commands].
    rewrite (store_take _ _ _ _ _ H2) by lia.
    by rewrite (store_take _ _ _ _ _ H1) by lia.
Qed.

Lemma rawExecute_raw function args buffer :
  (length args <= 6)%nat ->
  rawExecute function args buffer = enqueue_raw function args buffer.
Proof.
  intros Hn. unfold enqueue_raw.
  do 7 (destruct args as [|? args];
        [cbn [rawExecute concat];
         unfold rawExecute_V0, rawExecute_V1, rawExecute_V2, rawExecute_V3,
           rawExecute_V4, rawExecute_V5, rawExecute_V6;
         rewrite ?len_app, ?len_nil, ?Z.add_0_r, ?Z.add_assoc;
         destruct (allocCommand _ _ _) as [[[] data]|];
           cbn [mbind option_bind store_args]; [|done];
         destruct_binds; done|]).
  cbn [length] in Hn. lia.
Qed.

Lemma rawExecute_Some_length function args buffer buffer' :
  rawExecute function args buffer = Some buffer' -> (length args <= 6)%nat.
Proof.
  do 7 (destruct args as [|? args]; [cbn [length]; lia|]). done.
Qed.

(** Stores into the reserved record keep the arena well formed and the
    bytes below [used] as they were. *)
Lemma with_commands_ok buffer buffer1 m k :
  arena_ok buffer1 -> len m = len (commands buffer1) ->
  take k m = take k (commands buffer1) ->
  take k (commands buffer1) = take k (commands buffer) ->
  arena_ok (with_commands buffer1 m) /\
  take k (commands (with_commands buffer1 m)) = take k (commands buffer).
Proof.
  intros [Hl Hu] Hm Ht Ht1. unfold with_commands, arena_ok.
  cbn [commands size used]. split; [split; [congruence|done]|congruence].
Qed.

Lemma enqueue_packed_ok stub function vs buffer buffer' :
  arena_ok buffer ->
  enqueue_packed stub function vs buffer = Some buffer' ->
  arena_ok buffer' /\
  take (Z.to_nat (used buffer)) (commands buffer')
  = take (Z.to_nat (used buffer)) (commands buffer) /\
  size buffer <= size buffer'.
Proof.
  intros Hok H. unfold enqueue_packed in H.
  destruct (allocCommand _ _ _) as [[b1 data]|] eqn:Ha; [|done].
  cbn [mbind option_bind] in H.
  destruct (store (commands b1) data function) as [m0|] eqn:H0; [|done].
  cbn [mbind option_bind] in H.
  destruct (store_args m0 (data + psz) vs) as [m|] eqn:Hm; [|done].
  cbn [mbind option_bind] in H. injection H as <-.
  destruct (allocCommand_ok _ _ _ _ _ Hok Ha) as (Hok1 & Ht1 & Hs1 & ->).
  assert (Hp : 0 <= psz) by (unfold psz; lia). destruct Hok as [_ Hu].
  destruct (with_commands_ok buffer b1 m (Z.to_nat (used buffer))) as [? ?];
    [done| | |done|split; [done|split; [done|by cbn]]].
  - by rewrite (store_args_len _ _ _ _ Hm), (store_len _ _ _ _ H0).
  - rewrite (store_args_take _ _ _ _ _ Hm) by lia.
    by rewrite (store_take _ _ _ _ _ H0) by lia.
Qed.

Lemma enqueue_raw_ok function vs buffer buffer' :
  arena_ok buffer ->
  enqueue_raw function vs buffer = Some buffer' ->
  arena_ok buffer' /\
  take (Z.to_nat (used buffer)) (commands buffer')
  = take (Z.to_nat (used buffer)) (commands buffer) /\
  size buffer <= size buffer'.
Proof.
  intros Hok H. unfold enqueue_raw in H.
  destruct (allocCommand _ _ _) as [[b1 data]|] eqn:Ha; [|done].
  cbn [mbind option_bind] in H.
  destruct (store_args (commands b1) data vs) as [m|] eqn:Hm; [|done].
  cbn [mbind option_bind] in H. injection H as <-.
  destruct (allocCommand_ok _ _ _ _ _ Hok Ha) as (Hok1 & Ht1 & Hs1 & ->).
  assert (Hp : 0 <= psz) by (unfold psz; lia). destruct Hok as [_ Hu].
  destruct (with_commands_ok buffer b1 m (Z.to_nat (used buffer))) as [? ?];
    [done| | |done|split; [done|split; [done|by cbn]]].
  - by rewrite (store_args_len _ _ _ _ Hm).
  - by rewrite (store_args_take _ _ _ _ _ Hm) by lia.
Qed.

Lemma executeWithCopy_ok function src size_ buffer buffer' :
  arena_ok buffer ->
  executeWithCopy function src size_ buffer = Some buffer' ->
  arena_ok buffer' /\
  take (Z.to_nat (used buffer)) (commands buffer')
  = take (Z.to_nat (used buffer)) (commands buffer) /\
  size buffer <= size buffer'.
Proof.
  intros Hok H. unfold executeWithCopy in H.
  destruct (allocCommand _ _ _) as [[b1 data]|] eqn:Ha; [|done].
  cbn [mbind option_bind] in H.
  destruct (load src 0 size_) as [bytes|]; [|done].
  cbn [mbind option_bind] in H.
  destruct (store (commands b1) data bytes) as [m|] eqn:Hm; [|done].
  cbn [mbind option_bind] in H. injection H as <-.
  destruct (allocCommand_ok _ _ _ _ _ Hok Ha) as (Hok1 & Ht1 & Hs1 & ->).
  assert (Hp : 0 <= psz) by (unfold psz; lia). destruct Hok as [_ Hu].
  destruct (with_commands_ok buffer b1 m (Z.to_nat (used buffer))) as [? ?];
    [done| | |done|split; [done|split; [done|by cbn]]].
  - by rewrite (store_len _ _ _ _ Hm).
  - by rewrite (store_take _ _ _ _ _ Hm) by lia.
Qed.

Lemma op_appends o buffer buffer' :
  arena_ok buffer ->
  op_body o buffer = Some buffer' ->
  arena_ok buffer' /\
  take (Z.to_nat (used buffer)) (commands buffer')
  = take (Z.to_nat (used buffer)) (commands buffer) /\
  size buffer <= size buffer'.
Proof.
  intros Hok H. destruct o as [stub f args|stub f ret args|f args|f src n];
    cbn [op_body] in H.
  - pose proof (execute_Some_length _ _ _ _ _ H).
    rewrite execute_packed in H by done. by eapply enqueue_packed_ok.
  - pose proof (returns_Some_length _ _ _ _ _ _ H).
    rewrite returns_packed in H by done. by eapply enqueue_packed_ok.
  - pose proof (rawExecute_Some_length _ _ _ _ H).
    rewrite rawExecute_raw in H by done. by eapply enqueue_raw_ok.
  - by eapply executeWithCopy_ok.
Qed.

(** Every operation of the producer interface is append-only: when it
    returns on a well-formed arena, the arena is well formed again, the
    bytes below the old [used], which hold the records enqueued before,
    are as they were (also when the block was moved to grow), and the
    capacity has not decreased. *)
Theorem producer_op_appends (o : producer_op) (buffer buffer' : queue_buffer_t) :
  arena_ok buffer ->
  op_body o buffer = Some buffer' ->
  arena_ok buffer' /\
  take (Z.to_nat (used buffer)) (commands buffer')
  = take (Z.to_nat (used buffer)) (commands buffer) /\
  size buffer <= size buffer'.
Proof. apply op_appends. Qed.

(** What a raw operation that returns leaves in the arena. *)
Lemma enqueue_raw_loads function vs buffer buffer' :
  enqueue_raw function vs buffer = Some buffer' ->
  let data := used buffer + psz + 4 in
  load (commands buffer') (used buffer) psz
  = Some (le_encode ptr_size function) /\
  load (commands buffer') (used buffer + psz) 4
  = Some (le_encode 4 (wrap32 (psz + 4 + len (concat vs)))) /\
  load_args (commands buffer') data (map len vs) = Some vs.
Proof.
  intros H data. unfold enqueue_raw in H.
  destruct (allocCommand _ _ _) as [[b1 data1]|] eqn:Ha; [|done].
  cbn [mbind option_bind] in H.
  destruct (store_args (commands b1) data1 vs) as [m|] eqn:Hm; [|done].
  cbn [mbind option_bind] in H. injection H as <-. cbn [commands].
  apply allocCommand_header in Ha as (-> & Hh1 & Hh2).
  assert (Hp : 0 <= psz) by (unfold psz; lia). fold data in Hm.
  repeat split.
  - by rewrite (store_args_other _ _ _ _ _ _ Hm) by (unfold data; lia).
  - by rewrite (store_args_other _ _ _ _ _ _ Hm) by (unfold data; lia).
  - apply (store_args_load _ _ _ _ Hm).
Qed.

(** The raw operation returns on an arena of capacity at least 1 whose
    [used] stays within 2^31. *)
Lemma enqueue_raw_returns function vs buffer :
  len (commands buffer) = size buffer ->
  0 <= used buffer <= size buffer ->
  1 <= size buffer ->
  used buffer + (psz + 4 + len (concat vs)) <= 2 ^ 31 ->
  exists buffer',
    enqueue_raw function vs buffer = Some buffer' /\
    used buffer' = used buffer + (psz + 4 + len (concat vs)).
Proof.
  intros Hlen Hused Hsize Hsum.
  assert (Hp : 0 <= psz) by (unfold psz; lia).
  pose proof (len_nonneg (concat vs)) as Hvs.
  unfold enqueue_raw.
  destruct (allocCommand_spec buffer function (len (concat vs)))
    as (k & post & Ha & Hpost & Hle & _); [lia..|].
  rewrite Ha. cbn [mbind option_bind commands].
  set (pre := take (Z.to_nat (used buffer)) (commands buffer)) in *.
  assert (Hpre : len pre = used buffer).
  { unfold pre, len in *. rewrite length_take. lia. }
  set (h1 := le_encode ptr_size function).
  set (h2 := le_encode 4 (psz + 4 + len (concat vs))).
  assert (Hdata : used buffer + psz + 4 = len (pre ++ h1 ++ h2)).
  { unfold h1, h2. rewrite !len_app, !len_le_encode. unfold psz. lia. }
  rewrite Hdata, !(app_assoc pre), !(app_assoc (pre ++ h1)).
  rewrite store_args_at by lia. cbn [mbind option_bind].
  by eexists.
Qed.

(** The raw form: the handler of the record that [rawExecute] has appended
    is the function given, the worker calls it with the address of the data
    section, and the values lie there end to end as they were given; and
    [rawExecute] does return for up to six values on an arena of capacity
    at least 1 whose [used] stays within 2^31. *)
Theorem raw_enqueue_round_trip (function : Z) (args : list (list Z))
  (buffer : queue_buffer_t) (w : World) :
  0 <= function < 256 ^ psz ->
  code function = Some RawHandler ->
  let data := used buffer + psz + 4 in
  let reserved := psz + 4 + len (concat args) in
  (forall buffer',
     rawExecute function args buffer = Some buffer' ->
     walk_iter (commands buffer') (used buffer) w
     = Some (mk_world (heap w) (calls w ++ [RawCalled function data])
                      (cvJoin_signals w),
             function, used buffer + wrap32 reserved) /\
     load_args (commands buffer') data (map len args) = Some args)
  /\ (len (commands buffer) = size buffer ->
      0 <= used buffer <= size buffer ->
      1 <= size buffer ->
      (length args <= 6)%nat ->
      used buffer + reserved <= 2 ^ 31 ->
      exists buffer',
        rawExecute function args buffer = Some buffer' /\
        used buffer' = used buffer + reserved).
Proof.
  intros Hf Hcode data reserved. split.
  - intros buffer' H.
    pose proof (rawExecute_Some_length _ _ _ _ H) as Hn.
    rewrite rawExecute_raw in H by done.
    destruct (enqueue_raw_loads _ _ _ _ H) as (H1 & H2 & H3).
    split; [|done].
    apply walk_iter_loads; [done|apply wrap32_range|done|done|].
    unfold invoke. by rewrite Hcode.
  - intros Hlen Hused Hsize Hn Hsum.
    rewrite rawExecute_raw by done. by apply enqueue_raw_returns.
Qed.

(** A reservation that returns has stored its header inside the block. *)
Lemma allocCommand_data_bound buffer function size_ buffer' data :
  allocCommand buffer function size_ = Some (buffer', data) ->
  0 <= used buffer /\ data <= len (commands buffer').
Proof.
  intros H. pose proof (allocCommand_header _ _ _ _ _ H) as (-> & _ & _).
  assert (Hp : 0 <= psz) by (unfold psz; lia).
  unfold allocCommand in H. cbv zeta in H.
  destruct (if size buffer <? _ then _ else _) as [grown|]; [|done].
  cbn [mbind option_bind] in H.
  destruct (store_ptr _ _ _) as [mem1|] eqn:H1; [|done].
  cbn [mbind option_bind] in H.
  destruct (store_u32 _ _ _) as [mem2|] eqn:H2; [|done].
  cbn [mbind option_bind] in H. injection H as <-. cbn [commands].
  unfold store_ptr, store_u32 in *.
  apply store_Some in H1 as (pre1 & old1 & post1 & _ & _ & Hpre1 & _).
  apply store_Some in H2 as (pre & old & post & _ & -> & Hpre & Hold).
  rewrite len_le_encode in Hold. pose proof (len_nonneg pre1).
  pose proof (len_nonneg post). rewrite !len_app, len_le_encode. lia.
Qed.

Lemma executeWithCopy_loads function src size_ buffer buffer' :
  executeWithCopy function src size_ buffer = Some buffer' ->
  let data := used buffer + psz + 4 in
  0 <= size_ <= len src /\
  load (commands buffer') (used buffer) psz
  = Some (le_encode ptr_size function) /\
  load (commands buffer') (used buffer + psz) 4
  = Some (le_encode 4 (wrap32 (psz + 4 + size_))) /\
  load (commands buffer') data size_ = Some (take (Z.to_nat size_) src).
Proof.
  intros H data. unfold executeWithCopy in H.
  destruct (allocCommand _ _ _) as [[b1 data1]|] eqn:Ha; [|done].
  cbn [mbind option_bind] in H.
  destruct (load src 0 size_) as [bytes|] eqn:Hl; [|done].
  cbn [mbind option_bind] in H.
  destruct (store (commands b1) data1 bytes) as [m|] eqn:Hm; [|done].
  cbn [mbind option_bind] in H. injection H as <-. cbn [commands].
  apply allocCommand_header in Ha as (-> & Hh1 & Hh2).
  assert (Hp : 0 <= psz) by (unfold psz; lia). fold data in Hm.
  assert (Hsrc : 0 <= size_ <= len src /\ bytes = take (Z.to_nat size_) src
                 /\ len bytes = size_).
  { unfold load in Hl.
    destruct ((0 <=? 0) && (0 <=? size_) && (0 + size_ <=? len src)) eqn:Hb;
      [|done].
    injection Hl as <-.
    apply andb_prop in Hb as [[_ H2]%andb_prop H3].
    apply Z.leb_le in H2, H3. rewrite drop_0.
    split; [lia|]. split; [done|]. unfold len in *. rewrite length_take. lia. }
  destruct Hsrc as (Hn & -> & Hlen).
  split; [done|]. repeat split.
  - by rewrite (load_store_other _ _ _ _ _ _ Hm) by (unfold data; lia).
  - by rewrite (load_store_other _ _ _ _ _ _ Hm) by (unfold data; lia).
  - apply load_store_same in Hm. by rewrite Hlen in Hm.
Qed.

(** The blob operation returns on an arena of capacity at least 1 whose
    [used] stays within 2^31, when the source block has [size] bytes. *)
Lemma executeWithCopy_returns function src size_ buffer :
  len (commands buffer) = size buffer ->
  0 <= used buffer <= size buffer ->
  1 <= size buffer ->
  0 <= size_ <= len src ->
  used buffer + (psz + 4 + size_) <= 2 ^ 31 ->
  exists buffer',
    executeWithCopy function src size_ buffer = Some buffer' /\
    used buffer' = used buffer + (psz + 4 + size_).
Proof.
  intros Hlen Hused Hsize Hsrc Hsum.
  assert (Hp : 0 <= psz) by (unfold psz; lia).
  unfold executeWithCopy.
  destruct (allocCommand_spec buffer function size_)
    as (k & post & Ha & Hpost & Hle & _); [lia..|].
  rewrite Ha. cbn [mbind option_bind commands].
  assert (Hl : load src 0 size_ = Some (take (Z.to_nat size_) src)).
  { unfold load. change (0 <=? 0) with true.
    replace (0 <=? size_) with true by (symmetry; apply Z.leb_le; lia).
    replace (0 + size_ <=? len src) with true
      by (symmetry; apply Z.leb_le; lia).
    cbn [andb]. by rewrite drop_0. }
  rewrite Hl. cbn [mbind option_bind].
  assert (Hbytes : len (take (Z.to_nat size_) src) = size_).
  { unfold len in *. rewrite length_take. lia. }
  set (pre := take (Z.to_nat (used buffer)) (commands buffer)) in *.
  assert (Hpre : len pre = used buffer).
  { unfold pre, len in *. rewrite length_take. lia. }
  set (h1 := le_encode ptr_size function).
  set (h2 := le_encode 4 (psz + 4 + size_)).
  assert (Hdata : used buffer + psz + 4 = len (pre ++ h1 ++ h2)).
  { unfold h1, h2. rewrite !len_app, !len_le_encode. unfold psz. lia. }
  rewrite Hdata, !(app_assoc pre), !(app_assoc (pre ++ h1)).
  rewrite store_at by lia. cbn [mbind option_bind].
  by eexists.
Qed.

(** The blob form: [executeWithCopy] copies the first [size] bytes of the
    source block into the data section of the record it appends, whose
    handler the worker calls with the address of that section; it does
    return on an arena of capacity at least 1 whose [used] stays within
    2^31 when the source block has [size] bytes; it reads past the end of
    a shorter source block, which is undefined; and with size 0 it is
    [rawExecute] with no argument. *)
Theorem blob_enqueue_round_trip (function : Z) (src : list Z) (size_ : Z)
  (buffer : queue_buffer_t) (w : World) :
  0 <= function < 256 ^ psz ->
  code function = Some RawHandler ->
  let data := used buffer + psz + 4 in
  (forall buffer',
     executeWithCopy function src size_ buffer = Some buffer' ->
     load (commands buffer') data size_ = Some (take (Z.to_nat size_) src) /\
     walk_iter (commands buffer') (used buffer) w
     = Some (mk_world (heap w) (calls w ++ [RawCalled function data])
                      (cvJoin_signals w),
             function, used buffer + wrap32 (psz + 4 + size_)))
  /\ (len (commands buffer) = size buffer ->
      0 <= used buffer <= size buffer ->
      1 <= size buffer ->
      0 <= size_ <= len src ->
      used buffer + (psz + 4 + size_) <= 2 ^ 31 ->
      exists buffer',
        executeWithCopy function src size_ buffer = Some buffer' /\
        used buffer' = used buffer + (psz + 4 + size_))
  /\ (len src < size_ -> executeWithCopy function src size_ buffer = None)
  /\ (size_ = 0 ->
      executeWithCopy function src size_ buffer = rawExecute function [] buffer).
Proof.
  intros Hf Hcode data. split; [|split; [|split]].
  - intros buffer' H.
    destruct (executeWithCopy_loads _ _ _ _ _ H) as (_ & H1 & H2 & H3).
    split; [done|].
    apply walk_iter_loads; [done|apply wrap32_range|done|done|].
    unfold invoke. by rewrite Hcode.
  - apply executeWithCopy_returns.
  - intros Hlt. unfold executeWithCopy.
    destruct (allocCommand _ _ _) as [[b1 data1]|]; [|done].
    cbn [mbind option_bind]. unfold load.
    replace (0 + size_ <=? len src) with false
      by (symmetry; apply Z.leb_gt; lia).
    by rewrite andb_false_r.
  - intros ->. unfold executeWithCopy. cbn [rawExecute]. unfold rawExecute_V0.
    destruct (allocCommand buffer function 0) as [[b1 data1]|] eqn:Ha; [|done].
    cbn [mbind option_bind].
    destruct (allocCommand_data_bound _ _ _ _ _ Ha) as [Hu Hd].
    pose proof (allocCommand_header _ _ _ _ _ Ha) as (Hdata & _ & _).
    assert (Hp : 0 <= psz) by (unfold psz; lia).
    assert (Hl0 : load src 0 0 = Some []).
    { unfold load. change (0 + 0) with 0. change (0 <=? 0) with true.
      replace (0 <=? len src) with true
        by (symmetry; apply Z.leb_le; apply len_nonneg).
      done. }
    rewrite Hl0. cbn [mbind option_bind].
    assert (Hs : store (commands b1) data1 [] = Some (commands b1)).
    { unfold store. change (len (@nil Z)) with 0.
      replace (data1 + 0) with data1 by lia.
      replace (0 <=? data1) with true by (symmetry; apply Z.leb_le; lia).
      replace (data1 <=? len (commands b1)) with true
        by (symmetry; apply Z.leb_le; lia).
      cbn [andb app]. by rewrite take_drop. }
    rewrite Hs. cbn [mbind option_bind]. by destruct b1.
Qed.

(** The sentinel of [join]: the record that [join] enqueues, when the
    worker executes it, sets the [done] flag of the joining thread,
    notifies [cvJoin] once, writes nowhere else and calls no user code. *)
Theorem join_sentinel (done : Z) (buffer buffer' : queue_buffer_t) (w : World) :
  0 <= join_stub_addr < 256 ^ psz ->
  0 <= done < 256 ^ psz ->
  code join_stub_addr = Some (ExecuteStub psz [psz; psz]) ->
  join_body done buffer = Some buffer' ->
  exists w',
    walk_iter (commands buffer') (used buffer) w
    = Some (w', join_stub_addr,
            used buffer + wrap32 (psz + 4 + (psz + psz + (psz + psz)))) /\
    heap w' done = 1 /\
    (forall a, a <> done -> heap w' a = heap w a) /\
    calls w' = calls w /\
    cvJoin_signals w' = S (cvJoin_signals w).
Proof.
  intros Hstub Hdone Hcode H. unfold join_body in H.
  set (f := le_encode ptr_size join_cb_addr) in *.
  set (this := le_encode ptr_size this_addr) in *.
  set (d := le_encode ptr_size done) in *.
  change (execute_V2 join_stub_addr f this d buffer)
    with (execute join_stub_addr f [this; d] buffer) in H.
  rewrite execute_packed in H by (cbn; lia).
  assert (Hlf : len f = psz) by apply len_le_encode.
  assert (Hlt : len this = psz) by apply len_le_encode.
  assert (Hld : len d = psz) by apply len_le_encode.
  destruct (enqueue_packed_loads _ _ _ _ _ (Z.eq_le_incl _ _ Hlf) H)
    as (H1 & H2 & H3 & H4).
  cbn [concat map] in H2, H4. rewrite !len_app, len_nil, Hlt, Hld in H2.
  rewrite Z.add_0_r in H2. rewrite Hlt, Hld in H4. rewrite Hlf in H3.
  eexists. split; [|split; [|split; [|split]]].
  - apply walk_iter_loads; [done|apply wrap32_range|done|done|].
    unfold invoke. rewrite Hcode.
    rewrite executeStub_packed by (cbn; lia).
    rewrite H3. cbn [mbind option_bind]. rewrite H4. cbn [mbind option_bind].
    reflexivity.
  - unfold call. rewrite decide_True by done. cbn [fst join_cb heap].
    unfold d. rewrite le_decode_encode by done.
    unfold heap_store. change (len [1]) with 1.
    replace ((done <=? done) && (done <? done + 1)) with true
      by (symmetry; apply andb_true_intro; split;
            [apply Z.leb_le|apply Z.ltb_lt]; lia).
    by rewrite Z.sub_diag.
  - intros a Ha. unfold call. rewrite decide_True by done.
    cbn [fst join_cb heap]. unfold d. rewrite le_decode_encode by done.
    unfold heap_store. change (len [1]) with 1.
    destruct ((done <=? a) && (a <? done + 1)) eqn:Hb; [|done].
    apply andb_prop in Hb as [Hb1%Z.leb_le Hb2%Z.ltb_lt]. lia.
  - unfold call. by rewrite decide_True by done.
  - unfold call. by rewrite decide_True by done.
Qed.

(** ** A sequence of operations, then the walk *)

Lemma allocCommand_used buffer function size_ buffer' data :
  allocCommand buffer function size_ = Some (buffer', data) ->
  used buffer' = wrap32 (used buffer + wrap32 (psz + 4 + size_)).
Proof.
  unfold allocCommand. cbv zeta. intros H.
  destruct (if size buffer <? _ then _ else _) as [grown|]; [|done].
  cbn [mbind option_bind] in H.
  destruct (store_ptr _ _ _) as [mem1|]; [|done]. cbn [mbind option_bind] in H.
  destruct (store_u32 _ _ _) as [mem2|]; [|done]. cbn [mbind option_bind] in H.
  by injection H as <- _.
Qed.

Lemma op_used o buffer buffer' :
  op_body o buffer = Some buffer' ->
  used buffer' = wrap32 (used buffer + wrap32 (psz + 4 + op_size o)) /\
  0 <= op_size o.
Proof.
  assert (Hp : 0 <= psz) by (unfold psz; lia).
  intros H. destruct o as [stub f args|stub f ret args|f args|f src n];
    cbn [op_body op_size] in *.
  - pose proof (execute_Some_length _ _ _ _ _ H).
    rewrite execute_packed in H by done. unfold enqueue_packed in H.
    rewrite fold_left_len in H.
    destruct (allocCommand _ _ _) as [[b1 data]|] eqn:Ha; [|done].
    cbn [mbind option_bind] in H.
    destruct (store _ _ _); [|done]. cbn [mbind option_bind] in H.
    destruct (store_args _ _ _); [|done]. cbn [mbind option_bind] in H.
    injection H as <-. cbn [with_commands used].
    split; [by apply allocCommand_used in Ha|].
    pose proof (len_nonneg (concat args)). lia.
  - pose proof (returns_Some_length _ _ _ _ _ _ H).
    rewrite returns_packed in H by done. unfold enqueue_packed in H.
    rewrite fold_left_len in H. cbn [concat] in H. rewrite len_app in H.
    destruct (allocCommand _ _ _) as [[b1 data]|] eqn:Ha; [|done].
    cbn [mbind option_bind] in H.
    destruct (store _ _ _); [|done]. cbn [mbind option_bind] in H.
    destruct (store_args _ _ _); [|done]. cbn [mbind option_bind] in H.
    injection H as <-. cbn [with_commands used].
    pose proof (len_nonneg (concat args)). pose proof (len_nonneg ret).
    split; [|lia]. apply allocCommand_used in Ha. rewrite Ha.
    do 3 f_equal. lia.
  - pose proof (rawExecute_Some_length _ _ _ _ H).
    rewrite rawExecute_raw in H by done. unfold enqueue_raw in H.
    destruct (allocCommand _ _ _) as [[b1 data]|] eqn:Ha; [|done].
    cbn [mbind option_bind] in H.
    destruct (store_args _ _ _); [|done]. cbn [mbind option_bind] in H.
    injection H as <-. cbn [with_commands used].
    split; [by apply allocCommand_used in Ha|apply len_nonneg].
  - pose proof (executeWithCopy_loads _ _ _ _ _ H) as ([Hn _] & _).
    split; [|done]. unfold executeWithCopy in H.
    destruct (allocCommand _ _ _) as [[b1 data]|] eqn:Ha; [|done].
    cbn [mbind option_bind] in H.
    destruct (load _ _ _); [|done]. cbn [mbind option_bind] in H.
    destruct (store _ _ _); [|done]. cbn [mbind option_bind] in H.
    injection H as <-. cbn [with_commands used].
    by apply allocCommand_used in Ha.
Qed.

(** A load below [k] depends on the first [k] bytes only. *)
Lemma load_prefix (mem mem' : list Z) off n bs k :
  load mem off n = Some bs -> off + n <= Z.of_nat k ->
  take k mem' = take k mem ->
  load mem' off n = Some bs.
Proof.
  intros (pre & post & -> & Hpre & Hbs)%load_split Hk Ht.
  rewrite <- (take_drop k mem'), Ht.
  rewrite (app_assoc pre bs post),
    take_app_ge by (unfold len in *; rewrite length_app; lia).
  rewrite <- !app_assoc. by eapply load_app'.
Qed.

Lemma load_args_prefix Ts : forall (mem mem' : list Z) off vs k,
  load_args mem off Ts = Some vs -> off + len (concat vs) <= Z.of_nat k ->
  take k mem' = take k mem ->
  load_args mem' off Ts = Some vs.
Proof.
  induction Ts as [|T rest IH]; intros mem mem' off vs k H Hk Ht; [done|].
  cbn [load_args] in *.
  destruct (load mem off T) as [v|] eqn:Hl; [|done].
  cbn [mbind option_bind] in H.
  destruct (load_args mem (off + T) rest) as [vs'|] eqn:Hl'; [|done].
  cbn [mbind option_bind] in H. injection H as <-.
  cbn [concat] in Hk. rewrite len_app in Hk.
  pose proof (len_nonneg (concat vs')).
  pose proof (load_split _ _ _ _ Hl) as (_ & _ & _ & _ & Hv).
  rewrite (load_prefix _ _ _ _ _ k Hl) by (done || lia).
  cbn [mbind option_bind].
  by rewrite (IH _ _ _ _ k Hl') by (done || lia).
Qed.

(** The execution of the record an operation has appended, in a block
    that agrees with the arena up to the end of the record. *)
Lemma op_walk_iter o buffer buffer' (mem : list Z) w :
  op_ok o ->
  op_body o buffer = Some buffer' ->
  psz + 4 + op_size o < 2 ^ 32 ->
  let next := used buffer + (psz + 4 + op_size o) in
  take (Z.to_nat next) mem = take (Z.to_nat next) (commands buffer') ->
  walk_iter mem (used buffer) w
  = Some (op_effect o (used buffer + psz + 4) w, op_handler o, next).
Proof.
  assert (Hp : 0 <= psz) by (unfold psz; lia).
  intros Hok H Hfit next Ht.
  pose proof (op_used _ _ _ H) as [_ Hsize].
  assert (Hw : wrap32 (psz + 4 + op_size o) = psz + 4 + op_size o)
    by (apply wrap32_small; lia).
  destruct o as [stub f args|stub f ret args|f args|f src n];
    cbn [op_body op_size op_ok op_effect op_handler] in *.
  - destruct Hok as (Hf & Hstub & Hcode).
    pose proof (execute_Some_length _ _ _ _ _ H).
    rewrite execute_packed in H by done.
    destruct (enqueue_packed_loads _ _ _ _ _ Hf H) as (H1 & H2 & H3 & H4).
    pose proof (load_split _ _ _ _ H1) as (p1 & _ & _ & Hu & _).
    pose proof (len_nonneg p1). pose proof (len_nonneg (concat args)).
    pose proof (len_nonneg f).
    rewrite Hw in H2.
    apply (walk_iter_loads mem (used buffer) stub _ w); [done|lia| | |].
    + apply (load_prefix _ _ _ _ _ (Z.to_nat next) H1); [unfold next; lia|done].
    + apply (load_prefix _ _ _ _ _ (Z.to_nat next) H2); [unfold next; lia|done].
    + unfold invoke. rewrite Hcode.
      rewrite executeStub_packed by (by rewrite length_map).
      rewrite (load_prefix _ _ _ _ _ (Z.to_nat next) H3) by (done || unfold next; lia).
      cbn [mbind option_bind].
      by rewrite (load_args_prefix _ _ _ _ _ (Z.to_nat next) H4) by (done || unfold next; lia).
  - destruct Hok as (Hf & Hstub & Tf & Td & Hcode & [v Hv]). rewrite Hcode.
    pose proof (returns_Some_length _ _ _ _ _ _ H).
    rewrite returns_packed in H by done.
    destruct (enqueue_packed_loads _ _ _ _ _ Hf H) as (H1 & H2 & H3 & H4).
    pose proof (load_split _ _ _ _ H1) as (p1 & _ & _ & Hu & _).
    pose proof (len_nonneg p1). pose proof (len_nonneg (concat args)).
    pose proof (len_nonneg f). pose proof (len_nonneg ret).
    cbn [concat] in H2. rewrite len_app in H2.
    replace (psz + 4 + (psz + psz + (len ret + len (concat args))))
      with (psz + 4 + (psz + psz + len ret + len (concat args))) in H2 by lia.
    rewrite Hw in H2.
    cbn [map load_args] in H4.
    destruct (load (commands buffer') (used buffer + psz + 4 + psz) (len ret))
      as [ret'|] eqn:Hl; [|done].
    cbn [mbind option_bind] in H4.
    destruct (load_args _ _ _) as [args'|] eqn:Hl'; [|done].
    cbn [mbind option_bind] in H4. injection H4 as -> ->.
    apply (walk_iter_loads mem (used buffer) stub _ w); [done|lia| | |].
    + apply (load_prefix _ _ _ _ _ (Z.to_nat next) H1); [unfold next; lia|done].
    + apply (load_prefix _ _ _ _ _ (Z.to_nat next) H2); [unfold next; lia|done].
    + unfold invoke. rewrite Hcode.
      rewrite returnStub_packed by (by rewrite length_map).
      rewrite (load_prefix _ _ _ _ _ (Z.to_nat next) H3) by (done || unfold next; lia).
      cbn [mbind option_bind].
      rewrite (load_args_prefix _ _ _ _ _ (Z.to_nat next) Hl') by (done || unfold next; lia).
      cbn [mbind option_bind].
      rewrite (load_prefix _ _ _ _ _ (Z.to_nat next) Hl) by (done || unfold next; lia).
      cbn [mbind option_bind]. unfold return_to.
      by rewrite call_returned, Hv.
  - destruct Hok as (Hf & Hcode).
    pose proof (rawExecute_Some_length _ _ _ _ H).
    rewrite rawExecute_raw in H by done.
    destruct (enqueue_raw_loads _ _ _ _ H) as (H1 & H2 & _).
    pose proof (load_split _ _ _ _ H1) as (p1 & _ & _ & Hu & _).
    pose proof (len_nonneg p1). rewrite Hw in H2.
    apply (walk_iter_loads mem (used buffer) f _ w); [done|lia| | |].
    + apply (load_prefix _ _ _ _ _ (Z.to_nat next) H1); [unfold next; lia|done].
    + apply (load_prefix _ _ _ _ _ (Z.to_nat next) H2); [unfold next; lia|done].
    + unfold invoke. by rewrite Hcode.
  - destruct Hok as (Hf & Hcode).
    destruct (executeWithCopy_loads _ _ _ _ _ H) as (_ & H1 & H2 & _).
    pose proof (load_split _ _ _ _ H1) as (p1 & _ & _ & Hu & _).
    pose proof (len_nonneg p1). rewrite Hw in H2.
    apply (walk_iter_loads mem (used buffer) f _ w); [done|lia| | |].
    + apply (load_prefix _ _ _ _ _ (Z.to_nat next) H1); [unfold next; lia|done].
    + apply (load_prefix _ _ _ _ _ (Z.to_nat next) H2); [unfold next; lia|done].
    + unfold invoke. by rewrite Hcode.
Qed.

Lemma take_le_eq (x y : list Z) k k1 :
  (k <= k1)%nat -> take k1 x = take k1 y -> take k x = take k y.
Proof.
  intros Hk H.
  replace (take k x) with (take k (take k1 x))
    by (rewrite take_take; f_equal; lia).
  replace (take k y) with (take k (take k1 y))
    by (rewrite take_take; f_equal; lia).
  by rewrite H.
Qed.

Lemma enqueue_all_total ops : forall buffer buffer',
  enqueue_all ops buffer = Some buffer' -> 0 <= ops_total ops.
Proof.
  assert (Hp : 0 <= psz) by (unfold psz; lia).
  induction ops as [|o rest IH]; intros buffer buffer' H; [done|].
  cbn [enqueue_all] in H.
  destruct (op_body o buffer) as [b1|] eqn:Ho; [|done].
  cbn [mbind option_bind] in H.
  pose proof (op_used _ _ _ Ho) as [_ Hs]. pose proof (IH _ _ H).
  cbn [ops_total foldr]. fold (ops_total rest). lia.
Qed.

Lemma enqueue_all_spec ops : forall buffer buffer',
  arena_ok buffer ->
  enqueue_all ops buffer = Some buffer' ->
  used buffer + ops_total ops < 2 ^ 32 ->
  arena_ok buffer' /\
  used buffer' = used buffer + ops_total ops /\
  take (Z.to_nat (used buffer)) (commands buffer')
  = take (Z.to_nat (used buffer)) (commands buffer) /\
  size buffer <= size buffer'.
Proof.
  assert (Hp : 0 <= psz) by (unfold psz; lia).
  induction ops as [|o rest IH]; intros buffer buffer' Hok H Hsum.
  - injection H as <-. cbn [ops_total foldr]. split; [done|].
    split; [lia|]. by split.
  - cbn [enqueue_all] in H.
    destruct (op_body o buffer) as [b1|] eqn:Ho; [|done].
    cbn [mbind option_bind] in H.
    pose proof (op_used _ _ _ Ho) as [Hu1 Hs].
    pose proof (enqueue_all_total _ _ _ H) as Hrest.
    cbn [ops_total foldr] in Hsum |- *. fold (ops_total rest) in Hsum |- *.
    destruct (op_appends _ _ _ Hok Ho) as (Hok1 & Ht1 & Hsz1).
    pose proof Hok as [_ Hused].
    rewrite (wrap32_small (psz + 4 + op_size o)) in Hu1 by lia.
    rewrite wrap32_small in Hu1 by lia.
    destruct (IH b1 buffer' Hok1 H) as (Hok' & Hu' & Ht' & Hsz'); [lia|].
    split; [done|]. split; [lia|]. split; [|lia].
    rewrite <- Ht1.
    apply (take_le_eq _ _ _ (Z.to_nat (used b1))); [lia|done].
Qed.

Lemma enqueue_all_walk ops : forall buffer buffer' (mem : list Z) w,
  arena_ok buffer -> ops <> [] -> Forall op_ok ops ->
  enqueue_all ops buffer = Some buffer' ->
  used buffer + ops_total ops < 2 ^ 32 ->
  take (Z.to_nat (used buffer')) mem
  = take (Z.to_nat (used buffer')) (commands buffer') ->
  exists its,
    walk_loop (length ops) mem (used buffer') (used buffer) w
    = Some (effects ops (used buffer) w, its) /\
    map (fun it => it.1.2) its = map op_handler ops.
Proof.
  assert (Hp : 0 <= psz) by (unfold psz; lia).
  induction ops as [|o rest IH]; intros buffer buffer' mem w Hok Hne Hops H Hsum Ht;
    [done|].
  apply Forall_cons in Hops as [Ho_ok Hrest_ok].
  cbn [enqueue_all] in H.
  destruct (op_body o buffer) as [b1|] eqn:Ho; [|done].
  cbn [mbind option_bind] in H.
  pose proof (op_used _ _ _ Ho) as [Hu1 Hs].
  pose proof (enqueue_all_total _ _ _ H) as Hrest.
  cbn [ops_total foldr] in Hsum. fold (ops_total rest) in Hsum.
  destruct (op_appends _ _ _ Hok Ho) as (Hok1 & Ht1 & Hsz1).
  pose proof Hok as [_ Hused].
  rewrite (wrap32_small (psz + 4 + op_size o)) in Hu1 by lia.
  rewrite wrap32_small in Hu1 by lia.
  destruct (enqueue_all_spec rest b1 buffer' Hok1 H) as (Hok' & Hu' & Ht' & _);
    [lia|].
  assert (Hiter : walk_iter mem (used buffer) w
                  = Some (op_effect o (used buffer + psz + 4) w, op_handler o,
                          used b1)).
  { rewrite Hu1. apply (op_walk_iter o buffer b1); [done|done|lia|].
    cbv zeta. rewrite <- Hu1, <- Ht'.
    apply (take_le_eq _ _ _ (Z.to_nat (used buffer'))); [lia|done]. }
  cbn [walk_loop length effects]. rewrite Hiter. cbn [mbind option_bind].
  destruct rest as [|o' rest'].
  - injection H as <-.
    replace (used b1 <? used b1) with false by (symmetry; apply Z.ltb_irrefl).
    eexists. split; [reflexivity|done].
  - assert (0 < ops_total (o' :: rest')).
    { cbn [enqueue_all] in H.
      destruct (op_body o' b1) as [b2|] eqn:Ho'; [|done].
      cbn [mbind option_bind] in H.
      pose proof (op_used _ _ _ Ho') as [_ Hs'].
      pose proof (enqueue_all_total _ _ _ H).
      cbn [ops_total foldr]. fold (ops_total rest'). lia. }
    replace (used b1 <? used buffer') with true
      by (symmetry; apply Z.ltb_lt; lia).
    destruct (IH b1 buffer' mem (op_effect o (used buffer + psz + 4) w))
      as (its & Hw & Hh); [done|done|done|done|lia|done|].
    rewrite Hw. cbn [mbind option_bind]. eexists. split.
    + by rewrite <- Hu1.
    + cbn [map fst snd]. by rewrite Hh.
Qed.

(** Enqueue, then drain: after a sequence of operations of the producer
    interface on an empty arena, the walk calls the records of the
    operations in the order of the operations, one iteration each, with
    the callables and values as they were given, and resets [used]. *)
Theorem enqueue_then_walk (ops : list producer_op)
  (buffer buffer' : queue_buffer_t) (w : World) :
  arena_ok buffer -> used buffer = 0 ->
  ops <> [] -> Forall op_ok ops ->
  ops_total ops < 2 ^ 32 ->
  enqueue_all ops buffer = Some buffer' ->
  exists its,
    walk (length ops) buffer' w
    = Some (mk_buffer (commands buffer') (size buffer') 0,
            effects ops 0 w, its) /\
    map (fun it => it.1.2) its = map op_handler ops.
Proof.
  intros Hok Hu Hne Hops Hsum H.
  destruct (enqueue_all_walk ops buffer buffer' (commands buffer') w)
    as (its & Hw & Hh); [done|done|done|done|lia|done|].
  rewrite Hu in Hw. exists its. split; [|done].
  unfold walk. rewrite Z.add_0_l, Hw. done.
Qed.

(** ** Ownership of the arenas *)

Lemma occ_same b : occ b (Some b) = 1%nat.
Proof. unfold occ. by rewrite decide_True. Qed.

Lemma held_two b (ps : list producer) i j p q :
  i <> j -> ps !! i = Some p -> ps !! j = Some q ->
  (occ b (producer_held p) + occ b (producer_held q)
   <= occurrences b (map producer_held ps))%nat.
Proof.
  intros Hne Hi Hj.
  pose proof (held_insert b _ _ _ (with_pc p P_idle) Hi) as Hins.
  assert (Hj' : <[i := with_pc p P_idle]> ps !! j = Some q)
    by (by rewrite list_lookup_insert_ne).
  pose proof (held_lookup b _ _ _ Hj').
  change (producer_held (with_pc p P_idle)) with (@None buf_id) in Hins.
  rewrite occ_None in Hins. lia.
Qed.

Lemma conserved_exclusive s :
  conserved s ->
  (forall i p b,
     producers s !! i = Some p -> producer_held p = Some b ->
     primary s <> Some b /\ secondary s <> Some b /\
     worker_held (worker s) <> Some b /\
     forall j q, j <> i -> producers s !! j = Some q ->
                 producer_held q <> Some b) /\
  (forall b, worker_held (worker s) = Some b ->
     primary s <> Some b /\ secondary s <> Some b) /\
  (forall b, primary s = Some b -> secondary s <> Some b).
Proof.
  intros Hc.
  assert (Hcount : forall b, count b s = 1%nat).
  { apply conserved_count in Hc as [? ?]. by intros []. }
  split; [|split].
  - intros i p b Hi Hb. specialize (Hcount b). unfold count in Hcount.
    pose proof (held_lookup b _ _ _ Hi) as Hl.
    rewrite Hb, occ_same in Hl.
    repeat split.
    + intros E. rewrite E, occ_same in Hcount. lia.
    + intros E. rewrite E, occ_same in Hcount. lia.
    + intros E. rewrite E, occ_same in Hcount. lia.
    + intros j q Hne Hj E.
      pose proof (held_two b _ _ _ _ _ Hne Hj Hi) as H2.
      rewrite E, Hb, !occ_same in H2. lia.
  - intros b Hb. specialize (Hcount b). unfold count in Hcount.
    rewrite Hb, occ_same in Hcount.
    split; intros E; rewrite E, occ_same in Hcount; lia.
  - intros b Hb E. specialize (Hcount b). unfold count in Hcount.
    rewrite Hb, E, occ_same in Hcount. lia.
Qed.

(** No arena is shared: in every reachable state an arena that a producer
    holds is in neither slot, is not held by the worker and by no other
    producer; an arena that the worker holds is in neither slot; and the
    two slots never hold the same arena. *)
Theorem exclusive_ownership (s : State) :
  reachable s ->
  (forall i p b,
     producers s !! i = Some p -> producer_held p = Some b ->
     primary s <> Some b /\ secondary s <> Some b /\
     worker_held (worker s) <> Some b /\
     forall j q, j <> i -> producers s !! j = Some q ->
                 producer_held q <> Some b) /\
  (forall b, worker_held (worker s) = Some b ->
     primary s <> Some b /\ secondary s <> Some b) /\
  (forall b, primary s = Some b -> secondary s <> Some b).
Proof.
  intros (size_ & threads & w & schedule & Hr).
  apply conserved_exclusive.
  by apply (run_inv schedule _ _ (init_inv size_ threads w)) in Hr as [? _].
Qed.

(** ** The arena in the hands of the worker *)

Lemma worker_ok_ext s s' :
  worker s' = worker s -> secondary s' = secondary s ->
  shutdown s' = shutdown s ->
  buffer0 s' = buffer0 s -> buffer1 s' = buffer1 s ->
  worker_ok s -> worker_ok s'.
Proof.
  intros Hw Hsec Hsh H0 H1. unfold worker_ok. rewrite Hw, Hsec, Hsh.
  assert (Hb : forall b, get_buffer b s' = get_buffer b s)
    by (intros []; cbn; congruence).
  destruct (worker s); try done.
  - intros (b & ? & ?). exists b. by rewrite Hb.
  - intros (b & ? & ?). exists b. by rewrite Hb.
  - by rewrite Hb.
  - by rewrite Hb.
  - by rewrite Hb.
Qed.

Lemma worker_ok_notify s : worker_ok s -> worker_ok (notify_one s).
Proof.
  unfold notify_one, worker_ok.
  destruct (worker s) as [|held| |b|b base_addr end_|b|b] eqn:Hw; cbn;
    rewrite ?Hw; try done.
  intros Hu. exists b. split; [done|]. by destruct b.
Qed.

(** A producer that fills the arena it holds does not touch the arena of
    the worker, nor the arena in [secondary]. *)
Lemma worker_ok_fill s i p b buffer' :
  exchange_inv s -> worker_ok s ->
  producers s !! i = Some p -> producer_held p = Some b ->
  worker_ok (set_buffer b buffer' s).
Proof.
  intros [Hc _] Hok Hi Hb.
  destruct (conserved_exclusive s Hc) as (Hex & _ & _).
  destruct (Hex i p b Hi Hb) as (_ & Hsec & Hw & _).
  assert (Hother : forall b', b' <> b ->
            get_buffer b' (set_buffer b buffer' s) = get_buffer b' s)
    by (intros [] ?; destruct b; done).
  unfold worker_ok in *.
  replace (worker (set_buffer b buffer' s)) with (worker s) by (by destruct b).
  replace (secondary (set_buffer b buffer' s)) with (secondary s)
    by (by destruct b).
  replace (shutdown (set_buffer b buffer' s)) with (shutdown s)
    by (by destruct b).
  destruct (worker s) as [|held| |b0|b0 base_addr end_|b0|b0]; cbn in Hw;
    try done.
  - destruct Hok as (b1 & Hs1 & Hu1). exists b1. split; [done|].
    rewrite Hother; [done|congruence].
  - destruct Hok as (b1 & -> & Hu1). exists b1. split; [done|].
    rewrite Hother; [done|congruence].
  - rewrite Hother; [done|congruence].
  - rewrite Hother; [done|congruence].
  - rewrite Hother; [done|congruence].
Qed.

Lemma producer_step_worker_ok i p s s' :
  exchange_inv s -> worker_ok s -> producers s !! i = Some p ->
  producer_step i p s = Some s' -> worker_ok s'.
Proof.
  intros Hinv Hok Hl Hs. unfold producer_step in Hs.
  assert (Hheld : producer_held p
                  = match ppc p with
                    | P_fill b _ _ | P_release b _ | P_store b _ => Some b
                    | _ => None
                    end) by done.
  assert (Hpend : pending p = match ppc p with P_store _ _ => true | _ => false end)
    by done.
  destruct (ppc p) as [|body j|b body j|b j|b j|j|] eqn:Hpc.
  - destruct (program p) as [|[body|] rest]; [done| |]; injection Hs as <-;
      by apply (worker_ok_ext s).
  - unfold acquireBuffer_try, exchange_primary in Hs.
    destruct (primary s); injection Hs as <-; by apply (worker_ok_ext s).
  - destruct (body (get_buffer b s)) as [buffer'|]; [|done].
    cbn [mbind option_bind] in Hs. injection Hs as <-.
    apply (worker_ok_ext (set_buffer b buffer' s)); [done..|].
    by apply (worker_ok_fill s i p).
  - unfold compare_exchange_primary in Hs.
    destruct (primary s); injection Hs as <-; by apply (worker_ok_ext s).
  - injection Hs as <-.
    destruct (proj2 Hinv i p Hl) as [Hsec _]; [by rewrite Hpend|].
    unfold worker_ok in *. cbn.
    destruct (worker s) as [|held| |b0|b0 base_addr end_|b0|b0]; try done.
    destruct Hok as (b1 & Hs1 & _). congruence.
  - injection Hs as <-.
    apply (worker_ok_ext (notify_one s)); [done..|].
    by apply worker_ok_notify.
  - destruct (heap (world s) (done_addr p) =? 0); [done|]. injection Hs as <-.
    by apply (worker_ok_ext s).
Qed.

Lemma worker_step_worker_ok s s' :
  worker_ok s -> worker_step s = Some s' -> worker_ok s'.
Proof.
  intros Hok Hs. unfold worker_step in Hs. unfold worker_ok in Hok.
  destruct (worker s) as [|held| |b|b base_addr end_|b|b] eqn:Hw; [..|done|done].
  - cbn in Hs. injection Hs as <-. destruct Hok as (b & Hsec & Hu).
    unfold worker_ok. cbn. exists b. split; [done|]. by destruct b.
  - cbn in Hs. injection Hs as <-. unfold worker_ok. cbn.
    by destruct (primary s).
  - cbn in Hs. injection Hs as <-. unfold worker_ok. cbn.
    by destruct (secondary s).
  - destruct (used (get_buffer b s) =? 0) eqn:Hu; cbn [negb] in Hs.
    + apply Z.eqb_eq in Hu.
      destruct (shutdown s) eqn:Hsh; injection Hs as <-; unfold worker_ok; cbn;
        destruct b; done.
    + apply Z.eqb_neq in Hu. injection Hs as <-. unfold worker_ok. cbn.
      destruct b; cbn in *; split; (done || lia).
  - destruct (walk_iter _ _ _) as [[[w' h] next]|]; [|done].
    cbn [mbind option_bind] in Hs.
    destruct (next <? end_); injection Hs as <-; unfold worker_ok; cbn.
    + by destruct b.
    + exists b. split; [done|]. by destruct b.
Qed.

Lemma step_worker_ok a s s' :
  exchange_inv s -> worker_ok s -> step a s = Some s' -> worker_ok s'.
Proof.
  intros Hinv Hok Hs. destruct a as [i| | |]; cbn [step] in Hs.
  - destruct (producers s !! i) as [p|] eqn:Hl; [|done].
    by apply (producer_step_worker_ok i p s).
  - by apply (worker_step_worker_ok s).
  - unfold spurious_step in Hs. unfold worker_ok in *.
    destruct (worker s) as [|held| |b|b base_addr end_|b|b] eqn:Hw; try done.
    injection Hs as <-. cbn. exists b. split; [done|]. by destruct b.
  - unfold destructor_step in Hs.
    destruct (destructor s); [| |done]; injection Hs as <-.
    + unfold worker_ok in *. cbn.
      destruct (worker s) as [|held| |b|b base_addr end_|b|b]; try done.
      destruct Hok as [Hu _]. split; [|done]. by destruct b.
    + apply (worker_ok_ext (notify_one s)); [done..|].
      by apply worker_ok_notify.
Qed.

Lemma run_worker_ok schedule : forall s s',
  exchange_inv s -> worker_ok s -> run schedule s = Some s' -> worker_ok s'.
Proof.
  induction schedule as [|a rest IH]; intros s s' Hinv Hok Hr; cbn [run] in Hr.
  - by injection Hr as <-.
  - destruct (step a s) as [s1|] eqn:Hs; [|done].
    cbn [mbind option_bind] in Hr.
    apply (IH s1); [by apply (step_inv a s)|by apply (step_worker_ok a s)|done].
Qed.

(** The worker and its arena: in every reachable state the buffer the
    worker is about to put into [primary] is an arena, not null, and
    empty; the worker sleeps in [cvDequeue.wait] and leaves its loop only
    with an empty arena in hand, and leaves only after [shutdown] was set;
    and it walks only an arena that is not empty, up to its [used]. *)
Theorem worker_arena (s : State) : reachable s -> worker_ok s.
Proof.
  intros (size_ & threads & w & schedule & Hr).
  apply (run_worker_ok schedule _ _ (init_inv size_ threads w)) in Hr; [done|].
  unfold worker_ok, init. cbn. by exists B1.
Qed.

(** ** The arenas of a running queue *)

Lemma malloc_ok size_ : 0 <= size_ -> arena_ok (mk_buffer (malloc size_) size_ 0).
Proof.
  intros H. split; cbn; [|lia].
  unfold malloc, len. rewrite length_replicate. lia.
Qed.

Lemma join_body_ok done : body_ok (join_body done).
Proof.
  exists (Op_execute join_stub_addr (le_encode ptr_size join_cb_addr)
            [le_encode ptr_size this_addr; le_encode ptr_size done]).
  reflexivity.
Qed.

Lemma arenas_ok_producer s i p' s' :
  arenas_ok s ->
  buffer0 s' = buffer0 s -> buffer1 s' = buffer1 s ->
  producers s' = <[i := p']> (producers s) ->
  producer_wf p' ->
  arenas_ok s'.
Proof.
  intros (H0 & H1 & Hp) E0 E1 Eps Hwf. unfold arenas_ok.
  rewrite E0, E1, Eps. split; [done|]. split; [done|].
  intros j q Hj.
  apply list_lookup_insert_Some in Hj as [(-> & <- & _)|[_ Hj]]; [done|].
  by apply (Hp j).
Qed.

Lemma arenas_ok_frame s s' :
  arenas_ok s ->
  buffer0 s' = buffer0 s -> buffer1 s' = buffer1 s ->
  producers s' = producers s ->
  arenas_ok s'.
Proof.
  intros (H0 & H1 & Hp) E0 E1 Eps. unfold arenas_ok.
  by rewrite E0, E1, Eps.
Qed.

Lemma arenas_ok_get s b : arenas_ok s -> arena_ok (get_buffer b s).
Proof. intros (H0 & H1 & _). by destruct b. Qed.

Lemma step_arenas_ok a s s' : arenas_ok s -> step a s = Some s' -> arenas_ok s'.
Proof.
  intros Hok Hs. destruct a as [i| | |]; cbn [step] in Hs.
  - destruct (producers s !! i) as [p|] eqn:Hl; [|done].
    cbn [mbind option_bind] in Hs. unfold producer_step in Hs.
    destruct (proj2 (proj2 Hok) i p Hl) as [Hprog Hpc].
    destruct (ppc p) as [|body j|b body j|b j|b j|j|] eqn:Epc.
    + destruct (program p) as [|[body|] rest] eqn:Eprog; [done| |];
        injection Hs as <-; apply Forall_cons in Hprog as [Ho Hrest].
      * by apply (arenas_ok_producer s i
                    (mk_producer (P_acquire body false) rest (done_addr p)
                       (completed p))).
      * apply (arenas_ok_producer s i
                 (mk_producer (P_acquire (join_body (done_addr p)) true) rest
                    (done_addr p) (completed p))); try done.
        split; [done|]. apply join_body_ok.
    + unfold acquireBuffer_try, exchange_primary in Hs.
      destruct (primary s) as [b|]; injection Hs as <-.
      * by apply (arenas_ok_producer s i (with_pc p (P_fill b body j))).
      * by apply (arenas_ok_frame s).
    + destruct (body (get_buffer b s)) as [buffer'|] eqn:Hb; [|done].
      cbn [mbind option_bind] in Hs. injection Hs as <-.
      destruct Hpc as [o ->].
      destruct (op_appends o _ _ (arenas_ok_get s b Hok) Hb) as [Hok' _].
      destruct Hok as (H0 & H1 & Hp).
      split; [by destruct b|]. split; [by destruct b|].
      intros k q Hk.
      replace (producers (set_producer i (with_pc p (P_release b j))
                            (set_buffer b buffer' s)))
        with (<[i := with_pc p (P_release b j)]> (producers s)) in Hk
        by (by destruct b).
      apply list_lookup_insert_Some in Hk as [(-> & <- & _)|[_ Hk]]; [done|].
      by apply (Hp k).
    + unfold compare_exchange_primary in Hs.
      destruct (primary s); injection Hs as <-.
      * by apply (arenas_ok_producer s i (with_pc p (P_store b j))).
      * by apply (arenas_ok_producer s i (with_pc p (P_notify j))).
    + injection Hs as <-.
      by apply (arenas_ok_producer s i (with_pc p (P_notify j))).
    + injection Hs as <-.
      apply (arenas_ok_producer s i (if j then with_pc p P_wait else finish p));
        try (unfold notify_one; by destruct (worker s)).
      by destruct j.
    + destruct (heap (world s) (done_addr p) =? 0); [done|]. injection Hs as <-.
      by apply (arenas_ok_producer s i (finish p)).
  - unfold worker_step in Hs.
    destruct (worker s) as [|held| |b|b base_addr end_|b|b]; [..|done|done].
    + injection Hs as <-. by apply (arenas_ok_frame s).
    + injection Hs as <-. by apply (arenas_ok_frame s).
    + injection Hs as <-. by apply (arenas_ok_frame s).
    + destruct (negb _); [|destruct (shutdown s)]; injection Hs as <-;
        by apply (arenas_ok_frame s).
    + destruct (walk_iter _ _ _) as [[[w' h] next]|]; [|done].
      cbn [mbind option_bind] in Hs.
      destruct (next <? end_); injection Hs as <-;
        [by apply (arenas_ok_frame s)|].
      pose proof (arenas_ok_get s b Hok) as [Hlen Hu].
      destruct Hok as (H0 & H1 & Hp).
      assert (Hnew : arena_ok (mk_buffer (commands (get_buffer b s))
                                 (size (get_buffer b s)) 0))
        by (split; cbn; [done|lia]).
      split; [by destruct b|]. split; [by destruct b|]. by destruct b.
  - unfold spurious_step in Hs. destruct (worker s); try done.
    injection Hs as <-. by apply (arenas_ok_frame s).
  - unfold destructor_step in Hs.
    destruct (destructor s); [| |done]; injection Hs as <-.
    + by apply (arenas_ok_frame s).
    + apply (arenas_ok_frame s); try done; unfold notify_one;
        by destruct (worker s).
Qed.

Lemma run_arenas_ok schedule : forall s s',
  arenas_ok s -> run schedule s = Some s' -> arenas_ok s'.
Proof.
  induction schedule as [|a rest IH]; intros s s' Hok Hr; cbn [run] in Hr.
  - by injection Hr as <-.
  - destruct (step a s) as [s1|] eqn:Hs; [|done].
    cbn [mbind option_bind] in Hr.
    eapply IH; [|done]. by apply (step_arenas_ok a s).
Qed.

(** The arenas stay well formed: in a queue made by [init] with any
    capacity, whose producer threads, any number of them, call the enqueue
    operations of the interface and [join], in every state that the steps
    of the threads reach each arena has a block of [size] bytes and
    [used <= size]. *)
Theorem arenas_well_formed (size_ : Z) (threads : list (list op * Z))
  (w : World) (schedule : list action) (s : State) :
  0 <= size_ ->
  Forall (fun t => Forall op_wf t.1) threads ->
  run schedule (init size_ threads w) = Some s ->
  arena_ok (buffer0 s) /\ arena_ok (buffer1 s).
Proof.
  intros Hsize Hthreads Hr.
  apply run_arenas_ok in Hr as (H0 & H1 & _); [done|].
  split; [by apply malloc_ok|]. split; [by apply malloc_ok|].
  intros i p Hl. unfold init in Hl. cbn [producers] in Hl.
  apply list_lookup_fmap_Some_1 in Hl as (t & -> & Ht).
  split; [|done]. cbn [program].
  by apply (Forall_lookup_1 _ _ _ _ Hthreads Ht).
Qed.

(** ** A queue fed by one thread *)

Lemma ops_total_app A B : ops_total (A ++ B) = ops_total A + ops_total B.
Proof.
  induction A as [|o A IH]; [done|].
  cbn [app]. unfold ops_total in *. cbn [foldr]. lia.
Qed.

Lemma ops_total_nonneg L :
  Forall (fun o => 0 <= op_size o) L -> 0 <= ops_total L.
Proof.
  induction 1 as [|o L Ho _ IH]; [done|]. cbn beta in Ho.
  unfold ops_total in *. cbn [foldr]. unfold psz in *. lia.
Qed.

Lemma ops_total_pos o L :
  Forall (fun o => 0 <= op_size o) (o :: L) -> 0 < ops_total (o :: L).
Proof.
  intros H. apply Forall_cons in H as [Ho HL]. cbn beta in Ho.
  apply ops_total_nonneg in HL.
  unfold ops_total in *. cbn [foldr]. unfold psz in *. lia.
Qed.

Lemma effects_app A : forall B base w,
  effects (A ++ B) base w = effects B (base + ops_total A) (effects A base w).
Proof.
  induction A as [|o A IH]; intros B base w.
  - cbn. by rewrite Z.add_0_r.
  - cbn [app effects]. rewrite IH. f_equal.
    unfold ops_total. cbn [foldr]. lia.
Qed.

Lemma executed_app batches B w :
  executed (batches ++ [B]) w = effects B 0 (executed batches w).
Proof. unfold executed. by rewrite fold_left_app. Qed.

Lemma enqueue_all_app A : forall B buffer buffer',
  enqueue_all (A ++ B) buffer = Some buffer' <->
  exists mid, enqueue_all A buffer = Some mid /\ enqueue_all B mid = Some buffer'.
Proof.
  induction A as [|o A IH]; intros B buffer buffer'; cbn [app enqueue_all].
  - split; [by exists buffer|]. by intros (mid & [= <-] & H).
  - destruct (op_body o buffer) as [b1|]; cbn [mbind option_bind].
    + apply IH.
    + split; [done|]. by intros (mid & ? & _).
Qed.

Lemma enqueue_all_sizes L : forall buffer buffer',
  enqueue_all L buffer = Some buffer' -> Forall (fun o => 0 <= op_size o) L.
Proof.
  induction L as [|o L IH]; intros buffer buffer' H; [done|].
  cbn [enqueue_all] in H.
  destruct (op_body o buffer) as [b1|] eqn:Ho; [|done].
  cbn [mbind option_bind] in H.
  constructor; [by destruct (op_used _ _ _ Ho)|by eapply IH].
Qed.

Lemma holds_sizes buffer L : holds buffer L -> Forall (fun o => 0 <= op_size o) L.
Proof. intros (_ & _ & b0 & _ & _ & H). by eapply enqueue_all_sizes. Qed.

Lemma holds_used buffer L :
  holds buffer L -> arena_ok buffer /\ used buffer = ops_total L.
Proof.
  intros (_ & Hlt & b0 & Hok & Hu & H).
  destruct (enqueue_all_spec L b0 buffer Hok H) as (H1 & H2 & _); [lia|].
  split; [done|lia].
Qed.

Lemma holds_empty buffer L : holds buffer L -> used buffer = 0 -> L = [].
Proof.
  intros H Hu. destruct (holds_used _ _ H) as [_ Hu'].
  destruct L as [|o L]; [done|].
  pose proof (ops_total_pos o L (holds_sizes _ _ H)). lia.
Qed.

Lemma holds_nil buffer : arena_ok buffer -> used buffer = 0 -> holds buffer [].
Proof.
  intros Hok Hu. split; [done|]. split; [done|]. by exists buffer.
Qed.

Lemma holds_reset buffer L :
  holds buffer L -> holds (mk_buffer (commands buffer) (size buffer) 0) [].
Proof.
  intros H. destruct (holds_used _ _ H) as [[Hlen Hu] _].
  apply holds_nil; [|done]. split; cbn; [done|lia].
Qed.

Lemma holds_snoc buffer buffer' L o :
  holds buffer L -> op_body o buffer = Some buffer' ->
  op_ok o -> ops_total (L ++ [o]) < 2 ^ 32 ->
  holds buffer' (L ++ [o]).
Proof.
  intros (HL & _ & b0 & Hok & Hu & H) Ho Hoo Hlt.
  split; [apply Forall_app; by split; [|constructor]|]. split; [done|].
  exists b0. split; [done|]. split; [done|].
  apply enqueue_all_app. exists buffer. split; [done|].
  cbn [enqueue_all]. by rewrite Ho.
Qed.

(** The iteration of the worker on a record in the middle of an arena. *)
Lemma holds_walk_iter buffer D o R w :
  holds buffer (D ++ o :: R) ->
  walk_iter (commands buffer) (ops_total D) w
  = Some (op_effect o (ops_total D + psz + 4) w, op_handler o,
          ops_total D + (psz + 4 + op_size o)).
Proof.
  intros H. pose proof (holds_sizes _ _ H) as Hsz.
  assert (Hp : 0 <= psz) by (unfold psz; lia).
  destruct H as (HL & Hlt & b0 & Hok & Hu & H).
  apply Forall_app in HL as [_ HL]. apply Forall_cons in HL as [Ho _].
  apply Forall_app in Hsz as [HszD Hsz].
  pose proof (ops_total_nonneg _ HszD) as HD.
  apply Forall_cons in Hsz as [Hso HszR].
  pose proof (ops_total_nonneg _ HszR) as HR.
  rewrite ops_total_app in Hlt.
  assert (Hcons : ops_total (o :: R) = psz + 4 + op_size o + ops_total R) by done.
  rewrite Hcons in Hlt.
  apply enqueue_all_app in H as (bD & HbD & H).
  cbn [enqueue_all] in H.
  destruct (op_body o bD) as [b1|] eqn:Hb1; [|done].
  cbn [mbind option_bind] in H.
  destruct (enqueue_all_spec D b0 bD Hok HbD) as (HokD & HuD & _); [lia|].
  rewrite Hu, Z.add_0_l in HuD.
  assert (H1 : enqueue_all [o] bD = Some b1) by (cbn; by rewrite Hb1).
  assert (Hone : ops_total [o] = psz + 4 + op_size o)
    by (unfold ops_total; cbn [foldr]; lia).
  destruct (enqueue_all_spec [o] bD b1 HokD H1) as (Hok1 & Hu1 & _);
    [rewrite Hone; lia|].
  rewrite Hone in Hu1.
  destruct (enqueue_all_spec R b1 buffer Hok1 H) as (_ & _ & Htake & _); [lia|].
  rewrite <- HuD.
  apply (op_walk_iter o bD b1); [done|done|lia|].
  cbn zeta. by rewrite <- Hu1.
Qed.

Lemma slot_ops_update L b v slot :
  slot <> Some b -> slot_ops (update L b v) slot = slot_ops L slot.
Proof.
  destruct slot as [b'|]; [|done]. intros H. cbn. unfold update.
  destruct (decide (b' = b)); congruence.
Qed.

Lemma worker_ops_update L b v D pc :
  worker_held pc <> Some b -> worker_ops (update L b v) D pc = worker_ops L D pc.
Proof.
  destruct pc; cbn; try done; intros H; unfold update;
    destruct (decide (_ = b)); congruence.
Qed.

Lemma update_same L b v : update L b v b = v.
Proof. unfold update. by destruct (decide (b = b)). Qed.

Lemma update_other L b v b' : b' <> b -> update L b v b' = L b'.
Proof. unfold update. by destruct (decide (b' = b)). Qed.

(** The calls a record makes do not depend on the heap. *)
Lemma calls_op_effect o data w1 w2 :
  calls w1 = calls w2 ->
  calls (op_effect o data w1) = calls (op_effect o data w2).
Proof.
  intros E.
  assert (Hcall : forall function args,
            calls (call function args w1).1 = calls (call function args w2).1).
  { intros function args. unfold call.
    destruct (decide (function = le_encode ptr_size join_cb_addr)); cbn;
      [|by rewrite E].
    unfold join_cb. by destruct args as [|? [|? [|? ?]]]. }
  destruct o as [stub f args|stub f ret args|f args|f src n];
    cbn [op_effect calls]; [apply Hcall| |by rewrite E..].
  destruct (code stub) as [[| |]|]; try done.
  unfold return_to. rewrite !call_returned.
  destruct (convert _ _ _); cbn; [apply Hcall|done].
Qed.

Lemma heap_set_done d w : heap (set_done d 0 w) d = 0.
Proof.
  unfold set_done, heap_store. cbn [heap]. change (len [0]) with 1.
  rewrite Z.leb_refl.
  replace (d <? d + 1) with true by (symmetry; apply Z.ltb_lt; lia).
  cbn [andb]. by rewrite Z.sub_diag.
Qed.

Lemma fence_ok_step d j o pend data w :
  fence_ok d j (o :: pend) w -> fence_ok d j pend (op_effect o data w).
Proof.
  unfold fence_ok. destruct j.
  - intros [?|(P0 & E & Hq & Hh)]; [done|].
    destruct P0 as [|o0 P0]; cbn [app] in E; injection E as -> ->; [by left|].
    apply Forall_cons in Hq as [Ho Hq]. right. exists P0.
    split; [done|]. split; [done|]. by rewrite Ho.
  - intros H. by apply Forall_cons in H as [_ H].
Qed.

Lemma notify_one_facts s :
  producers (notify_one s) = producers s /\
  primary (notify_one s) = primary s /\
  secondary (notify_one s) = secondary s /\
  world (notify_one s) = world s /\
  (forall b, get_buffer b (notify_one s) = get_buffer b s) /\
  (forall L D, worker_ops L D (worker (notify_one s)) = worker_ops L D (worker s)) /\
  (forall L D, walk_ok L D (worker s) -> walk_ok L D (worker (notify_one s))).
Proof.
  unfold notify_one.
  destruct (worker s) eqn:Ew; cbn; rewrite ?Ew;
    (split_and!; [done..|by intros []|done|done]).
Qed.

(** Equations between concatenations, up to associativity and empty
    lists. *)
Ltac list_eq :=
  repeat (rewrite <- ?app_assoc; cbn [app]; rewrite ?app_nil_r); done.

Section Fifo.

Variables (items : list (option producer_op)) (done : Z) (w0 : World).
Hypothesis Hops : Forall op_ok (records done items).
Hypothesis Hsizes : Forall (fun o => 0 <= op_size o) (records done items).
Hypothesis Htotal : ops_total (records done items) < 2 ^ 32.

Lemma segment_ok A B C :
  records done items = A ++ B ++ C -> Forall op_ok B /\ ops_total B < 2 ^ 32.
Proof.
  intros E. pose proof Hops as H1. pose proof Hsizes as H2.
  pose proof Htotal as H3. rewrite E in H1, H2, H3.
  apply Forall_app in H1 as [_ H1]. apply Forall_app in H1 as [H1 _].
  apply Forall_app in H2 as [HA H2]. apply Forall_app in H2 as [HB HC].
  rewrite !ops_total_app in H3.
  apply ops_total_nonneg in HA, HB, HC. split; [done|lia].
Qed.

(** A step that calls no record and neither starts nor ends an operation. *)
Lemma fifo_keep s s' L L' batches D F F' rest p p' :
  fifo_inv items done w0 s L batches D F rest p ->
  producers s' = [p'] ->
  program p' = program p -> done_addr p' = done_addr p ->
  completed p' = completed p ->
  busy (ppc p') = busy (ppc p) -> joining (ppc p') = joining (ppc p) ->
  match ppc p' with
  | P_acquire body _ | P_fill _ body _ => exists o, body = op_body o /\ F' = [o]
  | _ => F' = []
  end ->
  (forall b, holds (get_buffer b s') (L' b)) ->
  world s' = world s ->
  walk_ok L' D (worker s') ->
  pending_ops L' D F' s' p' = pending_ops L D F s p ->
  (forall b X, producer_held p' = Some b -> primary s' = Some X -> L' X = []) ->
  fifo_ok items done w0 s'.
Proof.
  intros (Hps & [Hprog Hdone] & Hpc & Hholds & [Hcalls Hworld] & Hwalk & Hsum
          & Hprim & (made & Hmade & Hlen & HM) & HJ)
    E1 E2 E3 E4 E5 E6 Hpc' Hholds' Ew Hwalk' Hpend' Hprim'.
  exists L', batches, D, F', rest, p'. unfold fifo_inv.
  rewrite E2, E3, E4, E5, E6, Ew, Hpend'.
  split; [done|]. split; [done|]. split; [done|]. split; [done|].
  split; [done|]. split; [done|]. split; [done|]. split; [done|].
  split; [by exists made|done].
Qed.

Lemma producer_step_fifo s s' L batches D F rest p :
  exchange_inv s ->
  fifo_inv items done w0 s L batches D F rest p ->
  producer_step 0 p s = Some s' -> fifo_ok items done w0 s'.
Proof.
  intros [Hc Hpend] Hinv Hs.
  pose proof Hinv as
    (Hps & [Hprog Hdone] & Hpc & Hholds & [Hcalls Hworld] & Hwalk & Hsum
     & Hprim & (made & Hmade & Hlen & HM) & HJ).
  assert (Hl : producers s !! 0%nat = Some p) by (by rewrite Hps).
  destruct (conserved_exclusive s Hc) as (Hex & Hexw & Hexp).
  unfold producer_step in Hs.
  assert (Hheld : producer_held p
                  = match ppc p with
                    | P_fill b _ _ | P_release b _ | P_store b _ => Some b
                    | _ => None
                    end) by done.
  assert (Hpe : pending p = match ppc p with P_store _ _ => true | _ => false end)
    by done.
  destruct (ppc p) as [|body j|b body j|b j|b j|j|] eqn:Epc.
  - (* the next item of the program *)
    subst F. rewrite Hprog in Hs.
    destruct rest as [|[o|] rest']; cbn [map item_program] in Hs; [done| |];
      injection Hs as <-.
    + assert (Hpend' :
        pending_ops L D [o]
          (set_producer 0
             (mk_producer (P_acquire (op_body o) false)
                (map item_program rest') (done_addr p) (completed p)) s)
          (mk_producer (P_acquire (op_body o) false)
             (map item_program rest') (done_addr p) (completed p))
        = pending_ops L D [] s p ++ [o]).
      { unfold pending_ops. cbn. rewrite Hheld. list_eq. }
      exists L, batches, D, [o], rest',
        (mk_producer (P_acquire (op_body o) false) (map item_program rest')
           (done_addr p) (completed p)).
      unfold fifo_inv. rewrite Hpend'.
      split; [cbn; by rewrite Hps|]. split; [by split|].
      split; [by exists o|]. split; [intros []; apply Hholds|].
      split; [done|]. split; [done|].
      split; [rewrite Hsum; cbn [records map item_op]; list_eq|].
      split; [done|]. split.
      { exists (made ++ [Some o]). split; [rewrite Hmade; list_eq|].
        split; [rewrite length_app, Hlen; cbn; lia|].
        intros _. exists made, (Some o). split; [done|].
        cbn. split; intros [=]. }
      intros Hq. destruct (HJ Hq) as [Hf Hk]. split; [|done].
      unfold fence_ok in *. cbn [joining ppc] in *.
      apply Forall_app. split; [done|]. constructor; [|done].
      rewrite Hmade in Hq. apply Forall_app in Hq as [_ Hq].
      by apply Forall_cons in Hq as [Hq _].
    + assert (Hpend' :
        pending_ops L D [join_op done]
          (set_producer 0
             (mk_producer (P_acquire (join_body (done_addr p)) true)
                (map item_program rest') (done_addr p) (completed p))
             (set_world (set_done (done_addr p) 0 (world s)) s))
          (mk_producer (P_acquire (join_body (done_addr p)) true)
             (map item_program rest') (done_addr p) (completed p))
        = pending_ops L D [] s p ++ [join_op done]).
      { unfold pending_ops. cbn. rewrite Hheld. list_eq. }
      exists L, batches, D, [join_op done], rest',
        (mk_producer (P_acquire (join_body (done_addr p)) true)
           (map item_program rest') (done_addr p) (completed p)).
      unfold fifo_inv. rewrite Hpend'.
      split; [cbn; by rewrite Hps|]. split; [by split|].
      split; [exists (join_op done); split; [by rewrite Hdone|done]|].
      split; [intros []; apply Hholds|].
      split.
      { split; [done|]. intros Hall. exfalso. rewrite Hmade in Hall.
        apply Forall_app in Hall as [_ Hall].
        by apply Forall_cons in Hall as [[? [=]] _]. }
      split; [done|].
      split; [rewrite Hsum; cbn [records map item_op]; list_eq|].
      split; [done|]. split.
      { exists (made ++ [None]). split; [rewrite Hmade; list_eq|].
        split; [rewrite length_app, Hlen; cbn; lia|].
        intros _. exists made, None. split; [done|]. by cbn. }
      intros Hq. destruct (HJ Hq) as [Hf Hk]. split; [|done].
      unfold fence_ok in *. cbn [joining ppc] in *.
      right. exists (pending_ops L D [] s p). split; [done|]. split; [done|].
      cbn [world set_producer set_producers set_world]. rewrite Hdone.
      apply heap_set_done.
  - (* one attempt of acquireBuffer *)
    destruct Hpc as (o & -> & ->).
    unfold acquireBuffer_try, exchange_primary in Hs.
    destruct (primary s) as [b|] eqn:Eprim; injection Hs as <-.
    + eapply (fifo_keep s _ L L batches D [o] [o] rest p
                (with_pc p (P_fill b (op_body o) j)) Hinv);
        [cbn; by rewrite Hps|done|done|done|by rewrite Epc|by rewrite Epc
        |by exists o|intros []; apply Hholds|done|done| |by intros ? ? _ [=]].
      unfold pending_ops. cbn. rewrite Hheld, Eprim. list_eq.
    + eapply (fifo_keep s _ L L batches D [o] [o] rest p p Hinv);
        [done|done|done|done|done|done|rewrite Epc; by exists o
        |intros []; apply Hholds|done|done| |by intros ? ? _ [=]].
      unfold pending_ops. cbn. by rewrite Eprim.
  - (* the body of the enqueue *)
    destruct Hpc as (o & -> & ->).
    destruct (op_body o (get_buffer b s)) as [buffer'|] eqn:Hb; [|done].
    cbn [mbind option_bind] in Hs. injection Hs as <-.
    destruct (Hex 0%nat p b Hl Hheld) as (Hnp & Hns & Hnw & _).
    unfold pending_ops in Hsum. rewrite Hheld in Hsum. cbn [slot_ops] in Hsum.
    assert (Hseg : records done items
                   = (concat batches ++ D ++ worker_ops L D (worker s)
                      ++ slot_ops L (secondary s) ++ slot_ops L (primary s))
                     ++ (L b ++ [o]) ++ records done rest).
    { rewrite Hsum. list_eq. }
    destruct (segment_ok _ _ _ Hseg) as [HokB Hlt].
    apply Forall_app in HokB as [_ Hoo]. apply Forall_cons in Hoo as [Hoo _].
    set (s' := set_producer 0 (with_pc p (P_release b j))
                 (set_buffer b buffer' s)).
    assert (E1 : producers s' = [with_pc p (P_release b j)])
      by (unfold s'; destruct b; cbn; by rewrite Hps).
    assert (E2 : worker s' = worker s) by (by destruct b).
    assert (E3 : secondary s' = secondary s) by (by destruct b).
    assert (E4 : primary s' = primary s) by (by destruct b).
    assert (E5 : world s' = world s) by (by destruct b).
    assert (E6 : get_buffer b s' = buffer') by (by destruct b).
    assert (E7 : forall b', b' <> b -> get_buffer b' s' = get_buffer b' s)
      by (intros b' Hne; by destruct b, b').
    eapply (fifo_keep s s' L (update L b (L b ++ [o])) batches D [o] [] rest p
              (with_pc p (P_release b j)) Hinv);
      [done|done|done|done|by rewrite Epc|by rewrite Epc|done| |done| | |].
    + intros b'. destruct (decide (b' = b)) as [->|Hne].
      * rewrite update_same, E6. by eapply holds_snoc.
      * rewrite update_other, E7 by done. apply Hholds.
    + rewrite E2. unfold walk_ok in *.
      destruct (worker s) as [|?| |?|bw ? ?|?|?]; try done.
      rewrite update_other; [done|]. intros ->. by apply Hnw.
    + unfold pending_ops. rewrite E2, E3, E4.
      rewrite worker_ops_update, !slot_ops_update by done.
      cbn [producer_held with_pc ppc slot_ops]. rewrite update_same, Hheld.
      cbn [slot_ops]. list_eq.
    + intros b0 X Hb0 HX. rewrite E4 in HX. rewrite update_other.
      * by apply (Hprim b X).
      * intros ->. by apply Hnp.
  - (* the exchange of releaseBuffer *)
    subst F. unfold compare_exchange_primary in Hs.
    destruct (primary s) as [X|] eqn:Eprim; injection Hs as <-.
    + eapply (fifo_keep s _ L L batches D [] [] rest p
                (with_pc p (P_store b j)) Hinv);
        [cbn; by rewrite Hps|done|done|done|by rewrite Epc|by rewrite Epc
        |done|intros []; apply Hholds|done|done| |].
      * unfold pending_ops. cbn. by rewrite Hheld.
      * cbn. rewrite Eprim. intros b0 X0 _ [= <-]. by apply (Hprim b).
    + eapply (fifo_keep s _ L L batches D [] [] rest p
                (with_pc p (P_notify j)) Hinv);
        [cbn; by rewrite Hps|done|done|done|by rewrite Epc|by rewrite Epc
        |done|intros []; apply Hholds|done|done| |by intros ? ? [=]].
      unfold pending_ops. cbn. rewrite Hheld, Eprim. list_eq.
  - (* the store into secondary *)
    subst F. injection Hs as <-.
    destruct (Hpend 0%nat p Hl) as [Hsec _]; [by rewrite Hpe|].
    assert (HP : slot_ops L (primary s) = []).
    { destruct (primary s) as [X|] eqn:Eprim; [|done]. by apply (Hprim b). }
    eapply (fifo_keep s _ L L batches D [] [] rest p
              (with_pc p (P_notify j)) Hinv);
      [cbn; by rewrite Hps|done|done|done|by rewrite Epc|by rewrite Epc
      |done|intros []; apply Hholds|done|done| |by intros ? ? [=]].
    unfold pending_ops. cbn. rewrite Hheld, Hsec. fold (slot_ops L (primary s)).
    rewrite HP. list_eq.
  - (* the notification *)
    subst F. injection Hs as <-.
    destruct (notify_one_facts s) as (N1 & N2 & N3 & N4 & N5 & N6 & N7).
    assert (Hpend' : forall p',
              producer_held p' = None ->
              pending_ops L D [] (set_producer 0 p' (notify_one s)) p'
              = pending_ops L D [] s p).
    { intros p' Hp'. unfold pending_ops.
      cbn [worker secondary primary set_producer set_producers].
      by rewrite N2, N3, N6, Hp', Hheld. }
    destruct j.
    + eapply (fifo_keep s _ L L batches D [] [] rest p (with_pc p P_wait) Hinv);
        [cbn; by rewrite N1, Hps|done|done|done|by rewrite Epc|by rewrite Epc
        |done| |done|by apply N7|by apply Hpend'|by intros ? ? [=]].
      intros b. pose proof (Hholds b) as Hb. rewrite <- (N5 b) in Hb.
      by destruct b.
    + exists L, batches, D, [], rest, (finish p).
      unfold fifo_inv. rewrite Hpend' by done.
      split; [cbn; by rewrite N1, Hps|]. split; [by split|]. split; [done|].
      split;
        [intros b; pose proof (Hholds b) as Hb; rewrite <- (N5 b) in Hb;
         by destruct b|].
      split; [by split; cbn; rewrite N4|].
      split; [by apply N7|]. split; [done|]. split; [done|]. split.
      { exists made. split; [done|]. split; [cbn in *; lia|]. intros [=]. }
      intros Hq. destruct (HJ Hq) as [Hf Hk]. split; [done|].
      intros k Hk1 Hk2. cbn [completed finish] in Hk1.
      destruct (decide (k = completed p)) as [->|Hne]; [|apply Hk; [lia|done]].
      exfalso. destruct HM as (made0 & it & -> & Hj); [done|].
      rewrite length_app in Hlen. cbn in Hlen.
      rewrite <- app_assoc in Hmade. rewrite Hmade in Hk2.
      rewrite lookup_app_r in Hk2 by lia.
      replace (completed p - length made0)%nat with 0%nat in Hk2 by lia.
      cbn in Hk2. injection Hk2 as ->. by destruct Hj as [_ Hj]; specialize (Hj eq_refl).
  - (* the wait of join *)
    subst F.
    destruct (heap (world s) (done_addr p) =? 0) eqn:Hd; [done|].
    apply Z.eqb_neq in Hd. injection Hs as <-.
    exists L, batches, D, [], rest, (finish p).
    assert (Hpend' : pending_ops L D [] (set_producer 0 (finish p) s) (finish p)
                     = pending_ops L D [] s p).
    { unfold pending_ops. cbn. by rewrite Hheld. }
    unfold fifo_inv. rewrite Hpend'.
    split; [cbn; by rewrite Hps|]. split; [by split|]. split; [done|].
    split; [intros []; apply Hholds|].
    split; [done|]. split; [done|]. split; [done|]. split; [done|]. split.
    { exists made. split; [done|]. split; [cbn in *; lia|]. intros [=]. }
    intros Hq. destruct (HJ Hq) as [Hf Hk].
    assert (Hnone : pending_ops L D [] s p = []).
    { unfold fence_ok in Hf. cbn [joining] in Hf.
      destruct Hf as [?|(P0 & _ & _ & Hz)]; [done|]. exfalso. apply Hd.
      by rewrite Hdone. }
    split; [rewrite Hnone; cbn; constructor|].
    intros k Hk1 Hk2. cbn [completed finish] in Hk1.
    destruct (decide (k = completed p)) as [->|Hne]; [|apply Hk; [lia|done]].
    rewrite Hnone in Hsum. cbn [app] in Hsum.
    apply (f_equal length) in Hsum. unfold records in Hsum.
    rewrite Hmade, !length_map, !length_app, !length_map in Hsum.
    rewrite length_app. cbn in Hlen. lia.
Qed.

Lemma worker_step_fifo s s' L batches D F rest p :
  exchange_inv s -> worker_ok s ->
  fifo_inv items done w0 s L batches D F rest p ->
  worker_step s = Some s' -> fifo_ok items done w0 s'.
Proof.
  intros [Hc Hpend] Hwok Hinv Hs.
  pose proof Hinv as
    (Hps & [Hprog Hdone] & Hpc & Hholds & [Hcalls Hworld] & Hwalk & Hsum
     & Hprim & (made & Hmade & Hlen & HM) & HJ).
  assert (Hl : producers s !! 0%nat = Some p) by (by rewrite Hps).
  destruct (conserved_exclusive s Hc) as (Hex & Hexw & Hexp).
  unfold worker_step in Hs. unfold worker_ok in Hwok. unfold walk_ok in Hwalk.
  destruct (worker s) as [|held| |b|b base_addr end_|b|b] eqn:Ew;
    [..|done|done].
  - (* the first exchange on secondary *)
    cbn in Hs. injection Hs as <-. destruct Hwok as (b & Hsec & Hu).
    pose proof (holds_empty _ _ (Hholds b) Hu) as HLb.
    eapply (fifo_keep s _ L L batches D F F rest p p Hinv);
      [done|done|done|done|done|done|done|intros []; apply Hholds|done|done|
      |done].
    unfold pending_ops. cbn. rewrite Ew, Hsec. cbn. by rewrite HLb.
  - (* the exchange on primary *)
    cbn in Hs. injection Hs as <-. destruct Hwok as (h & -> & Hu).
    pose proof (holds_empty _ _ (Hholds h) Hu) as HLh.
    destruct (Hexw h eq_refl) as [Hnp Hns].
    destruct (primary s) as [Y|] eqn:Eprim.
    + assert (Hsec : secondary s = None).
      { destruct (secondary s) as [z|] eqn:Esec; [|done].
        pose proof (Hexp Y eq_refl). destruct z, h, Y; congruence. }
      eapply (fifo_keep s _ L L batches D F F rest p p Hinv);
        [done|done|done|done|done|done|done|intros []; apply Hholds|done|done|
        |cbn; by intros b0 X _ [= <-]].
      unfold pending_ops. cbn. rewrite Ew, Eprim, Hsec. cbn. rewrite HLh.
      list_eq.
    + eapply (fifo_keep s _ L L batches D F F rest p p Hinv);
        [done|done|done|done|done|done|done|intros []; apply Hholds|done|done|
        |cbn; by intros b0 X _ [= <-]].
      unfold pending_ops. cbn. rewrite Ew, Eprim. cbn. rewrite HLh. list_eq.
  - (* the poll of secondary *)
    cbn in Hs. injection Hs as <-.
    eapply (fifo_keep s _ L L batches D F F rest p p Hinv);
      [done|done|done|done|done|done|done|intros []; apply Hholds|done
      |cbn; by destruct (secondary s)| |done].
    unfold pending_ops. cbn. rewrite Ew.
    destruct (secondary s); cbn; list_eq.
  - (* the test of used *)
    destruct (used (get_buffer b s) =? 0) eqn:Hu; cbn [negb] in Hs.
    + apply Z.eqb_eq in Hu.
      pose proof (holds_empty _ _ (Hholds b) Hu) as HLb.
      destruct (shutdown s); injection Hs as <-;
        (eapply (fifo_keep s _ L L batches D F F rest p p Hinv);
         [done|done|done|done|done|done|done|intros []; apply Hholds|done|done
         |unfold pending_ops; cbn; rewrite Ew; cbn; by rewrite HLb|done]).
    + apply Z.eqb_neq in Hu. injection Hs as <-. subst D.
      destruct (L b) as [|o R] eqn:ELb.
      { exfalso. apply Hu. pose proof (Hholds b) as Hh. rewrite ELb in Hh.
        by destruct (holds_used _ _ Hh). }
      eapply (fifo_keep s _ L L batches [] F F rest p p Hinv);
        [done|done|done|done|done|done|done|intros []; apply Hholds|done
        |cbn; split; [done|]; by exists o, R
        |unfold pending_ops; cbn; by rewrite Ew|done].
  - (* one iteration of the walk *)
    destruct Hwalk as (-> & o & R & ELb). destruct Hwok as [-> Hne].
    pose proof (Hholds b) as Hh. rewrite ELb in Hh.
    rewrite (holds_walk_iter _ D o R _ Hh) in Hs.
    cbn [mbind option_bind] in Hs.
    destruct (holds_used _ _ Hh) as [_ Hu]. rewrite Hu in Hs.
    pose proof (holds_sizes _ _ Hh) as HszL.
    apply Forall_app in HszL as [_ HszL].
    rewrite ops_total_app in Hs.
    assert (Hcons : ops_total (o :: R) = psz + 4 + op_size o + ops_total R)
      by done.
    rewrite Hcons in Hs.
    assert (Hone : ops_total [o] = psz + 4 + op_size o)
      by (unfold ops_total; cbn [foldr]; lia).
    assert (Hpe : pending_ops L D F s p
                  = o :: R ++ slot_ops L (secondary s) ++ slot_ops L (primary s)
                      ++ slot_ops L (producer_held p) ++ F).
    { unfold pending_ops. rewrite Ew. cbn [worker_ops].
      by rewrite ELb, drop_app_length. }
    rewrite Hpe in Hsum.
    set (w' := op_effect o (ops_total D + psz + 4) (world s)) in *.
    assert (Hcalls' : calls w' = calls (effects (D ++ [o]) 0 (executed batches w0))).
    { rewrite effects_app. cbn [effects]. rewrite Z.add_0_l.
      by apply calls_op_effect. }
    assert (Hworld' : Forall is_Some items ->
                      w' = effects (D ++ [o]) 0 (executed batches w0)).
    { intros Hall. rewrite effects_app. cbn [effects]. rewrite Z.add_0_l.
      by rewrite <- (Hworld Hall). }
    destruct (_ <? _) eqn:Hlt in Hs; injection Hs as <-.
    + apply Z.ltb_lt in Hlt.
      destruct R as [|o' R']; [exfalso; change (ops_total []) with 0 in Hlt; lia|].
      assert (Hpe' : forall e,
                pending_ops L (D ++ [o]) F
                  (set_worker
                     (W_walk b (ops_total D + (psz + 4 + op_size o)) e)
                     (set_world w' s)) p
                = (o' :: R') ++ slot_ops L (secondary s)
                    ++ slot_ops L (primary s)
                    ++ slot_ops L (producer_held p) ++ F).
      { intros e. unfold pending_ops. cbn [worker set_worker worker_ops].
        replace (L b) with ((D ++ [o]) ++ o' :: R')
          by (by rewrite ELb, <- app_assoc).
        by rewrite drop_app_length. }
      exists L, batches, (D ++ [o]), F, rest, p. unfold fifo_inv.
      rewrite Hpe'.
      split; [done|]. split; [done|]. split; [done|].
      split; [intros []; apply Hholds|]. split; [done|].
      split.
      { cbn. split; [rewrite ops_total_app; lia|].
        exists o', R'. by rewrite ELb, <- app_assoc. }
      split; [rewrite Hsum; list_eq|]. split; [done|].
      split; [by exists made|].
      intros Hq. destruct (HJ Hq) as [Hf Hk]. split.
      * rewrite Hpe in Hf. by apply fence_ok_step.
      * intros k Hk1 Hk2. specialize (Hk k Hk1 Hk2).
        rewrite !length_app in *. cbn. lia.
    + apply Z.ltb_ge in Hlt.
      destruct R as [|o' R'];
        [|apply Forall_cons in HszL as [_ HszR];
          pose proof (ops_total_pos o' R' HszR); lia].
      set (buffer' := mk_buffer (commands (get_buffer b s))
                        (size (get_buffer b s)) 0).
      set (s' := set_worker (W_swap (Some b))
                   (set_buffer b buffer' (set_world w' s))).
      assert (E1 : producers s' = [p]) by (by destruct b).
      assert (E2 : worker s' = W_swap (Some b)) by (by destruct b).
      assert (E3 : secondary s' = secondary s) by (by destruct b).
      assert (E4 : primary s' = primary s) by (by destruct b).
      assert (E5 : world s' = w') by (by destruct b).
      assert (E6 : get_buffer b s' = buffer') by (by destruct b).
      assert (E7 : forall b', b' <> b -> get_buffer b' s' = get_buffer b' s)
        by (intros b' Hne'; by destruct b, b').
      destruct (Hexw b eq_refl) as [Hnp Hns].
      assert (Hnh : producer_held p <> Some b).
      { intros E. destruct (Hex 0%nat p b Hl E) as (_ & _ & Hnw & _).
        by apply Hnw. }
      assert (Hpe' : pending_ops (update L b []) [] F s' p
                     = slot_ops L (secondary s) ++ slot_ops L (primary s)
                         ++ slot_ops L (producer_held p) ++ F).
      { unfold pending_ops. rewrite E2, E3, E4.
        by rewrite !slot_ops_update by done. }
      exists (update L b []), (batches ++ [D ++ [o]]), [], F, rest, p.
      unfold fifo_inv. rewrite Hpe', E1, E2, E4, E5.
      split; [done|]. split; [done|]. split; [done|]. split.
      { intros b'. destruct (decide (b' = b)) as [->|Hne'].
        - rewrite update_same, E6. apply (holds_reset _ _ Hh).
        - rewrite update_other, E7 by done. apply Hholds. }
      split.
      { cbn [effects]. rewrite executed_app. by split. }
      split; [done|]. split.
      { rewrite concat_app. cbn [concat]. rewrite Hsum. list_eq. }
      split.
      { intros b0 X Hb0 HX. destruct (decide (X = b)) as [->|Hne'].
        - by rewrite update_same.
        - rewrite update_other by done. by apply (Hprim b0). }
      split; [by exists made|].
      intros Hq. destruct (HJ Hq) as [Hf Hk]. split.
      * rewrite Hpe in Hf. cbn [app] in Hf. by apply fence_ok_step.
      * intros k Hk1 Hk2. specialize (Hk k Hk1 Hk2).
        rewrite concat_app. cbn [concat]. rewrite !length_app in *. cbn. lia.
Qed.

Lemma step_fifo a s s' :
  exchange_inv s -> worker_ok s -> fifo_ok items done w0 s ->
  step a s = Some s' -> fifo_ok items done w0 s'.
Proof.
  intros Hinv Hwok (L & batches & D & F & rest & p & Hf) Hs.
  pose proof Hf as (Hps & _ & Hpc & Hholds & _ & Hwalk & _ & Hprim & _).
  destruct a as [i| | |]; cbn [step] in Hs.
  - rewrite Hps in Hs. destruct i as [|i]; [|done]. cbn in Hs.
    by apply (producer_step_fifo s s' L batches D F rest p).
  - by apply (worker_step_fifo s s' L batches D F rest p).
  - unfold spurious_step in Hs.
    destruct (worker s) as [|?| |?|? ? ?|b|?] eqn:Ew; try done.
    injection Hs as <-.
    eapply (fifo_keep s _ L L batches D F F rest p p Hf);
      [done|done|done|done|done|done|done|intros []; apply Hholds|done
      |exact Hwalk|unfold pending_ops; cbn; by rewrite Ew|done].
  - unfold destructor_step in Hs.
    destruct (destructor s); [| |done]; injection Hs as <-.
    + eapply (fifo_keep s _ L L batches D F F rest p p Hf);
        [done|done|done|done|done|done|done|intros []; apply Hholds|done
        |done|done|done].
    + destruct (notify_one_facts s) as (N1 & N2 & N3 & N4 & N5 & N6 & N7).
      eapply (fifo_keep s _ L L batches D F F rest p p Hf);
        [cbn; by rewrite N1|done|done|done|done|done|done| |done
        |by apply N7| |cbn; by rewrite N2].
      * intros b. pose proof (Hholds b) as Hb. rewrite <- (N5 b) in Hb.
        by destruct b.
      * unfold pending_ops. cbn [worker secondary primary set_destructor].
        by rewrite N2, N3, N6.
Qed.

Lemma run_fifo schedule : forall s s',
  exchange_inv s -> worker_ok s -> fifo_ok items done w0 s ->
  run schedule s = Some s' -> fifo_ok items done w0 s'.
Proof.
  induction schedule as [|a sch IH]; intros s s' Hinv Hwok Hf Hr;
    cbn [run] in Hr.
  - by injection Hr as <-.
  - destruct (step a s) as [s1|] eqn:Hs; [|done].
    cbn [mbind option_bind] in Hr.
    apply (IH s1);
      [by apply (step_inv a s)|by apply (step_worker_ok a s)
      |by apply (step_fifo a s)|done].
Qed.

Lemma reachable_fifo size_ schedule s :
  0 <= size_ ->
  run schedule (init size_ [(map item_program items, done)] w0) = Some s ->
  fifo_ok items done w0 s.
Proof.
  intros Hsize Hr. apply run_fifo in Hr; [done|apply init_inv| |].
  - unfold worker_ok, init. cbn. by exists B1.
  - exists (fun _ => []), [], [], [], items,
      (mk_producer P_idle (map item_program items) done 0).
    unfold fifo_inv, init, pending_ops. cbn.
    split; [done|]. split; [done|]. split; [done|].
    split; [intros []; apply holds_nil; (by apply malloc_ok) || done|].
    split; [done|]. split; [done|]. split; [done|]. split; [done|].
    split; [by exists []|].
    intros _. split; [done|]. intros k Hk. lia.
Qed.

End Fifo.

Lemma records_Some done ops : records done (map Some ops) = ops.
Proof. unfold records. rewrite map_map. apply map_id. Qed.

Lemma all_Some (ops : list producer_op) : Forall is_Some (map Some ops).
Proof. induction ops as [|o ops IH]; constructor; [by exists o|done]. Qed.

Lemma program_of_items ops : program_of ops = map item_program (map Some ops).
Proof. unfold program_of. by rewrite map_map. Qed.

(** First in, first out, for a queue fed by one thread: when one producer
    thread makes the enqueue operations [ops] one after the other, with
    callables no larger than a pointer and records that take less than
    2^32 bytes in all, then in
    every state that the steps of the producer, of the worker and of the
    destructor reach, in any interleaving, what the worker has done is to
    call the records of a prefix of [ops], in the order of [ops], each
    once, arena after arena: no operation is called before one made
    earlier, none is called twice, and nothing else is called. *)
Theorem single_producer_fifo (ops : list producer_op) (w0 : World)
  (size_ done : Z) (schedule : list action) (s : State) :
  Forall op_ok ops ->
  Forall (fun o => 0 <= op_size o) ops ->
  ops_total ops < 2 ^ 32 ->
  0 <= size_ ->
  run schedule (init size_ [(program_of ops, done)] w0) = Some s ->
  exists batches,
    concat batches `prefix_of` ops /\ world s = executed batches w0.
Proof.
  intros Hops Hsizes Htotal Hsize Hr.
  rewrite program_of_items in Hr.
  apply reachable_fifo in Hr
    as (L & batches & D & F & rest & p & Hf);
    rewrite ?records_Some; try done.
  destruct Hf as (_ & _ & _ & _ & [_ Hworld] & _ & Hsum & _).
  rewrite records_Some in Hsum.
  exists (batches ++ [D]). split.
  - rewrite concat_app. cbn [concat]. rewrite app_nil_r.
    rewrite Hsum, app_assoc. by eexists.
  - rewrite executed_app. apply Hworld. apply all_Some.
Qed.

(** The fence of [join], for a queue fed by one thread: when one producer
    thread makes enqueue operations and calls of [join] one after the
    other, with callables no larger than a pointer and records that take
    less than 2^32 bytes in all, and no operation writes the [done] flag
    of [join], then in every state that the steps of the threads reach, in
    any interleaving, the worker has called the records of a prefix of the
    program, in order, and for every call of [join] that has returned,
    that prefix contains the record of that [join] and with it the records
    of all the operations the thread made before it. *)
Theorem single_producer_join (items : list (option producer_op)) (w0 : World)
  (size_ done : Z) (schedule : list action) (s : State) :
  Forall op_ok (records done items) ->
  Forall (fun o => 0 <= op_size o) (records done items) ->
  ops_total (records done items) < 2 ^ 32 ->
  Forall (quiet_item done) items ->
  0 <= size_ ->
  run schedule (init size_ [(map item_program items, done)] w0) = Some s ->
  exists p batches,
    producers s = [p] /\
    concat batches `prefix_of` records done items /\
    calls (world s) = calls (executed batches w0) /\
    forall k, (k < completed p)%nat -> items !! k = Some None ->
              (k < length (concat batches))%nat.
Proof.
  intros Hops Hsizes Htotal Hquiet Hsize Hr.
  apply reachable_fifo in Hr
    as (L & batches & D & F & rest & p & Hf); try done.
  destruct Hf as (Hps & _ & _ & _ & [Hcalls _] & _ & Hsum & _ & _ & HJ).
  destruct (HJ Hquiet) as [_ Hk].
  exists p, (batches ++ [D]). split; [done|].
  rewrite concat_app. cbn [concat]. rewrite app_nil_r. split.
  - rewrite Hsum, app_assoc. by eexists.
  - split; [by rewrite executed_app|done].
Qed.


End Properties.

(** * The properties on explicit inputs *)

Lemma doubling_loop_terminates_witness :
  (1 <= 256 /\ 256 < 300 /\ 300 <= 2 ^ 31) /\
  exists size', grow_size 32 300 256 = Some size' /\ 300 <= size'.
Proof.
  split; [lia|].
  destruct (doubling_loop_terminates 300 256) as [(size' & H1 & H2 & _) _];
    [lia..|].
  exists size'. by split.
Defined.

(** C8, as stated, fails on the arena of [CommandQueue(0)]: the reservation
    does not return, because the doubling loop never ends. *)
Lemma reservation_zero_capacity :
  allocCommand (pf := lp64) empty_arena 24576 4 = None /\
  forall fuel, grow_size fuel (wrap32 (0 + wrap32 (8 + 4 + 4))) (size empty_arena)
               = None.
Proof.
  split; [by vm_compute|]. intros fuel. by apply grow_size_zero.
Qed.

Lemma reservation_growth_witness :
  exists buffer',
    reserve_all (pf := lp64) [(24576, 300); (24576, 40)] default_arena
      = Some buffer' /\
    size buffer' = 512 /\ used buffer' = 364.
Proof.
  destruct (reservation_growth (pf := lp64) (im := image0)
              [(24576, 300); (24576, 40)] default_arena)
    as [(buffer' & k & Hr & Hu & Hs & Hle & Hmin) _].
  - reflexivity.
  - cbn. lia.
  - cbn. lia.
  - repeat constructor; cbn; lia.
  - by vm_compute.
  - exists buffer'. split; [done|].
    vm_compute in Hr. injection Hr as <-. by split.
Defined.

Lemma mixed_records_fit :
  Forall (record_fits (pf := lp64) (im := image0)) mixed_records.
Proof.
  constructor; [|constructor; [|constructor; [|constructor]]].
  - unfold record_fits. cbn [fst snd mixed_records].
    change (code 4096) with (Some (ExecuteStub 8 [4])).
    split; [cbn; lia|]. split; by eexists.
  - exact I.
  - unfold record_fits. cbn [fst snd].
    change (code 4300)
      with (Some (ReturnStub 8 8 (Integer true 4) (Integer true 4) [4; 4])).
    split; [cbn; lia|]. eexists _, _.
    split; [reflexivity|]. split; [reflexivity|]. split; by eexists.
Qed.

Lemma worker_walk_witness :
  exists w',
    walk (pf := lp64) (im := image0) 3 mixed_arena world0
      = Some (mk_buffer (commands mixed_arena) 256 0, w',
              [(0, 4096, 12); (24, 24576, 36); (40, 4300, 52)]) /\
    calls w' = [Called function_pointer [[7; 0; 0; 0]];
                RawCalled 24576 36;
                Called function_pointer [[3; 0; 0; 0]; [4; 0; 0; 0]]].
Proof.
  destruct (worker_walk (pf := lp64) (im := image0) mixed_records mixed_arena
              (replicate 180 0) world0) as (w' & Hw & _ & Hc & _).
  - by vm_compute.
  - reflexivity.
  - reflexivity.
  - repeat constructor; by vm_compute.
  - apply mixed_records_fit.
  - exists w'. split; [exact Hw|exact Hc].
Defined.

Lemma walk_terminates_witness :
  exists buffer' w' its,
    walk (pf := lp64) (im := image0) 3 mixed_arena world0
      = Some (buffer', w', its) /\
    walk (pf := lp64) (im := image0) 2 mixed_arena world0 = None /\
    length its = 3%nat.
Proof.
  destruct (walk_terminates (pf := lp64) (im := image0) mixed_records mixed_arena
              (replicate 180 0) world0)
    as (buffer' & w' & its & Hw & Hfuel & Hlen & _).
  - by vm_compute.
  - reflexivity.
  - reflexivity.
  - repeat constructor; by vm_compute.
  - apply mixed_records_fit.
  - exists buffer', w', its. split; [exact Hw|]. split; [|exact Hlen].
    apply Hfuel. cbn. lia.
Defined.

Lemma typed_enqueue_round_trip_witness :
  exists buffer',
    execute (pf := lp64) 4096 function_pointer [[7; 0; 0; 0]] default_arena
      = Some buffer' /\
    walk_iter (pf := lp64) (im := image0) (commands buffer') 0 world0
      = Some ((call (pf := lp64) (im := image0) function_pointer [[7; 0; 0; 0]]
                 world0).1, 4096, 32).
Proof.
  destruct (typed_enqueue_round_trip (pf := lp64) (im := image0) 4096
              function_pointer [[7; 0; 0; 0]] default_arena world0)
    as [Hcall Hret].
  - by vm_compute.
  - by vm_compute.
  - reflexivity.
  - destruct Hret as (buffer' & He & _).
    + reflexivity.
    + by vm_compute.
    + by vm_compute.
    + cbn. lia.
    + by vm_compute.
    + exists buffer'. split; [exact He|]. exact (Hcall buffer' He).
Defined.

(** C6, as stated, fails for a callable object larger than a pointer: the
    first argument is stored over its second half, and the stub calls the
    object it finds. *)
Lemma typed_enqueue_fat_callable :
  (buffer' ← execute (pf := lp64) 4100 fat_callable [[7; 0; 0; 0]] default_arena;
   r ← walk_iter (pf := lp64) (im := image0) (commands buffer') 0 world0;
   Some (calls r.1.1))
  = Some [Called [1; 2; 3; 4; 5; 6; 7; 8; 7; 0; 0; 0; 0; 0; 0; 0] [[7; 0; 0; 0]]]
  /\ calls (call (pf := lp64) (im := image0) fat_callable [[7; 0; 0; 0]] world0).1
     = [Called fat_callable [[7; 0; 0; 0]]].
Proof. split; by vm_compute. Qed.



(** C7, as stated, fails as well when the destination points to a type
    other than the type of the value of the callable: a function that
    returns the [long long] 2^32 + 5, with an [int] as destination, leaves
    the [int] 5 there, in four bytes, and the four bytes after it as they
    were. *)
Lemma return_value_converted :
  (buffer' ← returns (pf := lp64) 4400 function_pointer (le_encode 8 1000) []
               default_arena;
   r ← walk_iter (pf := lp64) (im := image1) (commands buffer') 0 world0;
   Some (heap_load (heap r.1.1) 1000 8))
  = Some [5; 0; 0; 0; 0; 0; 0; 0]
  /\ (call (pf := lp64) (im := image1) function_pointer [] world0).2
     = [5; 0; 0; 0; 1; 0; 0; 0].
Proof. split; by vm_compute. Qed.

Lemma release_protocol_witness :
  primary after_acquire = None /\
  primary (releaseBuffer B0 after_acquire) = Some B0 /\
  secondary (releaseBuffer B0 after_acquire) = secondary after_acquire.
Proof.
  split; [reflexivity|].
  exact (proj1 (release_protocol B0 after_acquire) eq_refl).
Defined.

(** C1, as stated, fails: the producer that returns its arena to [primary]
    notifies [cvDequeue] as well. *)
Lemma release_signals_primary_path :
  primary after_acquire = None /\
  primary (releaseBuffer B0 after_acquire) = Some B0 /\
  cvDequeue_signals after_acquire = 0%nat /\
  cvDequeue_signals (releaseBuffer B0 after_acquire) = 1%nat.
Proof. by vm_compute. Qed.

Lemma arena_conservation_witness :
  exists s,
    run (pf := lp64) (im := image0) overtaking_schedule two_producers = Some s /\
    conserved s.
Proof.
  destruct (run (pf := lp64) (im := image0) overtaking_schedule two_producers)
    as [s|] eqn:Hr; [|by vm_compute in Hr].
  exists s. split; [done|].
  apply (arena_conservation (pf := lp64) (im := image0)).
  by exists 256, [([command 1; command 3], 1000); ([command 2], 2000)], world0,
    overtaking_schedule.
Defined.

(** C4 (single-producer FIFO) fails on this run: thread 0 has enqueued 1
    and then 3, and the worker calls the user function with 3, then 1,
    then 2. *)
Theorem fifo_violated :
  (s ← run (pf := lp64) (im := image0) overtaking_schedule two_producers;
   Some (calls (world s), map completed (producers s)))
  = Some ([Called function_pointer [le_encode 4 3];
           Called function_pointer [le_encode 4 1];
           Called function_pointer [le_encode 4 2]],
          [2%nat; 1%nat]).
Proof. by vm_compute. Qed.

(** C3 (join fence) fails on this run: in thread 0 the enqueue of 1 and
    then [join] have returned, and the worker has called no user function
    yet; command 1 is still in the arena in [primary]. *)
Theorem join_returns_early :
  (s ← run (pf := lp64) (im := image0) early_join_schedule two_producers_join;
   Some (calls (world s), map completed (producers s), primary s,
         used (get_buffer B1 s)))
  = Some ([], [2%nat; 1%nat], Some B1, 64).
Proof. by vm_compute. Qed.

Lemma producer_op_appends_witness :
  arena_ok filled_arena /\
  exists buffer',
    op_body (pf := lp64) (Op_rawExecute 24576 [[1; 2]; [3]]) filled_arena
      = Some buffer' /\
    arena_ok buffer' /\
    take 28 (commands buffer') = take 28 (commands filled_arena) /\
    used buffer' = 43.
Proof.
  assert (Hok : arena_ok filled_arena) by (split; [reflexivity|cbn; lia]).
  split; [done|].
  destruct (op_body (pf := lp64) (Op_rawExecute 24576 [[1; 2]; [3]]) filled_arena)
    as [buffer'|] eqn:H; [|by vm_compute in H].
  destruct (producer_op_appends (pf := lp64) _ _ _ Hok H) as (H1 & H2 & _).
  exists buffer'. split; [done|]. split; [done|]. split; [done|].
  vm_compute in H. by injection H as <-.
Defined.

Lemma raw_enqueue_round_trip_witness :
  exists buffer',
    rawExecute (pf := lp64) 24576 [[1; 2]; [3]] filled_arena = Some buffer' /\
    used buffer' = 43 /\
    walk_iter (pf := lp64) (im := image0) (commands buffer') 28 world0
    = Some (mk_world (heap world0) [RawCalled 24576 40] 0, 24576, 43) /\
    load_args (commands buffer') 40 [2; 1] = Some [[1; 2]; [3]].
Proof.
  destruct (raw_enqueue_round_trip (pf := lp64) (im := image0)
              24576 [[1; 2]; [3]] filled_arena world0) as [Hwalk Hret].
  - by vm_compute.
  - reflexivity.
  - destruct Hret as (buffer' & He & Hu).
    + reflexivity.
    + by vm_compute.
    + by vm_compute.
    + cbn. lia.
    + by vm_compute.
    + destruct (Hwalk buffer' He) as [H1 H2].
      exists buffer'. split; [exact He|]. split; [exact Hu|].
      split; [exact H1|exact H2].
Defined.

Lemma blob_enqueue_round_trip_witness :
  (exists buffer',
     executeWithCopy (pf := lp64) 24576 [1; 2; 3; 4; 5] 4 filled_arena
       = Some buffer' /\
     used buffer' = 44 /\
     load (commands buffer') 40 4 = Some [1; 2; 3; 4] /\
     walk_iter (pf := lp64) (im := image0) (commands buffer') 28 world0
     = Some (mk_world (heap world0) [RawCalled 24576 40] 0, 24576, 44)) /\
  executeWithCopy (pf := lp64) 24576 [1; 2; 3] 4 filled_arena = None.
Proof.
  split.
  - destruct (blob_enqueue_round_trip (pf := lp64) (im := image0)
                24576 [1; 2; 3; 4; 5] 4 filled_arena world0)
      as (Hwalk & Hret & _).
    + by vm_compute.
    + reflexivity.
    + destruct Hret as (buffer' & He & Hu).
      * reflexivity.
      * by vm_compute.
      * by vm_compute.
      * by vm_compute.
      * by vm_compute.
      * destruct (Hwalk buffer' He) as [H1 H2].
        exists buffer'. split; [exact He|]. split; [exact Hu|].
        split; [exact H1|exact H2].
  - destruct (blob_enqueue_round_trip (pf := lp64) (im := image0)
                24576 [1; 2; 3] 4 filled_arena world0) as (_ & _ & H2 & _).
    + by vm_compute.
    + reflexivity.
    + apply H2. by vm_compute.
Defined.

Lemma join_sentinel_witness :
  exists buffer' w',
    join_body (pf := lp64) (im := image0) 1000 filled_arena = Some buffer' /\
    walk_iter (pf := lp64) (im := image0) (commands buffer') 28 world0
    = Some (w', 8192, 72) /\
    heap w' 1000 = 1 /\ calls w' = [] /\ cvJoin_signals w' = 1%nat.
Proof.
  destruct (join_body (pf := lp64) (im := image0) 1000 filled_arena)
    as [buffer'|] eqn:H; [|by vm_compute in H].
  destruct (join_sentinel (pf := lp64) (im := image0)
              1000 filled_arena buffer' world0)
    as (w' & H1 & H2 & _ & H3 & H4).
  - by vm_compute.
  - by vm_compute.
  - reflexivity.
  - done.
  - exists buffer', w'. split; [done|]. split; [exact H1|].
    split; [exact H2|]. split; [exact H3|exact H4].
Defined.

Lemma enqueue_then_walk_witness :
  exists buffer' its,
    enqueue_all (pf := lp64) two_operations default_arena = Some buffer' /\
    walk (pf := lp64) (im := image0) (length two_operations) buffer' world0
    = Some (mk_buffer (commands buffer') (size buffer') 0,
            effects (pf := lp64) (im := image0) two_operations 0 world0,
            its) /\
    map (fun it => it.1.2) its = [4096; 24576] /\
    calls (effects (pf := lp64) (im := image0) two_operations 0 world0)
    = [Called function_pointer [le_encode 4 1]; RawCalled 24576 44].
Proof.
  destruct (enqueue_all (pf := lp64) two_operations default_arena)
    as [buffer'|] eqn:H; [|by vm_compute in H].
  destruct (enqueue_then_walk (pf := lp64) (im := image0)
              two_operations default_arena buffer' world0)
    as (its & H1 & H2).
  - split; [reflexivity|cbn; lia].
  - reflexivity.
  - done.
  - repeat constructor; by vm_compute.
  - by vm_compute.
  - done.
  - exists buffer', its. split; [done|]. split; [exact H1|].
    split; [exact H2|]. by vm_compute.
Defined.

Lemma exclusive_ownership_witness :
  exists s p,
    run (pf := lp64) (im := image0) first_steps two_producers = Some s /\
    producers s !! 0%nat = Some p /\ producer_held p = Some B1 /\
    primary s <> Some B1 /\ secondary s <> Some B1 /\
    worker_held (worker s) <> Some B1.
Proof.
  assert (E : option_map (fun s => producer_held <$> producers s !! 0%nat)
                (run (pf := lp64) (im := image0) first_steps two_producers)
              = Some (Some (Some B1))) by (by vm_compute).
  destruct (run (pf := lp64) (im := image0) first_steps two_producers)
    as [s|] eqn:H; [|discriminate E].
  cbn [option_map] in E. injection E as E.
  destruct (producers s !! 0%nat) as [p|] eqn:Hp; [|discriminate E].
  cbn [fmap option_fmap option_map] in E. injection E as Hb.
  destruct (exclusive_ownership (pf := lp64) (im := image0) s) as [H1 _].
  - exists 256, [([command 1; command 3], 1000); ([command 2], 2000)],
      world0, first_steps. exact H.
  - destruct (H1 0%nat p B1 Hp Hb) as (Ha & Hc & Hd & _).
    exists s, p. split; [reflexivity|]. split; [exact Hp|].
    split; [exact Hb|]. split; [exact Ha|]. split; [exact Hc|exact Hd].
Defined.

Lemma worker_arena_witness :
  exists s,
    run (pf := lp64) (im := image0) [Worker; Worker; Worker] two_producers
      = Some s /\
    worker s = W_wait B0 /\ used (get_buffer B0 s) = 0.
Proof.
  assert (E : option_map worker
                (run (pf := lp64) (im := image0) [Worker; Worker; Worker]
                   two_producers)
              = Some (W_wait B0)) by (by vm_compute).
  destruct (run (pf := lp64) (im := image0) [Worker; Worker; Worker]
              two_producers) as [s|] eqn:H; [|discriminate E].
  cbn [option_map] in E. injection E as Hw.
  pose proof (worker_arena (pf := lp64) (im := image0) s) as Hok.
  unfold worker_ok in Hok. rewrite Hw in Hok.
  exists s. split; [reflexivity|]. split; [exact Hw|]. apply Hok.
  exists 256, [([command 1; command 3], 1000); ([command 2], 2000)],
    world0, [Worker; Worker; Worker]. exact H.
Defined.

Lemma arenas_well_formed_witness :
  exists s,
    run (pf := lp64) (im := image0) early_join_schedule two_producers_join
      = Some s /\
    arena_ok (buffer0 s) /\ arena_ok (buffer1 s).
Proof.
  assert (E : option_map (fun _ => tt)
                (run (pf := lp64) (im := image0) early_join_schedule
                   two_producers_join) = Some tt) by (by vm_compute).
  destruct (run (pf := lp64) (im := image0) early_join_schedule
              two_producers_join) as [s|] eqn:H; [|discriminate E].
  exists s. split; [reflexivity|].
  apply (arenas_well_formed (pf := lp64) (im := image0) 256
           [([command 1; Join], 1000); ([command 2], 2000)] world0
           early_join_schedule s).
  - lia.
  - repeat constructor.
    + by exists (Op_execute 4096 function_pointer [le_encode 4 1]).
    + by exists (Op_execute 4096 function_pointer [le_encode 4 2]).
  - exact H.
Defined.

Lemma single_producer_fifo_witness :
  exists s batches,
    run (pf := lp64) (im := image0) drain_schedule one_producer = Some s /\
    concat batches `prefix_of` two_operations /\
    world s = executed (pf := lp64) (im := image0) batches world0 /\
    calls (world s)
    = [Called function_pointer [le_encode 4 1]; RawCalled 24576 44].
Proof.
  assert (E : option_map (fun s => calls (world s))
                (run (pf := lp64) (im := image0) drain_schedule one_producer)
              = Some [Called function_pointer [le_encode 4 1];
                      RawCalled 24576 44]) by (by vm_compute).
  destruct (run (pf := lp64) (im := image0) drain_schedule one_producer)
    as [s|] eqn:H; [|discriminate E].
  cbn [option_map] in E. injection E as E.
  destruct (single_producer_fifo (pf := lp64) (im := image0)
              two_operations world0) with (size_ := 256) (done := 1000)
              (schedule := drain_schedule) (s := s)
    as (batches & H1 & H2).
  - repeat constructor; by vm_compute.
  - repeat constructor; by vm_compute.
  - by vm_compute.
  - lia.
  - exact H.
  - exists s, batches. split; [reflexivity|]. split; [exact H1|].
    split; [exact H2|exact E].
Defined.

Lemma single_producer_join_witness :
  exists s p batches,
    run (pf := lp64) (im := image0) join_schedule one_producer_join = Some s /\
    producers s = [p] /\ completed p = 2%nat /\
    concat batches `prefix_of` records (pf := lp64) (im := image0) 1000 join_items /\
    (2 <= length (concat batches))%nat /\
    calls (world s) = [Called function_pointer [le_encode 4 1]].
Proof.
  assert (E : option_map
                (fun s => (map completed (producers s), calls (world s)))
                (run (pf := lp64) (im := image0) join_schedule one_producer_join)
              = Some ([2%nat], [Called function_pointer [le_encode 4 1]]))
    by (by vm_compute).
  destruct (run (pf := lp64) (im := image0) join_schedule one_producer_join)
    as [s|] eqn:H; [|discriminate E].
  cbn [option_map] in E. injection E as E1 E2.
  destruct (single_producer_join (pf := lp64) (im := image0)
              join_items world0 256 1000 join_schedule s)
    as (p & batches & Hp & Hpre & _ & Hk).
  - repeat constructor; by vm_compute.
  - repeat constructor; by vm_compute.
  - by vm_compute.
  - repeat constructor.
  - lia.
  - exact H.
  - rewrite Hp in E1. cbn [map] in E1. injection E1 as E1.
    exists s, p, batches. split; [reflexivity|]. split; [exact Hp|].
    split; [exact E1|]. split; [exact Hpre|]. split; [|exact E2].
    apply (Hk 1%nat); [rewrite E1; lia|reflexivity].
Defined.
